(** * meex: packet decoding and stream continuity

    A shallow embedding of the parts of the meex telemetry tools that
    decode packet headers, sum packet bodies, detect sequence gaps,
    walk the archive and validate the time range of a request, with the
    properties that hold of them.

    Conventions of the embedding:
    - a Go call either returns or panics at run time; [go A] records
      which.  Loops are unrolled with a fuel argument; [OutOfFuel] is an
      artefact of the embedding that the theorems show is never reached;
    - a byte is a [Byte.byte]; [u8] is its unsigned value;
    - fixed-width integers are [Z] with the wrap-around written out;
    - Go's [int] is taken to be 64 bits wide (amd64, arm64);
    - a slice is the list of its elements; its capacity is taken equal to
      its length, so [s[a:b]] is in range when [0 <= a <= b <= len(s)]. *)

From Stdlib Require Import ZArith Lia.
From Stdlib.Strings Require Byte.
From stdpp Require Import base option list sorting gmap strings.

Local Open Scope Z_scope.

Abbreviation byte := Byte.byte.

(** ** Go run time *)

Module GoRt.

Inductive go (A : Type) : Type :=
| Ret (a : A)
| Panic
| OutOfFuel.
Arguments Ret {A} a.
Arguments Panic {A}.
Arguments OutOfFuel {A}.

#[global] Instance go_ret : MRet go := fun A a => Ret a.

#[global] Instance go_bind : MBind go := fun A B k m =>
  match m with
  | Ret a => k a
  | Panic => Panic
  | OutOfFuel => OutOfFuel
  end.

Definition u8 (b : byte) : Z := Z.of_N (Byte.to_N b).

Definition wrap (bits : Z) (z : Z) : Z := z mod 2 ^ bits.

(** [int64(z)]: the two's complement reading of the low 64 bits. *)
Definition to_int64 (z : Z) : Z := (z + 2 ^ 63) mod 2 ^ 64 - 2 ^ 63.

(** [a + b] on [uint32] operands. *)
Definition add32 (a b : Z) : Z := wrap 32 (a + b).

(** [s[i]]: panics when [i] is out of range. *)
Definition index {A : Type} (s : list A) (i : Z) : go A :=
  if i <? 0 then Panic
  else match s !! Z.to_nat i with
       | Some x => Ret x
       | None => Panic
       end.

(** [s[a:]]: panics unless [0 <= a <= len(s)]. *)
Definition slice_from {A : Type} (s : list A) (a : Z) : go (list A) :=
  if (a <? 0) || (Z.of_nat (length s) <? a) then Panic
  else Ret (drop (Z.to_nat a) s).

(** [s[a:b]]: panics unless [0 <= a <= b <= len(s)]. *)
Definition slice {A : Type} (s : list A) (a b : Z) : go (list A) :=
  if (a <? 0) || (b <? a) || (Z.of_nat (length s) <? b) then Panic
  else Ret (take (Z.to_nat (b - a)) (drop (Z.to_nat a) s)).

(** [copy(dst, src)]: overwrites the first [min(len(dst), len(src))]
    elements of [dst]. *)
Definition copy {A : Type} (dst src : list A) : list A :=
  take (length dst) src ++ drop (length src) dst.

(** encoding/binary: each reader first touches its last byte, which
    panics on a short slice, then assembles the value. *)
Definition le_uint16 (b : list byte) : go Z :=
  b1 ← index b 1;
  b0 ← index b 0;
  Ret (Z.lor (u8 b0) (Z.shiftl (u8 b1) 8)).

Definition be_uint16 (b : list byte) : go Z :=
  b1 ← index b 1;
  b0 ← index b 0;
  Ret (Z.lor (u8 b1) (Z.shiftl (u8 b0) 8)).

Definition le_uint32 (b : list byte) : go Z :=
  b3 ← index b 3;
  b0 ← index b 0;
  b1 ← index b 1;
  b2 ← index b 2;
  Ret (Z.lor (Z.lor (Z.lor (u8 b0) (Z.shiftl (u8 b1) 8))
                    (Z.shiftl (u8 b2) 16))
             (Z.shiftl (u8 b3) 24)).

Definition be_uint32 (b : list byte) : go Z :=
  b3 ← index b 3;
  b0 ← index b 0;
  b1 ← index b 1;
  b2 ← index b 2;
  Ret (Z.lor (Z.lor (Z.lor (u8 b3) (Z.shiftl (u8 b2) 8))
                    (Z.shiftl (u8 b1) 16))
             (Z.shiftl (u8 b0) 24)).

Definition le_uint64 (b : list byte) : go Z :=
  b7 ← index b 7;
  b0 ← index b 0;
  b1 ← index b 1;
  b2 ← index b 2;
  b3 ← index b 3;
  b4 ← index b 4;
  b5 ← index b 5;
  b6 ← index b 6;
  Ret (Z.lor (Z.lor (Z.lor (Z.lor (Z.lor (Z.lor (Z.lor
         (u8 b0) (Z.shiftl (u8 b1) 8)) (Z.shiftl (u8 b2) 16))
         (Z.shiftl (u8 b3) 24)) (Z.shiftl (u8 b4) 32))
         (Z.shiftl (u8 b5) 40)) (Z.shiftl (u8 b6) 48))
         (Z.shiftl (u8 b7) 56)).

(** The byte with unsigned value [n], for writing inputs down. *)
Definition byte_of (n : N) : byte := default Byte.x00 (Byte.of_N n).

Definition Zsum (l : list Z) : Z := foldr Z.add 0 l.

End GoRt.

Import GoRt.

(** ** Package time *)

Module GoTime.

(** A [time.Time] is kept as its instant: the nanoseconds since the zero
    Time, January 1 of year 1, 00:00:00 UTC.  The location and the
    monotonic clock reading play no part in the operations used here.
    A [time.Duration] is an [int64] count of nanoseconds. *)
Definition Time : Type := Z.
Definition Duration : Type := Z.

Definition Second : Duration := 1000000000.
Definition Minute : Duration := 60 * Second.
Definition Hour : Duration := 60 * Minute.

Definition minDuration : Duration := - 2 ^ 63.
Definition maxDuration : Duration := 2 ^ 63 - 1.

(** [t.Sub(u)]: the difference, or the nearest of [minDuration] and
    [maxDuration] when it does not fit a Duration. *)
Definition Sub (t u : Time) : Duration :=
  Z.max minDuration (Z.min maxDuration (t - u)).

Definition Add (t : Time) (d : Duration) : Time := t + d.

Definition Before (t u : Time) : bool := t <? u.

Definition IsZero (t : Time) : bool := t =? 0.

(** [t.Truncate(d)]: [t] rounded down to a multiple of [d] since the
    zero Time; [t] itself when [d <= 0]. *)
Definition Truncate (t : Time) (d : Duration) : Time :=
  if d <=? 0 then t else t - t mod d.

End GoTime.

Import GoTime.

(** ** The packet dumper (HRDL / VMU headers, body sum, user info) *)

Module Vmudump.

Record shortError := { Want : Z; Got : Z }.

Inductive error :=
| ErrShort (e : shortError)
| ErrInvalid.

Definition NotEnoughByte (want got : Z) : error :=
  ErrShort {| Want := want; Got := got |}.

Definition UPILen : Z := 32.
Definition HRDLHeaderLen : Z := 18.
Definition VMUHeaderLen : Z := 24.

(** The two markers [calculateSum] hands back: the byte strings
    "invalid" and "***". *)
Inductive marker := invalid | unknown.

(** [bytes.Equal(bad, invalid)] *)
Definition is_invalid (bad : marker) : bool :=
  match bad with invalid => true | unknown => false end.

Definition blockSize : Z := 16.

(** One turn of the block loop: four statements, each adding four bytes
    to [sum] in [uint32] arithmetic. *)
Definition block16 (body : list byte) (i sum : Z) : go Z :=
  b0 ← index body i;
  b1 ← index body (i + 1);
  b2 ← index body (i + 2);
  b3 ← index body (i + 3);
  let sum := add32 sum (add32 (add32 (add32 (u8 b0) (u8 b1)) (u8 b2)) (u8 b3)) in
  b4 ← index body (i + 4);
  b5 ← index body (i + 5);
  b6 ← index body (i + 6);
  b7 ← index body (i + 7);
  let sum := add32 sum (add32 (add32 (add32 (u8 b4) (u8 b5)) (u8 b6)) (u8 b7)) in
  b8 ← index body (i + 8);
  b9 ← index body (i + 9);
  b10 ← index body (i + 10);
  b11 ← index body (i + 11);
  let sum := add32 sum (add32 (add32 (add32 (u8 b8) (u8 b9)) (u8 b10)) (u8 b11)) in
  b12 ← index body (i + 12);
  b13 ← index body (i + 13);
  b14 ← index body (i + 14);
  b15 ← index body (i + 15);
  Ret (add32 sum (add32 (add32 (add32 (u8 b12) (u8 b13)) (u8 b14)) (u8 b15))).

(** [for i < (limit-blockSize)+1 { ...; i += blockSize }] *)
Fixpoint block_loop (fuel : nat) (body : list byte) (limit i sum : Z)
  : go (Z * Z) :=
  if i <? (limit - blockSize) + 1 then
    match fuel with
    | O => OutOfFuel
    | S fuel =>
        sum ← block16 body i sum;
        block_loop fuel body limit (i + blockSize) sum
    end
  else Ret (i, sum).

(** [for i < limit { sum += uint32(body[i]); i++ }] *)
Fixpoint scalar_loop (fuel : nat) (body : list byte) (limit i sum : Z)
  : go (Z * Z) :=
  if i <? limit then
    match fuel with
    | O => OutOfFuel
    | S fuel =>
        b ← index body i;
        scalar_loop fuel body limit (i + 1) (add32 sum (u8 b))
    end
  else Ret (i, sum).

Definition calculateSum (body : list byte) : go (Z * marker) :=
  let limit := Z.of_nat (length body) - 4 in
  let fuel := S (length body) in
  '(i, sum) ← block_loop fuel body limit 0 0;
  '(_, sum) ← scalar_loop fuel body limit i sum;
  trailer ← slice_from body limit;
  expected ← le_uint32 trailer;
  Ret (sum, if bool_decide (expected = sum) then unknown else invalid).

Record HRDLHeader := {
  hrdl_Size : Z;          (* uint32 *)
  hrdl_Error : Z;         (* uint16 *)
  hrdl_Channel : Z;       (* uint8 *)
  hrdl_Payload : Z;       (* uint8 *)
  hrdl_PacketCoarse : Z;  (* uint32 *)
  hrdl_PacketFine : Z;    (* uint8 *)
  hrdl_HRDPCoarse : Z;    (* uint32 *)
  hrdl_HRDPFine : Z       (* uint8 *)
}.

Record VMUHeader := {
  vmu_Size : Z;      (* uint32 *)
  vmu_Channel : Z;   (* uint8 *)
  vmu_Origin : Z;    (* uint8 *)
  vmu_Sequence : Z;  (* uint32 *)
  vmu_Coarse : Z;    (* uint32 *)
  vmu_Fine : Z       (* uint16 *)
}.

Record VMUCommonHeader := {
  com_Property : Z;    (* uint8 *)
  com_Origin : Z;      (* uint8 *)
  com_AcqTime : Z;     (* time.Duration, an int64 *)
  com_AuxTime : Z;     (* time.Duration *)
  com_Stream : Z;      (* uint16 *)
  com_Counter : Z;     (* uint32 *)
  com_UPI : list byte  (* [UPILen]byte *)
}.

Definition decodeHRDL (body : list byte) : go (HRDLHeader * option error) :=
  size ← le_uint32 body;
  b4 ← slice_from body 4;
  err ← be_uint16 b4;
  payload ← index body 6;
  channel ← index body 7;
  b8 ← slice_from body 8;
  pcoarse ← be_uint32 b8;
  pfine ← index body 12;
  b13 ← slice_from body 13;
  hcoarse ← be_uint32 b13;
  hfine ← index body 17;
  Ret ({| hrdl_Size := size; hrdl_Error := err;
          hrdl_Channel := u8 channel; hrdl_Payload := u8 payload;
          hrdl_PacketCoarse := pcoarse; hrdl_PacketFine := u8 pfine;
          hrdl_HRDPCoarse := hcoarse; hrdl_HRDPFine := u8 hfine |}, None).

Definition decodeVMU (body : list byte) : go (VMUHeader * option error) :=
  b4 ← slice_from body 4;
  size ← le_uint32 b4;
  channel ← index body 8;
  origin ← index body 9;
  b12 ← slice_from body 12;
  sequence ← le_uint32 b12;
  b16 ← slice_from body 16;
  coarse ← le_uint32 b16;
  b20 ← slice_from body 20;
  fine ← le_uint16 b20;
  Ret ({| vmu_Size := size; vmu_Channel := u8 channel;
          vmu_Origin := u8 origin; vmu_Sequence := sequence;
          vmu_Coarse := coarse; vmu_Fine := fine |}, None).

(** The zero value of [[UPILen]byte]. *)
Definition zeroUPI : list byte := replicate (Z.to_nat UPILen) Byte.x00.

(** The [switch v.Property >> 4] of [decodeCommon]: the UPI array after
    it, starting from the zero array. *)
Definition selectUPI (property : Z) (body : list byte) : go (list byte) :=
  let class := Z.shiftr property 4 in
  if class =? 1 then          (* science *)
    src ← slice_from body 24;
    Ret (copy zeroUPI src)
  else if class =? 2 then     (* image *)
    src ← slice_from body 44;
    Ret (copy zeroUPI src)
  else Ret zeroUPI.

Definition decodeCommon (body : list byte)
  : go (VMUCommonHeader * option error) :=
  property ← index body 0;
  b1 ← slice_from body 1;
  stream ← le_uint16 b1;
  b3 ← slice_from body 3;
  counter ← le_uint32 b3;
  b7 ← slice_from body 7;
  acq ← le_uint64 b7;
  b15 ← slice_from body 15;
  aux ← le_uint64 b15;
  origin ← index body 23;
  upi ← selectUPI (u8 property) body;
  Ret ({| com_Property := u8 property; com_Origin := u8 origin;
          com_AcqTime := to_int64 acq; com_AuxTime := to_int64 aux;
          com_Stream := stream; com_Counter := counter;
          com_UPI := upi |}, None).

Definition whichChannel (c : Z) : string :=
  if c =? 1 then "vic1"
  else if c =? 2 then "vic2"
  else if c =? 3 then "lrsd"
  else "***".

Definition whichMode (vmu hrd : Z) : string :=
  if vmu =? hrd then "realtime" else "playback".

(** unicode.IsLetter and unicode.IsDigit on the Latin-1 range, which is
    all a [rune(upi[i])] can reach: the letters are A-Z, a-z, U+00AA,
    U+00B5, U+00BA, U+00C0-U+00D6, U+00D8-U+00F6 and U+00F8-U+00FF; the
    digits are 0-9. *)
Definition IsLetter (r : Z) : bool :=
  ((65 <=? r) && (r <=? 90)) || ((97 <=? r) && (r <=? 122))
  || (r =? 170) || (r =? 181) || (r =? 186)
  || ((192 <=? r) && (r <=? 214)) || ((216 <=? r) && (r <=? 246))
  || ((248 <=? r) && (r <=? 255)).

Definition IsDigit (r : Z) : bool := (48 <=? r) && (r <=? 57).

(** Returns [(keep, done)]. *)
Definition shouldKeepRune (r : Z) : bool * bool :=
  if r =? 0 then (false, true)
  else if IsLetter r || IsDigit r || (r =? 45) || (r =? 95) then (true, false)
  else (false, true).

(** [upiBuffer[n] = x] *)
Definition store (buf : list byte) (n : Z) (x : byte) : go (list byte) :=
  if (n <? 0) || (Z.of_nat (length buf) <=? n) then Panic
  else Ret (<[Z.to_nat n := x]> buf).

(** The loop of [userInfo], from index [i] with [n] bytes already kept;
    [buf] is the package-level [upiBuffer], which the loop writes. *)
Fixpoint userInfo_loop (fuel : nat) (upi buf : list byte) (i n : Z)
  : go (list byte * Z) :=
  if i <? UPILen then
    match fuel with
    | O => OutOfFuel
    | S fuel =>
        b ← index upi i;
        let '(keep, done) := shouldKeepRune (u8 b) in
        if done then Ret (buf, n)
        else if negb keep then userInfo_loop fuel upi buf (i + 1) n
        else
          buf ← store buf n b;
          userInfo_loop fuel upi buf (i + 1) (n + 1)
    end
  else Ret (buf, n).

(** [userInfo] returns [upiBuffer[:n]]: the new contents of the shared
    buffer and the slice handed back, which aliases its first [n] bytes. *)
Definition userInfo (upiBuffer upi : list byte)
  : go (list byte * list byte) :=
  '(buf, n) ← userInfo_loop (S (Z.to_nat UPILen)) upi upiBuffer 0 0;
  out ← slice buf 0 n;
  Ret (buf, out).

(** What one call of [fmt.Fprintf(os.Stdout, listRow, ...)] is given. *)
Record row := {
  row_size : Z;
  row_error : Z;
  row_vmutime : Z * Z;   (* coarse and fine fields of v.Timestamp() *)
  row_sequence : Z;
  row_mode : string;
  row_channel : string;
  row_origin : Z;
  row_acqtime : Z;       (* c.Acquisition(), as the offset from the GPS epoch *)
  row_counter : Z;
  row_upi : list byte;
  row_sum : Z;
  row_bad : marker;
  row_digest : Z
}.

(** The package-level state [dumpPacket] touches: what has been written
    to the standard output, and [upiBuffer].  The two time buffers are
    scratch space of [timeFormat], whose text the row stands for. *)
Record world := {
  stdout : list row;
  upiBuffer : list byte
}.

Definition dumpPacket (w : world) (body : list byte) (digest : Z)
    (withErr : bool) : go (world * (Z * option error)) :=
  let len := Z.of_nat (length body) in
  if len <? HRDLHeaderLen + VMUHeaderLen then
    Ret (w, (0, Some (NotEnoughByte 0 len)))
  else
    hb ← slice body 0 HRDLHeaderLen;
    '(h, err) ← decodeHRDL hb;
    if err is Some e then Ret (w, (0, Some e)) else
    vb ← slice body HRDLHeaderLen (HRDLHeaderLen + VMUHeaderLen);
    '(v, err) ← decodeVMU vb;
    if err is Some e then Ret (w, (0, Some e)) else
    let size := len - HRDLHeaderLen - 12 in
    if size <? to_int64 (vmu_Size v) then
      Ret (w, (0, Some (NotEnoughByte (to_int64 (vmu_Size v) + 12) (size + 12))))
    else
    cb ← slice_from body (HRDLHeaderLen + VMUHeaderLen);
    '(c, err) ← decodeCommon cb;
    if err is Some e then Ret (w, (0, Some e)) else
    sb ← slice body (HRDLHeaderLen + 8)
               (HRDLHeaderLen + 8 + to_int64 (vmu_Size v) + 4);
    '(sum, bad) ← calculateSum sb;
    if is_invalid bad && negb withErr then
      Ret (w, (0, Some ErrInvalid))
    else
    '(buf, info) ← userInfo (upiBuffer w) (com_UPI c);
    let line := {| row_size := vmu_Size v; row_error := hrdl_Error h;
                   row_vmutime := (vmu_Coarse v, vmu_Fine v);
                   row_sequence := vmu_Sequence v;
                   row_mode := whichMode (vmu_Origin v) (com_Origin c);
                   row_channel := whichChannel (vmu_Channel v);
                   row_origin := com_Origin c;
                   row_acqtime := com_AcqTime c;
                   row_counter := com_Counter c;
                   row_upi := info; row_sum := sum; row_bad := bad;
                   row_digest := digest |} in
    let w := {| stdout := stdout w ++ [line]; upiBuffer := buf |} in
    Ret (w, (to_int64 (vmu_Size v),
             if is_invalid bad then Some ErrInvalid else None)).

(** The loop of [main], one turn for each buffer the reader hands over
    before [io.EOF], with the digest after it (a read error exits the
    program before the summary).  The three counters are [int64];
    [invalids] is the counter [invalid] of the source. *)
Fixpoint main_loop (w : world) (reads : list (list byte * Z))
    (withErr : bool) (total size invalids : Z) : go (world * (Z * Z * Z)) :=
  match reads with
  | [] => Ret (w, (total, size, invalids))
  | (body, digest) :: reads =>
      '(w, (z, err)) ← dumpPacket w body digest withErr;
      let total := to_int64 (total + 1) in
      let size := to_int64 (size + z) in
      let invalids :=
        match err with
        | None => invalids
        | Some (ErrShort _) | Some ErrInvalid => to_int64 (invalids + 1)
        end in
      main_loop w reads withErr total size invalids
  end.

(** [main], from the first read on: the world at the end and the three
    numbers of the summary line, packets, megabytes and invalid. *)
Definition main (w : world) (reads : list (list byte * Z)) (withErr : bool)
  : go (world * (Z * Z * Z)) :=
  '(w, (total, size, invalids)) ← main_loop w reads withErr 0 0 0;
  Ret (w, (total, Z.shiftr size 20, invalids)).

(** [strconv.AppendInt(buf, n, 10)]: the decimal digits of [n], most
    significant first, after a minus sign when [n] is negative. *)
Fixpoint uint_bytes (d : Decimal.uint) : list byte :=
  match d with
  | Decimal.Nil => []
  | Decimal.D0 d => byte_of 48 :: uint_bytes d
  | Decimal.D1 d => byte_of 49 :: uint_bytes d
  | Decimal.D2 d => byte_of 50 :: uint_bytes d
  | Decimal.D3 d => byte_of 51 :: uint_bytes d
  | Decimal.D4 d => byte_of 52 :: uint_bytes d
  | Decimal.D5 d => byte_of 53 :: uint_bytes d
  | Decimal.D6 d => byte_of 54 :: uint_bytes d
  | Decimal.D7 d => byte_of 55 :: uint_bytes d
  | Decimal.D8 d => byte_of 56 :: uint_bytes d
  | Decimal.D9 d => byte_of 57 :: uint_bytes d
  end.

Definition AppendInt (buf : list byte) (n : Z) : list byte :=
  buf ++ match Z.to_int n with
         | Decimal.Pos d => uint_bytes d
         | Decimal.Neg d => byte_of 45 :: uint_bytes d
         end.

(** As much of a [time.Time] as [timeFormat] reads: what its methods
    [Date], [Hour], [Minute], [Second] and [Nanosecond] return. *)
Record wallTime := {
  t_Date : Z * Z * Z;
  t_Hour : Z;
  t_Minute : Z;
  t_Second : Z;
  t_Nanosecond : Z
}.

Definition millis : Z := 1000 * 1000.

(** Modelled from the spec: the constant [space] is declared outside the
    given sources; it is taken to be the blank that parts the date from
    the time. *)
Definition space : byte := byte_of 32.

Definition timeFormat (t : wallTime) (buf : list byte) : list byte :=
  let '(y, m, d) := t_Date t in
  let buf := AppendInt buf (to_int64 y) in
  let buf := buf ++ [byte_of 45] in
  let buf := if m <? 10 then AppendInt buf 0 else buf in
  let buf := AppendInt buf (to_int64 m) in
  let buf := buf ++ [byte_of 45] in
  let buf := if d <? 10 then AppendInt buf 0 else buf in
  let buf := AppendInt buf (to_int64 d) in
  let buf := buf ++ [space] in
  let buf := if t_Hour t <? 10 then AppendInt buf 0 else buf in
  let buf := AppendInt buf (to_int64 (t_Hour t)) in
  let buf := buf ++ [byte_of 58] in
  let buf := if t_Minute t <? 10 then AppendInt buf 0 else buf in
  let buf := AppendInt buf (to_int64 (t_Minute t)) in
  let buf := buf ++ [byte_of 58] in
  let buf := if t_Second t <? 10 then AppendInt buf 0 else buf in
  let buf := AppendInt buf (to_int64 (t_Second t)) in
  let buf := buf ++ [byte_of 46] in
  let ms := Z.quot (t_Nanosecond t) millis in
  let buf := if ms <? 10 then AppendInt buf 0 else buf in
  let buf := if ms <? 100 then AppendInt buf 0 else buf in
  let buf := AppendInt buf (to_int64 ms) in
  buf.

End Vmudump.

(** ** The vmucat commands: gaps and counts *)

Module Vmucat.

(** As much of [vmu.Packet] (package github.com/busoc/vmu) as the
    commands read: the two headers, with the time each one's method
    returns.  The counters have the widths of the same headers in the
    packet dumper. *)
Record vmuHeader := {
  Size : Z;          (* uint32 *)
  Channel : Z;       (* uint8 *)
  Sequence : Z;      (* uint32 *)
  Timestamp : Time   (* v.Timestamp() *)
}.

Record dataHeader := {
  Origin : Z;         (* uint8 *)
  Counter : Z;        (* uint32 *)
  Acquisition : Time  (* c.Acquisition() *)
}.

Record Packet := {
  VMUHeader : vmuHeader;
  DataHeader : dataHeader
}.

Definition is_uint32 (z : Z) : Prop := 0 <= z < 2 ^ 32.

Definition wf_packet (p : Packet) : Prop :=
  is_uint32 (Sequence (VMUHeader p)) /\ is_uint32 (Counter (DataHeader p)).

(** [meex.Gap]; the fields are those the sources read and write. *)
Module Gap.

Record t := {
  Id : Z;
  Starts : Time;
  Ends : Time;
  Last : Z;
  First : Z
}.

Definition zero : t :=
  {| Id := 0; Starts := 0; Ends := 0; Last := 0; First := 0 |}.

(** Modelled from the spec: the method [Missing] of [meex.Gap] is
    declared outside the given sources; the derived missing count is
    [|after - before| - 1] over the two bracketing sequence values. *)
Definition Missing (g : t) : Z := Z.abs (First g - Last g) - 1.

(** Modelled from the spec: the method [Duration] of [meex.Gap] is
    declared outside the given sources; the derived duration is the
    delta of the two bracketing timestamps. *)
Definition Duration (g : t) : Duration := Sub (Ends g) (Starts g).

End Gap.

(** [meex.Coze]: four [uint64] counters per identifier. *)
Module Coze.

Record t := {
  Id : Z;
  Count : Z;
  Size : Z;
  Missing : Z;
  Error : Z
}.

Definition zero : t :=
  {| Id := 0; Count := 0; Size := 0; Missing := 0; Error := 0 |}.

End Coze.

Definition byChannel (p : Packet) : Z := Channel (VMUHeader p).

Definition byOrigin (p : Packet) : Z := Origin (DataHeader p).

(** [int(x)] of a [uint32] operand. *)
Definition int (x : Z) : Z := to_int64 x.

Definition gapByChannel (p prev : Packet) (duration : Duration)
  : bool * Gap.t :=
  let last := int (Sequence (VMUHeader p)) in
  let first := int (Sequence (VMUHeader prev)) in
  let delta := Sub (Timestamp (VMUHeader p)) (Timestamp (VMUHeader prev)) in
  let diff := to_int64 (last - first) in
  if negb (diff =? 1) && ((duration =? 0) || (delta <=? duration)) then
    (true, {| Gap.Id := 0;
              Gap.Starts := Timestamp (VMUHeader prev);
              Gap.Ends := Timestamp (VMUHeader p);
              Gap.Last := first;
              Gap.First := last |})
  else (false, Gap.zero).

Definition gapByOrigin (p prev : Packet) (duration : Duration)
  : bool * Gap.t :=
  let last := int (Counter (DataHeader p)) in
  let first := int (Counter (DataHeader prev)) in
  let delta :=
    Sub (Acquisition (DataHeader p)) (Acquisition (DataHeader prev)) in
  let diff := to_int64 (last - first) in
  if negb (diff =? 1) && ((duration =? 0) || (delta <=? duration)) then
    (true, {| Gap.Id := 0;
              Gap.Starts := Acquisition (DataHeader prev);
              Gap.Ends := Acquisition (DataHeader p);
              Gap.Last := first;
              Gap.First := last |})
  else (false, Gap.zero).

(** The value of the [-b] flag of [count] once lowered; any other value
    makes [runCount] return before it reads a packet. *)
Inductive grouping := ByChannel | ByOrigin.

Definition selectBy (flag : string) : option grouping :=
  if bool_decide (flag = "channel") || bool_decide (flag = "") then
    Some ByChannel
  else if bool_decide (flag = "origin") then Some ByOrigin
  else None.

Definition getBy (b : grouping) : Packet -> Z :=
  match b with
  | ByChannel => byChannel
  | ByOrigin => byOrigin
  end.

(** The two [missBy] closures of [runCount]: a [uint32] subtraction,
    widened to [uint64], less one. *)
Definition missBy (b : grouping) (p prev : Packet) : Z :=
  match b with
  | ByChannel =>
      if Sequence (VMUHeader p) <? Sequence (VMUHeader prev) then 0
      else wrap 64
             (wrap 32 (Sequence (VMUHeader p) - Sequence (VMUHeader prev)) - 1)
  | ByOrigin =>
      if Counter (DataHeader p) <? Counter (DataHeader prev) then 0
      else wrap 64
             (wrap 32 (Counter (DataHeader p) - Counter (DataHeader prev)) - 1)
  end.

(** The errors [d.Decode] hands back beside a packet. *)
Inductive decodeError := ErrInvalid | ErrSkip | EOF | ErrOther.

Record countState := {
  stats : gmap Z Coze.t;
  seen : gmap Z Packet
}.

(** The arm [case nil, vmu.ErrInvalid] of the loop of [runCount]. *)
Definition count_packet (b : grouping) (keepInvalid : bool) (st : countState)
    (p : Packet) (bad : bool) : countState :=
  let id := getBy b p in
  let cz := default Coze.zero (stats st !! id) in
  let cz := {| Coze.Id := Coze.Id cz;
               Coze.Count := wrap 64 (Coze.Count cz + 1);
               Coze.Size := wrap 64 (Coze.Size cz + Size (VMUHeader p));
               Coze.Missing := Coze.Missing cz;
               Coze.Error := Coze.Error cz |} in
  let cz := if bad
            then {| Coze.Id := Coze.Id cz; Coze.Count := Coze.Count cz;
                    Coze.Size := Coze.Size cz;
                    Coze.Missing := Coze.Missing cz;
                    Coze.Error := wrap 64 (Coze.Error cz + 1) |}
            else cz in
  if bad && negb keepInvalid then st   (* continue *)
  else
    let cz := match seen st !! id with
              | Some prev =>
                  {| Coze.Id := Coze.Id cz; Coze.Count := Coze.Count cz;
                     Coze.Size := Coze.Size cz;
                     Coze.Missing :=
                       wrap 64 (Coze.Missing cz + missBy b p prev);
                     Coze.Error := Coze.Error cz |}
              | None => cz
              end in
    {| stats := <[id := cz]> (stats st); seen := <[id := p]> (seen st) |}.

(** The loop of [runCount] over what the decoder hands back, call after
    call: the statistics to print at [io.EOF], or the error returned. *)
Fixpoint runCount_loop (b : grouping) (keepInvalid : bool) (st : countState)
    (input : list (Packet * option decodeError))
  : countState * option decodeError :=
  match input with
  | [] => (st, None)
  | (p, err) :: input =>
      match err with
      | None => runCount_loop b keepInvalid
                  (count_packet b keepInvalid st p false) input
      | Some ErrInvalid => runCount_loop b keepInvalid
                             (count_packet b keepInvalid st p true) input
      | Some ErrSkip => runCount_loop b keepInvalid st input
      | Some EOF => (st, None)
      | Some ErrOther => (st, Some ErrOther)
      end
  end.

(** The detector [runDiff] picks with its [-b] flag. *)
Definition gapBy (b : grouping)
  : Packet -> Packet -> Duration -> bool * Gap.t :=
  match b with
  | ByChannel => gapByChannel
  | ByOrigin => gapByOrigin
  end.

(** The loop of [runDiff] over what the decoder hands back: the lines
    written, each made of the packet and of the gap before it, and the
    error returned. *)
Fixpoint runDiff_loop (b : grouping) (keepInvalid : bool)
    (duration : Duration) (seen : gmap Z Packet)
    (input : list (Packet * option decodeError))
  : list (Packet * Gap.t) * option decodeError :=
  match input with
  | [] => ([], None)
  | (p, err) :: input =>
      let kept :=
        let id := getBy b p in
        let line :=
          match seen !! id with
          | Some prev =>
              let '(ok, g) := gapBy b p prev duration in
              if ok then [(p, g)] else []
          | None => []
          end in
        let '(lines, e) := runDiff_loop b keepInvalid duration
                             (<[id := p]> seen) input in
        (line ++ lines, e) in
      match err with
      | None => kept
      | Some ErrInvalid =>
          if negb keepInvalid
          then runDiff_loop b keepInvalid duration seen input  (* continue *)
          else kept
      | Some ErrSkip => runDiff_loop b keepInvalid duration seen input
      | Some EOF => ([], None)
      | Some ErrOther => ([], Some ErrOther)
      end
  end.

(** The counters of [runList] and the packets it has seen, by channel. *)
Record listState := {
  list_i : Z;
  list_invalid : Z;
  list_size : Z;
  list_missing : Z;
  list_skipped : Z;
  list_seen : gmap Z Packet
}.

(** The numbers of the line [runList] logs at [io.EOF]. *)
Definition runList_log (st : listState) : Z * Z * Z * Z * Z :=
  (list_i st, Z.shiftr (list_size st) 20, list_invalid st,
   list_missing st, list_skipped st).

Section RunList.

(** Modelled from the spec: the method [Missing] of [vmu.Packet] is
    declared outside the given sources; it gives a [uint32]. *)
Variable Missing : Packet -> Packet -> Z.

(** The loop of [runList] over what the decoder hands back: the calls of
    [dumpPacket] it makes, each with the packet, the number missing
    before it and whether it is valid; the counters at the end; and the
    error returned.  Every turn ends with [i++], the turns left with
    [continue] too. *)
Fixpoint runList_loop (keepInvalid : bool) (st : listState)
    (input : list (Packet * option decodeError))
  : list (Packet * Z * bool) * listState * option decodeError :=
  match input with
  | [] => ([], st, None)
  | (p, err) :: input =>
      let packet (isInvalid : bool) :=
        let invalid :=
          if isInvalid then to_int64 (list_invalid st + 1)
          else list_invalid st in
        if isInvalid && negb keepInvalid then
          runList_loop keepInvalid
            {| list_i := to_int64 (list_i st + 1);
               list_invalid := invalid;
               list_size := list_size st;
               list_missing := list_missing st;
               list_skipped := list_skipped st;
               list_seen := list_seen st |} input
        else
          let '(diff, missing) :=
            match list_seen st !! Channel (VMUHeader p) with
            | Some prev =>
                let diff := Missing p prev in
                (diff, to_int64 (list_missing st + int diff))
            | None => (0, list_missing st)
            end in
          let '(lines, st', e) :=
            runList_loop keepInvalid
              {| list_i := to_int64 (list_i st + 1);
                 list_invalid := invalid;
                 list_size :=
                   to_int64 (list_size st + int (Size (VMUHeader p)));
                 list_missing := missing;
                 list_skipped := list_skipped st;
                 list_seen := <[Channel (VMUHeader p) := p]> (list_seen st) |}
              input in
          ((p, diff, negb isInvalid) :: lines, st', e) in
      match err with
      | None => packet false
      | Some ErrInvalid => packet true
      | Some ErrSkip =>
          runList_loop keepInvalid
            {| list_i := to_int64 (to_int64 (list_i st - 1) + 1);
               list_invalid := list_invalid st;
               list_size := list_size st;
               list_missing := list_missing st;
               list_skipped := to_int64 (list_skipped st + 1);
               list_seen := list_seen st |} input
      | Some EOF => ([], st, None)
      | Some ErrOther => ([], st, Some ErrOther)
      end
  end.

End RunList.

End Vmucat.

(** ** The archive walker *)

Module Walker.

(** An error of the operating system (a failed lstat, readdir or open). *)
Inductive ioError := IOError (msg : string).

(** [sort.Strings]: the byte-wise order of Go strings. *)
Definition string_le (a b : string) : Prop := String.leb a b = true.

#[global] Instance string_le_dec : RelDecision string_le :=
  fun a b => decide (String.leb a b = true).

Definition sortStrings (paths : list string) : list string :=
  merge_sort string_le paths.

Section Walk.

Context {Packet Decoder : Type}.

(** What reading one frame of an open file comes to: a packet, or a
    frame that cannot be read or decoded. *)
Inductive frame :=
| Good (p : Packet)
| Corrupt.

(** Modelled from the spec: [NewReader(r, d).Packets()] is declared
    outside the given sources; a decode error does not go past the file
    being read, and a corrupt file truncates that file's contribution:
    the reader's channel hands over the packets decoded before the first
    frame that fails, then closes. *)
Fixpoint Packets (frames : list frame) : list Packet :=
  match frames with
  | Good p :: frames => p :: Packets frames
  | _ => []
  end.

(** What [filepath.Walk] finds at a path: nothing it can lstat, a file
    (that opens or not), or a directory (that lists or not) with its
    entries in lexical order. *)
#[local] Unset Elimination Schemes.
Inductive node :=
| NoEntry (e : ioError)
| File (opened : ioError + list frame)
| Dir (entries : ioError + list node).
#[local] Set Elimination Schemes.

(** The callback [walk] gives [filepath.Walk], applied to one node and
    then, for a directory, to its entries in order until one returns an
    error; [q] is what has been sent on the channel so far. *)
Fixpoint visit (n : node) (q : list Packet) : list Packet * option ioError :=
  match n with
  | NoEntry e => (q, Some e)
  | File (inl e) => (q, Some e)
  | File (inr frames) => (q ++ Packets frames, None)
  | Dir (inl e) => (q, Some e)
  | Dir (inr entries) =>
      (fix each (ns : list node) (q : list Packet) :=
         match ns with
         | [] => (q, None)
         | n :: ns =>
             match visit n q with
             | (q, Some e) => (q, Some e)
             | (q, None) => each ns q
             end
         end) entries q
  end.

Variable fs : string -> node.

Definition walk (p : string) (q : list Packet)
  : list Packet * option ioError :=
  visit (fs p) q.

(** The loop of the goroutine of [Walk]: it returns, closing the
    channel, at the first path whose walk returns an error. *)
Fixpoint walk_paths (paths : list string) (q : list Packet) : list Packet :=
  match paths with
  | [] => q
  | p :: paths =>
      match walk p q with
      | (q, Some _) => q
      | (q, None) => walk_paths paths q
      end
  end.

(** [Walk]: everything received from the channel it returns, up to its
    close. *)
Definition Walk (paths : list string) (d : option Decoder) : list Packet :=
  match d with
  | None => []
  | Some _ => walk_paths (sortStrings paths) []
  end.

(** What the goroutine of [Walk] does to the channel [q]: a packet sent,
    or the channel closed. *)
Inductive chanOp :=
| Send (p : Packet)
| Close.

(** The goroutine of [Walk]: its sends, in order, then the [close(q)]
    that [defer] runs whichever way it returns. *)
Definition Walk_goroutine (paths : list string) (d : option Decoder)
  : list chanOp :=
  match d with
  | None => []
  | Some _ => map Send (walk_paths (sortStrings paths) [])
  end ++ [Close].

End Walk.

Arguments frame : clear implicits.
Arguments node : clear implicits.
Arguments chanOp : clear implicits.

End Walker.

(** ** The REST server: the time range of a request *)

Module Distrib.

Definition InvalidRequestError : Type := string.

Definition MaxInterval : Duration := Hour * 24.

(** Modelled from the spec: the constant [Five] is declared outside the
    given sources; both bounds are snapped to 5-minute boundaries. *)
Definition Five : Duration := 5 * Minute.

(** The two query parameters, as [q.Get] returns them: the empty string
    when the parameter is not there. *)
Record request := {
  dtstart : string;
  dtend : string
}.

Section TimeRange.

(** [time.Parse(time.RFC3339, s)]: [None] when it returns an error. *)
Variable Parse : string -> option Time.

(** The Time and the error [time.Parse] returns: on an error the Time is
    the zero Time. *)
Definition parse (s : string) : Time * bool :=
  match Parse s with
  | Some t => (t, false)
  | None => (0, true)
  end.

(** [timeRange(r, delta)], with [now] what [time.Now()] returns. *)
Definition timeRange (r : request) (now : Time) (delta : Duration)
  : Time * Time * option InvalidRequestError :=
  let '(fd, err) := parse (dtstart r) in
  if bool_decide (dtstart r <> "") && err then
    (fd, 0, Some "bad format dtstart query parameter")
  else
  let '(td, err) := parse (dtend r) in
  if bool_decide (dtend r <> "") && err then
    (fd, td, Some "bad format dtend query parameter")
  else
  let '(fd, td) :=
    if IsZero fd && IsZero td
    then (Add now (Hour * -24), now)
    else (fd, td) in
  if IsZero fd || IsZero td then
    (fd, td, Some "both dtstart and dtend should be provided")
  else if Before td fd || ((0 <? delta) && (delta <? Sub td fd)) then
    (fd, td, Some "invalid interval")
  else
    (Truncate fd Five, Truncate (Add td Five) Five, None).

(** The first statement of each handler. *)
Definition handleStatus_range (r : request) (now : Time) :=
  timeRange r now MaxInterval.

Definition handleGaps_range (r : request) (now : Time) :=
  timeRange r now MaxInterval.

Definition handleList_range (r : request) (now : Time) :=
  timeRange r now 0.

Definition handleDownloads_range (r : request) (now : Time) :=
  timeRange r now 0.

End TimeRange.

(** The loop of [handleList] over the window [timeRange] returned: the
    bounds [(f, t)] of the spans it is cut into, each listed and walked
    by a goroutine of its own. *)
Fixpoint handleList_spans (fuel : nat) (fd td : Time)
  : go (list (Time * Time)) :=
  match fuel with
  | O => OutOfFuel
  | S fuel =>
      if Before fd td then
        let '(f, t) := (fd, Add fd (Hour * 4)) in
        rest ← handleList_spans fuel t td;
        mret ((f, t) :: rest)
      else mret []
  end.

End Distrib.

(** ** The take and mix commands *)

Module Take.

(** The error [Read] returns: [io.EOF], or what [Err] of a scanner
    gives. *)
Inductive readError (error : Type) :=
| EOF
| ScanError (e : error).
Arguments EOF {error}.
Arguments ScanError {error} e.

Section MixReaders.

(** Modelled from the spec: the interface [Scanner] is declared outside
    the given sources.  [Read] calls three of its methods.  A scanner is
    kept as its state: [Scan] gives its answer and the state it leaves,
    [Bytes] and [Err] read the state.  The scanners of one reader are
    taken to be distinct objects. *)
Context {Scanner error : Type}.
Variable Scan : Scanner -> bool * Scanner.
Variable Bytes : Scanner -> list byte.
Variable Err : Scanner -> option error.

(** [m.Read(bs)], with [r] what [rand.Intn(len(m.rs))] returns: the
    scanners and the buffer after the call, and the two results. *)
Definition Read (rs : list Scanner) (r : Z) (bs : list byte)
  : go (list Scanner * list byte * Z * option (readError error)) :=
  if Z.of_nat (length rs) <=? 0 then Panic
  else
    let ix := r in
    s ← index rs ix;
    let '(ok, s) := Scan s in
    let rs := <[Z.to_nat ix := s]> rs in
    let deliver (rs : list Scanner) (ix : Z) :=
      s ← index rs ix;
      mret (rs, copy bs (Bytes s),
            Z.min (Z.of_nat (length bs)) (Z.of_nat (length (Bytes s))),
            ScanError <$> Err s) in
    if negb ok then
      if 1 <? Z.of_nat (length rs) then
        front ← slice rs 0 ix;
        back ← slice_from rs (ix + 1);
        let rs := front ++ back in
        let ix := Z.rem (ix + 1) (Z.of_nat (length rs)) in
        deliver rs ix
      else mret (rs, bs, 0, Some EOF)
    else deliver rs ix.

End MixReaders.

(** What [SplitWriter] and [Close] do to the numbered files, in order:
    a file created, closed or removed; a file is named by the number
    its name ends with. *)
Inductive event :=
| EvCreate (k : Z)
| EvClose (k : Z)
| EvRemove (k : Z).

Section SplitWriters.

Context {error : Type}.

(** What the operating system answers: to [os.MkdirAll], an error and
    whether [os.IsExist] holds of it; to [os.Create] of the file of a
    number; to [Close] of the file of a number.  [empty] is the error
    [fmt.Errorf] makes of the empty string. *)
Variable mkdirAll : option (error * bool).
Variable create : Z -> option error.
Variable close : Z -> option error.
Variable empty : error.

(** The inner loop of [SplitWriter]: [ws[j].Close()] and [os.Remove] for
    [j] up to [i]; closing a nil writer panics. *)
Fixpoint cleanup (k : nat) (j : Z) (ws : list (option Z))
  : go (list event) :=
  match k with
  | O => mret []
  | S k =>
      w ← index ws j;
      match w with
      | None => Panic
      | Some w =>
          rest ← cleanup k (j + 1) ws;
          mret (EvClose w :: EvRemove (j + 1) :: rest)
      end
  end.

(** The outer loop of [SplitWriter], [k] turns from [i] on. *)
Fixpoint create_loop (k : nat) (i : Z) (ws : list (option Z))
  : go (list event * (error + list (option Z))) :=
  match k with
  | O => mret ([], inr ws)
  | S k =>
      match create (i + 1) with
      | Some err =>
          evs ← cleanup (Z.to_nat i) 0 ws;
          mret (evs, inl err)
      | None =>
          if (i <? 0) || (Z.of_nat (length ws) <=? i) then Panic
          else
            '(evs, res) ← create_loop k (i + 1) (<[Z.to_nat i := Some (i + 1)]> ws);
            mret (EvCreate (i + 1) :: evs, res)
      end
  end.

(** [SplitWriter(file, n)]: what it does to the files, and the error or
    the writers it returns. *)
Definition SplitWriter (n : Z)
  : go (list event * (error + list (option Z))) :=
  if n <? 2 then mret ([], inl empty)
  else
    match mkdirAll with
    | Some (err, false) => mret ([], inl err)
    | _ =>
        create_loop (Z.to_nat n) 0 (replicate (Z.to_nat n) None)
    end.

(** [sw.Close()]: the loop over the writers, [err] the error kept so
    far. *)
Fixpoint Close_loop (writers : list (option Z)) (err : option error)
  : go (list event * option error) :=
  match writers with
  | [] => mret ([], err)
  | None :: _ => Panic
  | Some s :: writers =>
      let e := close s in
      let err :=
        match err, e with
        | None, Some _ => e
        | _, _ => err
        end in
      '(evs, err) ← Close_loop writers err;
      mret (EvClose s :: evs, err)
  end.

Definition Close (writers : list (option Z)) : go (list event * option error) :=
  Close_loop writers None.

End SplitWriters.

End Take.

(** ** The orders of the index sorts *)

Module Sorting.

(** Modelled from the spec: the type [Index] is declared outside the
    given sources.  The comparators read four of its fields: the time
    stamp, a [time.Time], and the identifier, the size and the sequence
    number, compared with [<] and [!=] and taken here as integers. *)
Record Index := {
  Timestamp : Time;
  Id : Z;
  Size : Z;
  Sequence : Z
}.

(** [t.Equal(u)] *)
Definition Equal (t u : Time) : bool := t =? u.

(** The [less] function [SortHRDIndex] gives [sort.Slice], on the
    elements at the two positions. *)
Definition SortHRDIndex_less (a b : Index) : bool :=
  if Equal (Timestamp a) (Timestamp b) then
    if negb (Id a =? Id b) then Size a <? Size b
    else Sequence a <? Sequence b
  else Before (Timestamp a) (Timestamp b).

(** The [less] function [SortTMIndex] gives [sort.Slice]. *)
Definition SortTMIndex_less (a b : Index) : bool :=
  if Equal (Timestamp a) (Timestamp b) then Sequence a <? Sequence b
  else Before (Timestamp a) (Timestamp b).

End Sorting.

(** * Reference definitions

    What the properties below are stated with. *)

(** Linear arithmetic with division and remainder by a literal. *)
Ltac modlia := Z.div_mod_to_equations; lia.

(** The sum of the unsigned values of the bytes of [l]. *)
Definition byte_sum (l : list byte) : Z := Zsum (map u8 l).

(** The sum of the first [i] bytes of [body]. *)
Definition prefix_sum (body : list byte) (i : Z) : Z :=
  byte_sum (take (Z.to_nat i) body).

(** The number a run of bytes holds, least significant byte first. *)
Definition le_value (l : list byte) : Z :=
  foldr (fun b acc => u8 b + 256 * acc) 0 l.

(** The number a run of bytes holds, most significant byte first. *)
Definition be_value (l : list byte) : Z := le_value (reverse l).

(** A byte [userInfo] keeps: a letter, a digit, '-' or '_'. *)
Definition allowed (b : byte) : bool :=
  Vmudump.IsLetter (u8 b) || Vmudump.IsDigit (u8 b)
  || (u8 b =? 45) || (u8 b =? 95).

(** The longest prefix of [l] made of allowed bytes only. *)
Fixpoint keep_prefix (l : list byte) : list byte :=
  match l with
  | b :: l => if allowed b then b :: keep_prefix l else []
  | [] => []
  end.

(** Byte [i] of the UPI array for a property class: the byte of the
    slice at offset 24 (science) or 44 (image) plus [i], zero when the
    slice ends before it, and zero for any other class. *)
Definition upi_byte (body : list byte) (class : Z) (i : nat) : byte :=
  if class =? 1 then default Byte.x00 (body !! (24 + i)%nat)
  else if class =? 2 then default Byte.x00 (body !! (44 + i)%nat)
  else Byte.x00.

(** The rule of the gap detector, for the sequence values [curr] and
    [before] of the current and the previous packet, the time [elapsed]
    between them, the maximum gap duration [d], and what the detector
    returns: whether there is a gap, and the gap. *)
Definition gap_rule (curr before : Z) (elapsed d : Duration)
    (res : bool * Vmucat.Gap.t) : Prop :=
  (fst res = true <-> curr - before <> 1 /\ (d = 0 \/ elapsed <= d))
  /\ (fst res = true ->
      Vmucat.Gap.Missing (snd res) = Z.abs (curr - before) - 1)
  /\ (curr - before = 1 -> fst res = false)
  /\ (curr - before <> 1 -> 0 < d -> d < elapsed -> fst res = false).

(** The counter [count] compares under a grouping: the VMU sequence by
    channel, the data counter by origin. *)
Definition counter_of (b : Vmucat.grouping) (p : Vmucat.Packet) : Z :=
  match b with
  | Vmucat.ByChannel => Vmucat.Sequence (Vmucat.VMUHeader p)
  | Vmucat.ByOrigin => Vmucat.Counter (Vmucat.DataHeader p)
  end.

(** The time [diff] compares under a grouping: the time stamp of the VMU
    header by channel, the acquisition time by origin. *)
Definition time_of (b : Vmucat.grouping) (p : Vmucat.Packet) : Time :=
  match b with
  | Vmucat.ByChannel => Vmucat.Timestamp (Vmucat.VMUHeader p)
  | Vmucat.ByOrigin => Vmucat.Acquisition (Vmucat.DataHeader p)
  end.

(** The packets 11 and 13 of identifier 7, one second apart. *)
Definition packet_11 : Vmucat.Packet :=
  {| Vmucat.VMUHeader :=
       {| Vmucat.Size := 100; Vmucat.Channel := 7; Vmucat.Sequence := 11;
          Vmucat.Timestamp := 5 * Second |};
     Vmucat.DataHeader :=
       {| Vmucat.Origin := 7; Vmucat.Counter := 11;
          Vmucat.Acquisition := 5 * Second |} |}.

Definition packet_13 : Vmucat.Packet :=
  {| Vmucat.VMUHeader :=
       {| Vmucat.Size := 100; Vmucat.Channel := 7; Vmucat.Sequence := 13;
          Vmucat.Timestamp := 6 * Second |};
     Vmucat.DataHeader :=
       {| Vmucat.Origin := 7; Vmucat.Counter := 13;
          Vmucat.Acquisition := 6 * Second |} |}.

(** The files under a node, in the order the walk meets them: what the
    reader of each hands over, or the I/O error met in its place. *)
Fixpoint leaves {Packet : Type} (n : Walker.node Packet)
  : list (Walker.ioError + list Packet) :=
  match n with
  | Walker.NoEntry e => [inl e]
  | Walker.File (inl e) => [inl e]
  | Walker.File (inr frames) => [inr (Walker.Packets frames)]
  | Walker.Dir (inl e) => [inl e]
  | Walker.Dir (inr entries) => concat (map leaves entries)
  end.

(** The packets of the files met before the first I/O error. *)
Fixpoint until_error {Packet : Type}
    (met : list (Walker.ioError + list Packet)) : list Packet :=
  match met with
  | inr ps :: met => ps ++ until_error met
  | _ => []
  end.

(** The first I/O error met, if any. *)
Fixpoint first_error {Packet : Type}
    (met : list (Walker.ioError + list Packet)) : option Walker.ioError :=
  match met with
  | inr _ :: met => first_error met
  | inl e :: _ => Some e
  | [] => None
  end.

(** A small archive: "a" cannot be opened; "b" is a file of two good
    frames around a corrupt one; "c" is a directory of two files; "d" is
    a directory whose second entry cannot be listed. *)
Definition walk_fs (p : string) : Walker.node nat :=
  if bool_decide (p = "a") then Walker.File (inl (Walker.IOError "open"))
  else if bool_decide (p = "b") then
    Walker.File (inr [Walker.Good 1%nat; Walker.Corrupt; Walker.Good 9%nat])
  else if bool_decide (p = "c") then
    Walker.Dir (inr [Walker.File (inr [Walker.Good 2%nat]);
                     Walker.File (inr [Walker.Good 3%nat])])
  else
    Walker.Dir (inr [Walker.File (inr [Walker.Good 4%nat]);
                     Walker.Dir (inl (Walker.IOError "readdir"));
                     Walker.File (inr [Walker.Good 5%nat])]).

(** A query parameter that is there and is not RFC3339. *)
Definition bad_format (Parse : string -> option Time) (s : string) : Prop :=
  s <> "" /\ Parse s = None.

(** The bound a query parameter gives: the time it parses to, and the
    zero Time when it does not parse. *)
Definition bound (Parse : string -> option Time) (s : string) : Time :=
  default 0 (Parse s).

(** The window of a request before it is snapped: the last 24 hours when
    neither bound is there, the two bounds otherwise. *)
Definition window (Parse : string -> option Time) (r : Distrib.request)
    (now : Time) : Time * Time :=
  if bool_decide (bound Parse (Distrib.dtstart r) = 0
                  /\ bound Parse (Distrib.dtend r) = 0)
  then (now - Hour * 24, now)
  else (bound Parse (Distrib.dtstart r), bound Parse (Distrib.dtend r)).

(** Three strings as [time.Parse(time.RFC3339, s)] reads them, in
    nanoseconds since the zero Time; any other string is taken not to
    parse. *)
Definition rfc3339_sample (s : string) : option Time :=
  if bool_decide (s = "0001-01-01T00:00:00Z") then Some 0
  else if bool_decide (s = "2019-03-14T10:00:00Z")
  then Some (63688154400 * Second)
  else if bool_decide (s = "2019-03-14T10:15:00Z")
  then Some (63688155300 * Second)
  else None.

(** A reading of the clock: 2019-03-14 10:15:07 UTC. *)
Definition sample_now : Time := 63688155307 * Second.

(** A scanner over tokens held in memory: the tokens still to scan and
    the token scanned last; it never fails. *)
Definition tokens : Type := list (list byte) * list byte.

Definition tokens_Scan (s : tokens) : bool * tokens :=
  match s.1 with
  | t :: ts => (true, (ts, t))
  | [] => (false, ([], []))
  end.

Definition tokens_Bytes (s : tokens) : list byte := s.2.

Definition tokens_Err (s : tokens) : option unit := None.

(** The files numbered from 1 to [n]. *)
Definition files (n : Z) : list Z := seqZ 1 n.

(** The events of closing and removing the files [l], one after the
    other. *)
Definition undo (l : list Z) : list Take.event :=
  flat_map (fun m => [Take.EvClose m; Take.EvRemove m]) l.

(** What the decoder handed back before the end of the stream or the
    error that ends the command. *)
Fixpoint decoded (input : list (Vmucat.Packet * option Vmucat.decodeError))
  : list (Vmucat.Packet * option Vmucat.decodeError) :=
  match input with
  | [] => []
  | (_, Some Vmucat.EOF) :: _ => []
  | (_, Some Vmucat.ErrOther) :: _ => []
  | x :: input => x :: decoded input
  end.

#[global] Instance decodeError_eq_dec : EqDecision Vmucat.decodeError.
Proof. solve_decision. Defined.

(** How many of these results carry the error [err]. *)
Definition count_of (err : Vmucat.decodeError)
    (input : list (Vmucat.Packet * option Vmucat.decodeError)) : Z :=
  Z.of_nat (length (filter (fun x => x.2 = Some err) (decoded input))).

(** The counters of a state of [runList] are [int] values. *)
Definition list_ok (st : Vmucat.listState) : Prop :=
  to_int64 (Vmucat.list_i st) = Vmucat.list_i st
  /\ to_int64 (Vmucat.list_invalid st) = Vmucat.list_invalid st
  /\ to_int64 (Vmucat.list_size st) = Vmucat.list_size st
  /\ to_int64 (Vmucat.list_skipped st) = Vmucat.list_skipped st.

(** [runList] before its first packet. *)
Definition list_start : Vmucat.listState :=
  {| Vmucat.list_i := 0; Vmucat.list_invalid := 0; Vmucat.list_size := 0;
     Vmucat.list_missing := 0; Vmucat.list_skipped := 0;
     Vmucat.list_seen := ∅ |}.

(** The number [v] written with [n] decimal digits, zeros in front. *)
Fixpoint fixed (n : nat) (v : Z) : list byte :=
  match n with
  | O => []
  | S n => fixed n (v / 10) ++ [byte_of (Z.to_N (48 + v mod 10))]
  end.

(** The number of spans of four hours it takes to reach [td] from [fd]. *)
Definition span_count (fd td : Time) : nat :=
  Z.to_nat ((td - fd + Hour * 4 - 1) / (Hour * 4)).

(** [n] spans of four hours in a row from [fd]. *)
Definition spans_of (fd : Time) (n : nat) : list (Time * Time) :=
  map (fun k : nat => (fd + Z.of_nat k * (Hour * 4),
                       fd + (Z.of_nat k + 1) * (Hour * 4)))
      (seq 0 n).

(** The size a packet declares: the little-endian [uint32] at offset 4
    of its VMU header, offset 22 of the packet. *)
Definition declared_size (body : list byte) : Z :=
  le_value (take 4 (drop 22 body)).

(** A packet of 70 bytes: 18 zero bytes of HRDL header; a VMU header
    declaring 36 bytes, channel 1, origin 51, sequence 11; a common
    header of the science class whose bytes 20 to 23 hold the sum, 79;
    and the UPI "AB". *)
Definition sample_packet : list byte :=
  map byte_of
    (repeat 0 18
     ++ [0; 0; 0; 0; 36; 0; 0; 0; 1; 51; 0; 0; 11; 0; 0; 0;
         0; 0; 0; 0; 0; 0; 0; 0]
     ++ [16] ++ repeat 0 19 ++ [79; 0; 0; 0]
     ++ [65; 66; 0; 0])%N.

(** The packets [count] and [diff] take into account, each with
    whether it is invalid: those decoded before the end of the stream or
    an error, less the skipped ones and, unless invalid packets are
    kept, less the invalid ones. *)
Fixpoint counted (keepInvalid : bool)
    (input : list (Vmucat.Packet * option Vmucat.decodeError))
  : list (Vmucat.Packet * bool) :=
  match input with
  | [] => []
  | (p, None) :: input => (p, false) :: counted keepInvalid input
  | (p, Some Vmucat.ErrInvalid) :: input =>
      if keepInvalid then (p, true) :: counted keepInvalid input
      else counted keepInvalid input
  | (_, Some Vmucat.ErrSkip) :: input => counted keepInvalid input
  | (_, Some Vmucat.EOF) :: _ => []
  | (_, Some Vmucat.ErrOther) :: _ => []
  end.

(** The packets of one group among those, in order. *)
Definition of_group (b : Vmucat.grouping) (id : Z)
    (l : list (Vmucat.Packet * bool)) : list (Vmucat.Packet * bool) :=
  filter (fun x => Vmucat.getBy b x.1 = id) l.

(** What is missing along the packets of one group: for each one after
    the first, what [missBy] gives against the one before. *)
Fixpoint miss_sum (b : Vmucat.grouping) (prev : option Vmucat.Packet)
    (ps : list (Vmucat.Packet * bool)) : Z :=
  match ps with
  | [] => 0
  | (p, _) :: ps =>
      match prev with
      | Some q => Vmucat.missBy b p q
      | None => 0
      end + miss_sum b (Some p) ps
  end.

(** The totals of one group: the record [cz] and the packet [prev] it
    was last updated with, taken over the further packets [ps]. *)
Definition tally (b : Vmucat.grouping) (cz : Vmucat.Coze.t)
    (prev : option Vmucat.Packet) (ps : list (Vmucat.Packet * bool))
  : Vmucat.Coze.t :=
  {| Vmucat.Coze.Id := Vmucat.Coze.Id cz;
     Vmucat.Coze.Count := wrap 64 (Vmucat.Coze.Count cz + Z.of_nat (length ps));
     Vmucat.Coze.Size :=
       wrap 64 (Vmucat.Coze.Size cz
                + Zsum (map (fun x => Vmucat.Size (Vmucat.VMUHeader x.1)) ps));
     Vmucat.Coze.Missing :=
       wrap 64 (Vmucat.Coze.Missing cz + miss_sum b prev ps);
     Vmucat.Coze.Error :=
       wrap 64 (Vmucat.Coze.Error cz
                + Z.of_nat (length (filter (fun x => x.2 = true) ps))) |}.

(** The last of the packets [earlier] that belongs to a group. *)
Definition last_of_group (b : Vmucat.grouping) (id : Z)
    (earlier : list Vmucat.Packet) : option Vmucat.Packet :=
  last (filter (fun q => Vmucat.getBy b q = id) earlier).

(** The lines [diff] owes for the packets [ps] that come after the
    packets [earlier]: for each packet, the gap to the last earlier
    packet of its group, when the detector reports one. *)
Fixpoint gaps_from (b : Vmucat.grouping) (d : Duration)
    (earlier ps : list Vmucat.Packet) : list (Vmucat.Packet * Vmucat.Gap.t) :=
  match ps with
  | [] => []
  | p :: ps =>
      match last_of_group b (Vmucat.getBy b p) earlier with
      | Some prev =>
          let '(ok, g) := Vmucat.gapBy b p prev d in
          if ok then [(p, g)] else []
      | None => []
      end ++ gaps_from b d (earlier ++ [p]) ps
  end.

(** Four counters that fit [uint64]. *)
Definition wf_coze (cz : Vmucat.Coze.t) : Prop :=
  0 <= Vmucat.Coze.Count cz < 2 ^ 64 /\ 0 <= Vmucat.Coze.Size cz < 2 ^ 64
  /\ 0 <= Vmucat.Coze.Missing cz < 2 ^ 64
  /\ 0 <= Vmucat.Coze.Error cz < 2 ^ 64.

(** Statistics all of whose counters fit [uint64]. *)
Definition wf_stats (st : Vmucat.countState) : Prop :=
  forall id cz, Vmucat.stats st !! id = Some cz -> wf_coze cz.

(** Packets of one group whose counters follow one another. *)
Definition consecutive (b : Vmucat.grouping)
    (ps : list (Vmucat.Packet * bool)) : Prop :=
  forall (i : nat) x y,
    ps !! i = Some x -> ps !! S i = Some y ->
    counter_of b y.1 = counter_of b x.1 + 1.

(** * Properties *)

(** ** Run-time helpers *)

Section GoRtFacts.

Lemma u8_range (b : byte) : 0 <= u8 b < 256.
Proof.
  unfold u8. pose proof (Byte.to_N_bounded b). lia.
Qed.

Lemma index_Ret {A} (s : list A) (i : Z) (x : A) :
  0 <= i -> s !! Z.to_nat i = Some x -> index s i = Ret x.
Proof.
  intros Hi Hx. unfold index.
  destruct (Z.ltb_spec i 0) as [?|_]; [lia|]. by rewrite Hx.
Qed.

Lemma index_drop {A} (s : list A) (i k : Z) (x : A) :
  0 <= i -> 0 <= k ->
  drop (Z.to_nat i) s !! Z.to_nat k = Some x -> index s (i + k) = Ret x.
Proof.
  intros Hi Hk Hx. apply index_Ret; [lia|].
  rewrite lookup_drop in Hx. by rewrite Z2Nat.inj_add.
Qed.

Lemma index_Panic {A} (s : list A) (i : Z) :
  Z.of_nat (length s) <= i -> index s i = Panic.
Proof.
  intros Hi. unfold index.
  destruct (Z.ltb_spec i 0) as [?|_]; [done|].
  rewrite (lookup_ge_None_2 s (Z.to_nat i)); [done|lia].
Qed.

Lemma slice_from_Ret {A} (s : list A) (a : Z) :
  0 <= a <= Z.of_nat (length s) ->
  slice_from s a = Ret (drop (Z.to_nat a) s).
Proof.
  intros Ha. unfold slice_from.
  destruct (Z.ltb_spec a 0); [lia|].
  destruct (Z.ltb_spec (Z.of_nat (length s)) a); [lia|done].
Qed.

Lemma slice_Ret {A} (s : list A) (a b : Z) :
  0 <= a <= b -> b <= Z.of_nat (length s) ->
  slice s a b = Ret (take (Z.to_nat (b - a)) (drop (Z.to_nat a) s)).
Proof.
  intros Ha Hb. unfold slice.
  destruct (Z.ltb_spec a 0); [lia|].
  destruct (Z.ltb_spec b a); [lia|].
  destruct (Z.ltb_spec (Z.of_nat (length s)) b); [lia|done].
Qed.

Lemma add32_wrap_l (a b : Z) : add32 (wrap 32 a) b = wrap 32 (a + b).
Proof. unfold add32, wrap. apply Zplus_mod_idemp_l. Qed.

Lemma add32_wrap_r (a b : Z) : add32 a (wrap 32 b) = wrap 32 (a + b).
Proof. unfold add32, wrap. apply Zplus_mod_idemp_r. Qed.

Lemma wrap_range (bits z : Z) : 0 <= bits -> 0 <= wrap bits z < 2 ^ bits.
Proof. intros Hb. unfold wrap. apply Z.mod_pos_bound. by apply Z.pow_pos_nonneg. Qed.

Lemma wrap_small (bits z : Z) : 0 <= z < 2 ^ bits -> wrap bits z = z.
Proof. intros Hz. unfold wrap. by apply Z.mod_small. Qed.

End GoRtFacts.

(** ** Little-endian readers *)

Section Endian.

Lemma lor_shiftl_add (x y n : Z) :
  0 <= n -> 0 <= x < 2 ^ n -> Z.lor x (Z.shiftl y n) = x + y * 2 ^ n.
Proof.
  intros Hn Hx. rewrite Z.shiftl_mul_pow2 by done.
  assert (Hland : Z.land x (y * 2 ^ n) = 0).
  { apply Z.bits_inj'. intros m Hm.
    rewrite Z.land_spec, Z.bits_0.
    destruct (Z.lt_ge_cases m n) as [Hlt|Hge].
    - rewrite Z.mul_pow2_bits_low by done. apply andb_false_r.
    - destruct (Z.eq_dec x 0) as [->|Hx0]; [by rewrite Z.bits_0|].
      assert (Z.log2 x < n) by (apply Z.log2_lt_pow2; lia).
      rewrite (Z.bits_above_log2 x m); [done|lia|lia]. }
  rewrite <- Z.lxor_lor by done. symmetry. by apply Z.add_nocarry_lxor.
Qed.

Lemma le_uint16_value (b0 b1 : byte) (rest : list byte) :
  le_uint16 (b0 :: b1 :: rest) = Ret (le_value [b0; b1]).
Proof.
  unfold le_uint16, le_value. simpl.
  pose proof (u8_range b0).
  rewrite lor_shiftl_add by lia. f_equal. lia.
Qed.

Lemma le_uint32_value (b0 b1 b2 b3 : byte) (rest : list byte) :
  le_uint32 (b0 :: b1 :: b2 :: b3 :: rest) = Ret (le_value [b0; b1; b2; b3]).
Proof.
  unfold le_uint32, le_value. simpl.
  pose proof (u8_range b0). pose proof (u8_range b1).
  pose proof (u8_range b2). pose proof (u8_range b3).
  rewrite (lor_shiftl_add (u8 b0)) by lia.
  rewrite (lor_shiftl_add _ (u8 b2)) by lia.
  rewrite (lor_shiftl_add _ (u8 b3)) by lia.
  f_equal. lia.
Qed.

Lemma le_uint64_value (b0 b1 b2 b3 b4 b5 b6 b7 : byte) (rest : list byte) :
  le_uint64 (b0 :: b1 :: b2 :: b3 :: b4 :: b5 :: b6 :: b7 :: rest)
  = Ret (le_value [b0; b1; b2; b3; b4; b5; b6; b7]).
Proof.
  unfold le_uint64, le_value. simpl.
  pose proof (u8_range b0). pose proof (u8_range b1).
  pose proof (u8_range b2). pose proof (u8_range b3).
  pose proof (u8_range b4). pose proof (u8_range b5).
  pose proof (u8_range b6). pose proof (u8_range b7).
  rewrite (lor_shiftl_add (u8 b0)) by lia.
  rewrite (lor_shiftl_add _ (u8 b2)) by lia.
  rewrite (lor_shiftl_add _ (u8 b3)) by lia.
  rewrite (lor_shiftl_add _ (u8 b4)) by lia.
  rewrite (lor_shiftl_add _ (u8 b5)) by lia.
  rewrite (lor_shiftl_add _ (u8 b6)) by lia.
  rewrite (lor_shiftl_add _ (u8 b7)) by lia.
  f_equal. lia.
Qed.

Lemma index_at {B} (body : list byte) (i : Z) (k : byte -> go B) :
  0 <= i < Z.of_nat (length body) ->
  (b ← index body i; k b) = k (default Byte.x00 (body !! Z.to_nat i)).
Proof.
  intros Hi.
  destruct (lookup_lt_is_Some_2 body (Z.to_nat i)) as [b Hb]; [lia|].
  rewrite (index_Ret body i b) by (done || lia). by rewrite Hb.
Qed.

Lemma le_uint16_at {B} (body : list byte) (off : Z) (k : Z -> go B) :
  0 <= off -> off + 2 <= Z.of_nat (length body) ->
  (b ← slice_from body off; x ← le_uint16 b; k x)
  = k (le_value (take 2 (drop (Z.to_nat off) body))).
Proof.
  intros Hoff Hlen. rewrite slice_from_Ret by lia.
  assert (Hd : (2 <= length (drop (Z.to_nat off) body))%nat)
    by (rewrite length_drop; lia).
  destruct (drop (Z.to_nat off) body) as [|b0 [|b1 l]]; simpl in Hd; try lia.
  unfold mbind at 1, go_bind at 1. by rewrite le_uint16_value.
Qed.

Lemma le_uint32_at {B} (body : list byte) (off : Z) (k : Z -> go B) :
  0 <= off -> off + 4 <= Z.of_nat (length body) ->
  (b ← slice_from body off; x ← le_uint32 b; k x)
  = k (le_value (take 4 (drop (Z.to_nat off) body))).
Proof.
  intros Hoff Hlen. rewrite slice_from_Ret by lia.
  assert (Hd : (4 <= length (drop (Z.to_nat off) body))%nat)
    by (rewrite length_drop; lia).
  destruct (drop (Z.to_nat off) body) as [|b0 [|b1 [|b2 [|b3 l]]]];
    simpl in Hd; try lia.
  unfold mbind at 1, go_bind at 1. by rewrite le_uint32_value.
Qed.

Lemma le_uint64_at {B} (body : list byte) (off : Z) (k : Z -> go B) :
  0 <= off -> off + 8 <= Z.of_nat (length body) ->
  (b ← slice_from body off; x ← le_uint64 b; k x)
  = k (le_value (take 8 (drop (Z.to_nat off) body))).
Proof.
  intros Hoff Hlen. rewrite slice_from_Ret by lia.
  assert (Hd : (8 <= length (drop (Z.to_nat off) body))%nat)
    by (rewrite length_drop; lia).
  destruct (drop (Z.to_nat off) body)
    as [|b0 [|b1 [|b2 [|b3 [|b4 [|b5 [|b6 [|b7 l]]]]]]]];
    simpl in Hd; try lia.
  unfold mbind at 1, go_bind at 1. by rewrite le_uint64_value.
Qed.

End Endian.

(** ** The body sum *)

Section CalculateSum.

Import Vmudump.

Lemma byte_sum_app (l k : list byte) :
  byte_sum (l ++ k) = byte_sum l + byte_sum k.
Proof.
  unfold byte_sum. induction l as [|b l IH]; simpl; [done|].
  rewrite IH. lia.
Qed.

Lemma prefix_sum_add (body : list byte) (i k : Z) :
  0 <= i -> 0 <= k ->
  prefix_sum body (i + k)
  = prefix_sum body i + byte_sum (take (Z.to_nat k) (drop (Z.to_nat i) body)).
Proof.
  intros Hi Hk. unfold prefix_sum.
  rewrite Z2Nat.inj_add by lia.
  by rewrite <- take_take_drop, byte_sum_app.
Qed.

Lemma block16_Ret (body : list byte) (i sum : Z) :
  0 <= i -> i + 16 <= Z.of_nat (length body) ->
  block16 body i (wrap 32 sum)
  = Ret (wrap 32 (sum + byte_sum (take 16 (drop (Z.to_nat i) body)))).
Proof.
  intros Hi Hlen.
  assert (Hlen' : (16 <= length (drop (Z.to_nat i) body))%nat)
    by (rewrite length_drop; lia).
  pose proof (index_drop body i) as Hidx.
  destruct (drop (Z.to_nat i) body)
    as [|b0 [|b1 [|b2 [|b3 [|b4 [|b5 [|b6 [|b7 [|b8 [|b9 [|b10 [|b11
        [|b12 [|b13 [|b14 [|b15 rest]]]]]]]]]]]]]]]];
    simpl in Hlen'; try lia.
  unfold block16.
  replace i with (i + 0) at 1 by lia.
  rewrite (Hidx 0 b0), (Hidx 1 b1), (Hidx 2 b2), (Hidx 3 b3), (Hidx 4 b4),
    (Hidx 5 b5), (Hidx 6 b6), (Hidx 7 b7), (Hidx 8 b8), (Hidx 9 b9),
    (Hidx 10 b10), (Hidx 11 b11), (Hidx 12 b12), (Hidx 13 b13),
    (Hidx 14 b14), (Hidx 15 b15) by (done || lia).
  unfold mbind, go_bind.
  rewrite !add32_wrap_l.
  unfold add32, wrap, byte_sum, Zsum. simpl map. simpl foldr.
  rewrite ?Zplus_mod_idemp_r.
  pose proof (u8_range b0); pose proof (u8_range b1);
  pose proof (u8_range b2); pose proof (u8_range b3);
  pose proof (u8_range b4); pose proof (u8_range b5);
  pose proof (u8_range b6); pose proof (u8_range b7);
  pose proof (u8_range b8); pose proof (u8_range b9);
  pose proof (u8_range b10); pose proof (u8_range b11);
  pose proof (u8_range b12); pose proof (u8_range b13);
  pose proof (u8_range b14); pose proof (u8_range b15).
  change (2 ^ 32) with 4294967296.
  f_equal. modlia.
Qed.


Lemma block_loop_Ret (fuel : nat) (body : list byte) (limit i : Z) :
  0 <= i <= limit -> limit <= Z.of_nat (length body) ->
  (Z.to_nat (limit - i) < fuel)%nat ->
  block_loop fuel body limit i (wrap 32 (prefix_sum body i))
  = Ret (i + 16 * ((limit - i) / 16),
         wrap 32 (prefix_sum body (i + 16 * ((limit - i) / 16)))).
Proof.
  revert i. induction fuel as [|fuel IH]; intros i Hi Hlimit Hfuel; [lia|].
  simpl. unfold blockSize.
  destruct (Z.ltb_spec i (limit - 16 + 1)) as [Hlt|Hge].
  - rewrite block16_Ret by lia. unfold mbind, go_bind.
    replace (prefix_sum body i + byte_sum (take 16 (drop (Z.to_nat i) body)))
      with (prefix_sum body (i + 16)) by (by rewrite prefix_sum_add by lia).
    rewrite IH by lia.
    replace (i + 16 + 16 * ((limit - (i + 16)) / 16))
      with (i + 16 * ((limit - i) / 16)) by modlia.
    done.
  - replace ((limit - i) / 16) with 0 by modlia.
    by rewrite Z.mul_0_r, Z.add_0_r.
Qed.

Lemma scalar_loop_Ret (fuel : nat) (body : list byte) (limit i : Z) :
  0 <= i <= limit -> limit <= Z.of_nat (length body) ->
  (Z.to_nat (limit - i) < fuel)%nat ->
  scalar_loop fuel body limit i (wrap 32 (prefix_sum body i))
  = Ret (limit, wrap 32 (prefix_sum body limit)).
Proof.
  revert i. induction fuel as [|fuel IH]; intros i Hi Hlimit Hfuel; [lia|].
  simpl.
  destruct (Z.ltb_spec i limit) as [Hlt|Hge].
  - destruct (lookup_lt_is_Some_2 body (Z.to_nat i)) as [b Hb]; [lia|].
    rewrite (index_Ret body i b) by (done || lia).
    unfold mbind, go_bind. rewrite add32_wrap_l.
    replace (prefix_sum body i + u8 b) with (prefix_sum body (i + 1)).
    + apply IH; lia.
    + rewrite prefix_sum_add by lia.
      change (Z.to_nat 1) with 1%nat.
      rewrite (drop_S body b (Z.to_nat i)) by done.
      unfold byte_sum, Zsum. simpl. lia.
  - by replace i with limit by lia.
Qed.

(** C2: [calculateSum] on a body of at least 4 bytes: it returns (it
    neither panics nor runs on); the block loop takes the bytes 16 at a
    time and stops at the last multiple of 16 not past [len(body) - 4],
    which leaves the scalar loop the final 0 to 15 bytes; the sum
    returned is the sum modulo 2^32 of the unsigned values of all the
    bytes but the last 4; and the marker is "***" (valid) exactly when
    that sum is the little-endian 32-bit integer in the last 4 bytes,
    "invalid" otherwise. *)
Theorem calculateSum_spec (body : list byte) :
  (4 <= length body)%nat ->
  let limit := Z.of_nat (length body) - 4 in
  let total := wrap 32 (byte_sum (take (length body - 4) body)) in
  let stored := le_value (drop (length body - 4) body) in
  block_loop (S (length body)) body limit 0 0
    = Ret (16 * (limit / 16), wrap 32 (prefix_sum body (16 * (limit / 16))))
  /\ 0 <= limit - 16 * (limit / 16) <= 15
  /\ scalar_loop (S (length body)) body limit (16 * (limit / 16))
       (wrap 32 (prefix_sum body (16 * (limit / 16))))
    = Ret (limit, total)
  /\ exists bad : marker,
       calculateSum body = Ret (total, bad)
       /\ (bad = unknown <-> total = stored).
Proof.
  intros Hlen limit total stored.
  assert (Hlimit : 0 <= limit) by (unfold limit; lia).
  assert (Htotal : total = wrap 32 (prefix_sum body limit)).
  { unfold total, prefix_sum, limit. do 3 f_equal. lia. }
  assert (Hblock : block_loop (S (length body)) body limit 0 0
    = Ret (16 * (limit / 16), wrap 32 (prefix_sum body (16 * (limit / 16))))).
  { change 0 with (wrap 32 (prefix_sum body 0)) at 2.
    rewrite block_loop_Ret by (unfold limit; lia).
    by rewrite Z.add_0_l, Z.sub_0_r. }
  assert (Hscalar : scalar_loop (S (length body)) body limit (16 * (limit / 16))
       (wrap 32 (prefix_sum body (16 * (limit / 16))))
    = Ret (limit, total)).
  { rewrite Htotal. apply scalar_loop_Ret; unfold limit in *; modlia. }
  assert (Hsum : calculateSum body
    = Ret (total, if bool_decide (total = stored) then unknown else invalid)).
  { unfold calculateSum. fold limit. rewrite Hblock.
    unfold mbind at 1, go_bind at 1. rewrite Hscalar.
    unfold mbind at 1, go_bind at 1.
    rewrite slice_from_Ret by (unfold limit; lia).
    unfold mbind at 1, go_bind at 1.
    replace (Z.to_nat limit) with (length body - 4)%nat by (unfold limit; lia).
    assert (Hd : length (drop (length body - 4) body) = 4%nat)
      by (rewrite length_drop; lia).
    unfold stored.
    destruct (drop (length body - 4) body) as [|b0 [|b1 [|b2 [|b3 rest]]]];
      simpl in Hd; try lia.
    rewrite le_uint32_value. unfold mbind, go_bind.
    destruct rest; [|simpl in Hd; lia].
    do 2 f_equal. repeat case_bool_decide; congruence. }
  split; [exact Hblock|].
  split; [modlia|].
  split; [exact Hscalar|].
  eexists; split; [exact Hsum|].
  case_bool_decide; split; congruence.
Qed.

(** A 21-byte body: one block of 16, one byte for the scalar loop, and a
    trailer holding 16 + 255 = 271 = 0x010f. *)
Lemma calculateSum_spec_witness :
  let body := map byte_of ([1;1;1;1;1;1;1;1;1;1;1;1;1;1;1;1;255]
                           ++ [15;1;0;0])%N in
  (4 <= length body)%nat /\ calculateSum body = Ret (271, unknown).
Proof.
  intros body.
  assert (Hlen : (4 <= length body)%nat) by (simpl; lia).
  split; [exact Hlen|].
  destruct (calculateSum_spec body Hlen) as (_ & _ & _ & bad & Hsum & Hbad).
  rewrite Hsum.
  assert (Hvalid : bad = unknown) by (apply Hbad; vm_compute; reflexivity).
  rewrite Hvalid. vm_compute. reflexivity.
Defined.

End CalculateSum.

(** ** The user info *)

Section UserInfo.

Import Vmudump.

Lemma shouldKeepRune_allowed (b : byte) :
  shouldKeepRune (u8 b) = if allowed b then (true, false) else (false, true).
Proof.
  unfold shouldKeepRune, allowed.
  destruct (Z.eqb_spec (u8 b) 0) as [Hz|_]; [by rewrite Hz|done].
Qed.

Lemma keep_prefix_allowed (l : list byte) :
  Forall (fun b => allowed b = true) (keep_prefix l).
Proof.
  induction l as [|b l IH]; simpl; [constructor|].
  destruct (allowed b) eqn:Hb; by constructor.
Qed.

Lemma keep_prefix_split (l : list byte) :
  exists rest, l = keep_prefix l ++ rest
               /\ match rest with
                  | [] => True
                  | b :: _ => allowed b = false
                  end.
Proof.
  induction l as [|b l (rest & Hl & Hrest)]; simpl; [by exists []|].
  destruct (allowed b) eqn:Hb.
  - exists rest. split; [simpl; by f_equal|done].
  - by exists (b :: l).
Qed.

Lemma keep_prefix_longest (l k rest : list byte) :
  l = k ++ rest -> Forall (fun b => allowed b = true) k ->
  (length k <= length (keep_prefix l))%nat.
Proof.
  revert l. induction k as [|b k IH]; intros l -> Hk; simpl; [lia|].
  inversion Hk as [|? ? Hb Hk']; subst. rewrite Hb. simpl.
  apply le_n_S. by apply (IH _ eq_refl).
Qed.

Lemma userInfo_loop_Ret (fuel : nat) (upi buf : list byte) (i : Z) :
  Z.of_nat (length upi) = UPILen -> Z.of_nat (length buf) = UPILen ->
  0 <= i <= UPILen -> (Z.to_nat (UPILen - i) < fuel)%nat ->
  exists buf',
    let kept := keep_prefix (drop (Z.to_nat i) upi) in
    userInfo_loop fuel upi buf i i = Ret (buf', i + Z.of_nat (length kept))
    /\ length buf' = length buf
    /\ take (length kept) (drop (Z.to_nat i) buf') = kept
    /\ take (Z.to_nat i) buf' = take (Z.to_nat i) buf.
Proof.
  intros Hupi. revert buf i.
  induction fuel as [|fuel IH]; intros buf i Hbuf Hi Hfuel; [lia|].
  simpl. destruct (Z.ltb_spec i UPILen) as [Hlt|Hge].
  - destruct (lookup_lt_is_Some_2 upi (Z.to_nat i)) as [b Hb]; [lia|].
    rewrite (index_Ret upi i b) by (done || lia).
    unfold mbind at 1, go_bind at 1.
    rewrite (drop_S upi b (Z.to_nat i)) by done. simpl keep_prefix.
    rewrite shouldKeepRune_allowed.
    destruct (allowed b) eqn:Hallowed; simpl.
    + unfold store.
      destruct (Z.ltb_spec i 0); [lia|].
      destruct (Z.leb_spec (Z.of_nat (length buf)) i); [lia|]. simpl.
      destruct (IH (<[Z.to_nat i := b]> buf) (i + 1))
        as (buf' & Hloop & Hlen & Hkept & Hpre);
        [by rewrite length_insert|lia|lia|].
      exists buf'. simpl in Hloop.
      replace (Z.to_nat (i + 1)) with (S (Z.to_nat i)) in * by lia.
      rewrite Hloop, Hlen, length_insert.
      split; [do 2 f_equal; lia|]. split; [done|].
      assert (Hbi : buf' !! Z.to_nat i = Some b).
      { rewrite <- (lookup_take_lt buf' (S (Z.to_nat i))) by lia.
        rewrite Hpre, lookup_take_lt by lia.
        apply list_lookup_insert_eq. lia. }
      split.
      * rewrite (drop_S buf' b (Z.to_nat i)) by done. simpl. by rewrite Hkept.
      * transitivity (take (Z.to_nat i) (take (S (Z.to_nat i)) buf')).
        { rewrite take_take. f_equal. lia. }
        rewrite Hpre, take_take, Nat.min_l by lia.
        apply take_insert_ge. lia.
    + exists buf. rewrite Z.add_0_r. done.
  - exists buf. replace (Z.to_nat i) with (length upi) by lia.
    rewrite drop_all. simpl. rewrite Z.add_0_r. done.
Qed.

(** C9: [userInfo] on a 32-byte UPI array (and the 32-byte shared
    buffer): it returns exactly the longest prefix of the array made of
    allowed bytes only (letters, digits, '-' and '_'): the bytes
    returned are a prefix of the array, all allowed; the byte of the
    array that follows them, when there is one, is not allowed (NUL
    included), so nothing after the first byte that is not allowed is
    returned; and no longer prefix of allowed bytes exists.  The slice
    returned is the head of the shared buffer. *)
Theorem userInfo_longest_prefix (upiBuffer upi : list byte) :
  Z.of_nat (length upi) = UPILen -> Z.of_nat (length upiBuffer) = UPILen ->
  exists (buf out rest : list byte),
    userInfo upiBuffer upi = Ret (buf, out)
    /\ out = keep_prefix upi
    /\ upi = out ++ rest
    /\ Forall (fun b => allowed b = true) out
    /\ match rest with
       | [] => True
       | b :: _ => allowed b = false
       end
    /\ (forall k rest', upi = k ++ rest' ->
          Forall (fun b => allowed b = true) k ->
          (length k <= length out)%nat)
    /\ take (length out) buf = out
    /\ length buf = length upiBuffer.
Proof.
  intros Hupi Hbuf.
  destruct (userInfo_loop_Ret (S (Z.to_nat UPILen)) upi upiBuffer 0)
    as (buf & Hloop & Hlen & Hkept & _); [done|done|done|lia|].
  cbv zeta in Hloop, Hkept. change (Z.to_nat 0) with 0%nat in Hloop, Hkept.
  rewrite !drop_0 in Hloop, Hkept. rewrite Z.add_0_l in Hloop.
  destruct (keep_prefix_split upi) as (rest & Hsplit & Hrest).
  assert (Hshort : (length (keep_prefix upi) <= length upi)%nat).
  { rewrite Hsplit at 2. rewrite length_app. lia. }
  exists buf, (keep_prefix upi), rest.
  split.
  { unfold userInfo. rewrite Hloop. unfold mbind at 1, go_bind at 1.
    rewrite slice_Ret by lia. unfold mbind, go_bind.
    rewrite Z.sub_0_r, Nat2Z.id. change (Z.to_nat 0) with 0%nat.
    by rewrite Hkept. }
  split; [done|]. split; [done|].
  split; [apply keep_prefix_allowed|]. split; [done|].
  split; [intros k rest' Hk; by apply keep_prefix_longest with rest'|].
  done.
Qed.

(** "AB-" then a space: the space ends the scan, "C" after it is lost. *)
Lemma userInfo_longest_prefix_witness :
  let upi := map byte_of ([65; 66; 45; 32; 67] ++ repeat 0 27)%N in
  Z.of_nat (length upi) = UPILen
  /\ Z.of_nat (length zeroUPI) = UPILen
  /\ exists buf, userInfo zeroUPI upi = Ret (buf, map byte_of [65; 66; 45]%N).
Proof.
  intros upi.
  assert (Hupi : Z.of_nat (length upi) = UPILen) by reflexivity.
  assert (Hbuf : Z.of_nat (length zeroUPI) = UPILen) by reflexivity.
  destruct (userInfo_longest_prefix zeroUPI upi Hupi Hbuf)
    as (buf & out & rest & Hret & Hout & _).
  split; [exact Hupi|]. split; [exact Hbuf|].
  exists buf. rewrite Hret, Hout. vm_compute. reflexivity.
Defined.

End UserInfo.


(** ** The common header *)

Section DecodeCommon.

Import Vmudump.

Lemma copy_lookup {A} (dst src : list A) (i : nat) :
  (i < length dst)%nat ->
  copy dst src !! i = match src !! i with
                      | Some x => Some x
                      | None => dst !! i
                      end.
Proof.
  intros Hi. unfold copy.
  destruct (src !! i) as [x|] eqn:Hx.
  - rewrite lookup_app_l.
    + rewrite lookup_take_lt by done. done.
    + rewrite length_take. apply lookup_lt_Some in Hx. lia.
  - apply lookup_ge_None_1 in Hx.
    rewrite lookup_app_r; rewrite length_take, Nat.min_r by lia; [|lia].
    rewrite lookup_drop. f_equal. lia.
Qed.

Lemma length_copy {A} (dst src : list A) : length (copy dst src) = length dst.
Proof. unfold copy. rewrite length_app, length_take, length_drop. lia. Qed.

Lemma zeroUPI_lookup (i : nat) :
  (i < 32)%nat -> zeroUPI !! i = Some Byte.x00.
Proof. intros Hi. unfold zeroUPI. by apply lookup_replicate_2. Qed.

Lemma copy_zeroUPI_lookup (src : list byte) (i : nat) :
  (i < 32)%nat -> copy zeroUPI src !! i = Some (default Byte.x00 (src !! i)).
Proof.
  intros Hi. rewrite copy_lookup by done.
  destruct (src !! i); [done|]. by apply zeroUPI_lookup.
Qed.

(** The UPI array [decodeCommon] leaves, byte by byte: zero where
    nothing is copied. *)
Lemma selectUPI_Ret (property : Z) (body : list byte) :
  let class := Z.shiftr property 4 in
  (class = 1 -> (24 <= length body)%nat) ->
  (class = 2 -> (44 <= length body)%nat) ->
  exists upi,
    selectUPI property body = Ret upi
    /\ length upi = 32%nat
    /\ forall i, (i < 32)%nat -> upi !! i = Some (upi_byte body class i).
Proof.
  intros class H1 H2. unfold selectUPI, upi_byte. fold class.
  destruct (Z.eqb_spec class 1) as [Hc1|Hc1].
  - rewrite slice_from_Ret by (specialize (H1 Hc1); lia).
    eexists. split; [done|]. split; [by rewrite length_copy|].
    intros i Hi. rewrite copy_zeroUPI_lookup, lookup_drop by done. done.
  - destruct (Z.eqb_spec class 2) as [Hc2|Hc2].
    + rewrite slice_from_Ret by (specialize (H2 Hc2); lia).
      eexists. split; [done|]. split; [by rewrite length_copy|].
      intros i Hi. rewrite copy_zeroUPI_lookup, lookup_drop by done. done.
    + eexists. split; [done|]. split; [done|].
      intros i Hi. by apply zeroUPI_lookup.
Qed.

(** C4: [decodeCommon] on a slice that holds the 24 fixed bytes (and,
    for the image class, reaches offset 44): the high nibble of the
    property byte selects where the UPI comes from: nibble 1 copies it
    from offset 24, nibble 2 from offset 44, any other nibble leaves all
    32 bytes zero (a copy that runs past the end of the slice leaves the
    remaining bytes zero).  The other fields are read from the same
    offsets whatever the nibble. *)
Theorem decodeCommon_upi_offset (body : list byte) :
  (24 <= length body)%nat ->
  let class := Z.shiftr (u8 (default Byte.x00 (body !! 0%nat))) 4 in
  (class = 2 -> (44 <= length body)%nat) ->
  exists v : VMUCommonHeader,
    decodeCommon body = Ret (v, None)
    /\ length (com_UPI v) = 32%nat
    /\ (class = 1 -> forall i, (i < 32)%nat ->
          com_UPI v !! i = Some (default Byte.x00 (body !! (24 + i)%nat)))
    /\ (class = 2 -> forall i, (i < 32)%nat ->
          com_UPI v !! i = Some (default Byte.x00 (body !! (44 + i)%nat)))
    /\ (class <> 1 -> class <> 2 -> com_UPI v = zeroUPI)
    /\ com_Property v = u8 (default Byte.x00 (body !! 0%nat))
    /\ com_Stream v = le_value (take 2 (drop 1 body))
    /\ com_Counter v = le_value (take 4 (drop 3 body))
    /\ com_AcqTime v = to_int64 (le_value (take 8 (drop 7 body)))
    /\ com_AuxTime v = to_int64 (le_value (take 8 (drop 15 body)))
    /\ com_Origin v = u8 (default Byte.x00 (body !! 23%nat)).
Proof.
  intros Hlen class Himage.
  destruct (selectUPI_Ret (u8 (default Byte.x00 (body !! 0%nat))) body)
    as (upi & Hupi & Hupilen & Hbytes); [done|done|].
  fold class in Hbytes.
  assert (Hsel : forall n, class = n ->
    forall i, (i < 32)%nat -> upi !! i = Some (upi_byte body n i))
    by (intros n <-; done).
  unfold decodeCommon.
  rewrite (index_at body 0) by lia.
  rewrite (le_uint16_at body 1) by lia.
  rewrite (le_uint32_at body 3) by lia.
  rewrite (le_uint64_at body 7) by lia.
  rewrite (le_uint64_at body 15) by lia.
  rewrite (index_at body 23) by lia.
  change (Z.to_nat 0) with 0%nat. rewrite Hupi. unfold mbind, go_bind.
  eexists. split; [reflexivity|]. simpl.
  split; [done|].
  split; [intros Hc i Hi; by rewrite (Hsel 1 Hc i Hi)|].
  split; [intros Hc i Hi; by rewrite (Hsel 2 Hc i Hi)|].
  split.
  { intros Hc1 Hc2. apply list_eq_same_length with 32%nat; [done|done|].
    intros i x y Hi Hx Hy. rewrite Hbytes in Hx by done.
    rewrite zeroUPI_lookup in Hy by done. unfold upi_byte in Hx.
    destruct (Z.eqb_spec class 1); [done|].
    destruct (Z.eqb_spec class 2); [done|]. congruence. }
  done.
Qed.

(** An image-class header (property 0x20) of 76 bytes whose bytes from
    offset 44 on are 65, 66 and zeros. *)
Lemma decodeCommon_upi_offset_witness :
  let body := map byte_of ([32] ++ repeat 7 43 ++ [65; 66] ++ repeat 0 30)%N in
  (24 <= length body)%nat
  /\ (Z.shiftr (u8 (default Byte.x00 (body !! 0%nat))) 4 = 2
      -> (44 <= length body)%nat)
  /\ exists v, decodeCommon body = Ret (v, None)
               /\ com_UPI v !! 0%nat = Some (byte_of 65)
               /\ com_UPI v !! 1%nat = Some (byte_of 66)
               /\ com_UPI v !! 2%nat = Some Byte.x00.
Proof.
  intros body.
  assert (Hlen : (24 <= length body)%nat) by (vm_compute; lia).
  assert (Himage : Z.shiftr (u8 (default Byte.x00 (body !! 0%nat))) 4 = 2
                   -> (44 <= length body)%nat) by (intros _; vm_compute; lia).
  split; [exact Hlen|]. split; [exact Himage|].
  destruct (decodeCommon_upi_offset body Hlen Himage)
    as (v & Hv & _ & _ & Hupi & _).
  exists v. split; [exact Hv|].
  split; [|split];
    (rewrite Hupi; [vm_compute; reflexivity|vm_compute; reflexivity|lia]).
Defined.

(** An image-class slice that ends before offset 44 makes
    [decodeCommon] panic on [body[44:]]. *)
Remark decodeCommon_image_short (body : list byte) :
  (24 <= length body < 44)%nat ->
  Z.shiftr (u8 (default Byte.x00 (body !! 0%nat))) 4 = 2 ->
  decodeCommon body = Panic.
Proof.
  intros Hlen Hclass. unfold decodeCommon.
  rewrite (index_at body 0) by lia.
  rewrite (le_uint16_at body 1) by lia.
  rewrite (le_uint32_at body 3) by lia.
  rewrite (le_uint64_at body 7) by lia.
  rewrite (le_uint64_at body 15) by lia.
  rewrite (index_at body 23) by lia.
  change (Z.to_nat 0) with 0%nat.
  unfold selectUPI. rewrite Hclass. simpl.
  unfold slice_from.
  destruct (Z.ltb_spec (Z.of_nat (length body)) 44); [done|lia].
Qed.

End DecodeCommon.

(** ** Short buffers *)

Section ShortBuffer.

Import Vmudump.

Lemma be_uint16_value (b0 b1 : byte) (rest : list byte) :
  be_uint16 (b0 :: b1 :: rest) = Ret (be_value [b0; b1]).
Proof.
  unfold be_uint16, be_value, le_value. simpl.
  pose proof (u8_range b1).
  rewrite lor_shiftl_add by lia. f_equal. lia.
Qed.

Lemma be_uint32_value (b0 b1 b2 b3 : byte) (rest : list byte) :
  be_uint32 (b0 :: b1 :: b2 :: b3 :: rest) = Ret (be_value [b0; b1; b2; b3]).
Proof.
  unfold be_uint32, be_value, le_value. simpl.
  pose proof (u8_range b0). pose proof (u8_range b1).
  pose proof (u8_range b2). pose proof (u8_range b3).
  rewrite (lor_shiftl_add (u8 b3)) by lia.
  rewrite (lor_shiftl_add _ (u8 b1)) by lia.
  rewrite (lor_shiftl_add _ (u8 b0)) by lia.
  f_equal. lia.
Qed.

Lemma be_uint16_at {B} (body : list byte) (off : Z) (k : Z -> go B) :
  0 <= off -> off + 2 <= Z.of_nat (length body) ->
  (b ← slice_from body off; x ← be_uint16 b; k x)
  = k (be_value (take 2 (drop (Z.to_nat off) body))).
Proof.
  intros Hoff Hlen. rewrite slice_from_Ret by lia.
  assert (Hd : (2 <= length (drop (Z.to_nat off) body))%nat)
    by (rewrite length_drop; lia).
  destruct (drop (Z.to_nat off) body) as [|b0 [|b1 l]]; simpl in Hd; try lia.
  unfold mbind at 1, go_bind at 1. by rewrite be_uint16_value.
Qed.

Lemma be_uint32_at {B} (body : list byte) (off : Z) (k : Z -> go B) :
  0 <= off -> off + 4 <= Z.of_nat (length body) ->
  (b ← slice_from body off; x ← be_uint32 b; k x)
  = k (be_value (take 4 (drop (Z.to_nat off) body))).
Proof.
  intros Hoff Hlen. rewrite slice_from_Ret by lia.
  assert (Hd : (4 <= length (drop (Z.to_nat off) body))%nat)
    by (rewrite length_drop; lia).
  destruct (drop (Z.to_nat off) body) as [|b0 [|b1 [|b2 [|b3 l]]]];
    simpl in Hd; try lia.
  unfold mbind at 1, go_bind at 1. by rewrite be_uint32_value.
Qed.

Lemma le_uint32_head {B} (body : list byte) (k : Z -> go B) :
  4 <= Z.of_nat (length body) ->
  (x ← le_uint32 body; k x) = k (le_value (take 4 body)).
Proof.
  intros Hlen.
  destruct body as [|b0 [|b1 [|b2 [|b3 l]]]]; simpl in Hlen; try lia.
  by rewrite le_uint32_value.
Qed.

(** [decodeHRDL] on a slice of at least 18 bytes: every field, with its
    byte order, and never an error. *)
Lemma decodeHRDL_Ret (body : list byte) :
  (18 <= length body)%nat ->
  decodeHRDL body
  = Ret ({| hrdl_Size := le_value (take 4 body);
            hrdl_Error := be_value (take 2 (drop 4 body));
            hrdl_Channel := u8 (default Byte.x00 (body !! 7%nat));
            hrdl_Payload := u8 (default Byte.x00 (body !! 6%nat));
            hrdl_PacketCoarse := be_value (take 4 (drop 8 body));
            hrdl_PacketFine := u8 (default Byte.x00 (body !! 12%nat));
            hrdl_HRDPCoarse := be_value (take 4 (drop 13 body));
            hrdl_HRDPFine := u8 (default Byte.x00 (body !! 17%nat)) |},
         None).
Proof.
  intros Hlen. unfold decodeHRDL.
  rewrite le_uint32_head by lia.
  rewrite (be_uint16_at body 4) by lia.
  rewrite (index_at body 6), (index_at body 7) by lia.
  rewrite (be_uint32_at body 8) by lia.
  rewrite (index_at body 12) by lia.
  rewrite (be_uint32_at body 13) by lia.
  rewrite (index_at body 17) by lia.
  reflexivity.
Qed.

(** [decodeVMU] reads up to offset 22 of the 24 bytes of the header. *)
Lemma decodeVMU_Ret (body : list byte) :
  (22 <= length body)%nat ->
  decodeVMU body
  = Ret ({| vmu_Size := le_value (take 4 (drop 4 body));
            vmu_Channel := u8 (default Byte.x00 (body !! 8%nat));
            vmu_Origin := u8 (default Byte.x00 (body !! 9%nat));
            vmu_Sequence := le_value (take 4 (drop 12 body));
            vmu_Coarse := le_value (take 4 (drop 16 body));
            vmu_Fine := le_value (take 2 (drop 20 body)) |},
         None).
Proof.
  intros Hlen. unfold decodeVMU.
  rewrite (le_uint32_at body 4) by lia.
  rewrite (index_at body 8), (index_at body 9) by lia.
  rewrite (le_uint32_at body 12) by lia.
  rewrite (le_uint32_at body 16) by lia.
  rewrite (le_uint16_at body 20) by lia.
  reflexivity.
Qed.

Lemma decodeHRDL_Panic (body : list byte) :
  (length body < 18)%nat -> decodeHRDL body = Panic.
Proof.
  intros Hlen.
  do 18 (destruct body as [|? body]; [reflexivity|]).
  simpl in Hlen. lia.
Qed.

Lemma decodeVMU_Panic (body : list byte) :
  (length body < 22)%nat -> decodeVMU body = Panic.
Proof.
  intros Hlen.
  do 22 (destruct body as [|? body]; [reflexivity|]).
  simpl in Hlen. lia.
Qed.




End ShortBuffer.

(** ** Gaps and counts *)

Section Gaps.

Import Vmucat.

Lemma to_int64_small (z : Z) : - 2 ^ 63 <= z < 2 ^ 63 -> to_int64 z = z.
Proof.
  unfold to_int64.
  change (2 ^ 63) with 9223372036854775808.
  change (2 ^ 64) with 18446744073709551616.
  intros Hz. modlia.
Qed.

Lemma int_uint32 (x : Z) : is_uint32 x -> int x = x.
Proof.
  unfold is_uint32, int. change (2 ^ 32) with 4294967296.
  intros Hx. apply to_int64_small.
  change (2 ^ 63) with 9223372036854775808. lia.
Qed.

Lemma diff_uint32 (x y : Z) :
  is_uint32 x -> is_uint32 y -> to_int64 (int x - int y) = x - y.
Proof.
  intros Hx Hy. rewrite (int_uint32 x), (int_uint32 y) by done.
  unfold is_uint32 in *. change (2 ^ 32) with 4294967296 in *.
  apply to_int64_small. change (2 ^ 63) with 9223372036854775808. lia.
Qed.

Lemma gapByChannel_rule (p prev : Packet) (d : Duration) :
  wf_packet p -> wf_packet prev ->
  gap_rule (Sequence (VMUHeader p)) (Sequence (VMUHeader prev))
           (Sub (Timestamp (VMUHeader p)) (Timestamp (VMUHeader prev)))
           d (gapByChannel p prev d).
Proof.
  intros [Hp _] [Hprev _]. unfold gap_rule, gapByChannel. cbv zeta.
  rewrite diff_uint32 by assumption.
  rewrite (int_uint32 _ Hp), (int_uint32 _ Hprev).
  destruct (Z.eqb_spec (Sequence (VMUHeader p) - Sequence (VMUHeader prev)) 1);
    destruct (Z.eqb_spec d 0);
    destruct (Z.leb_spec
                (Sub (Timestamp (VMUHeader p)) (Timestamp (VMUHeader prev))) d);
    simpl; unfold Gap.Missing; simpl; intuition (try discriminate; try lia).
Qed.

Lemma gapByOrigin_rule (p prev : Packet) (d : Duration) :
  wf_packet p -> wf_packet prev ->
  gap_rule (Counter (DataHeader p)) (Counter (DataHeader prev))
           (Sub (Acquisition (DataHeader p)) (Acquisition (DataHeader prev)))
           d (gapByOrigin p prev d).
Proof.
  intros [_ Hp] [_ Hprev]. unfold gap_rule, gapByOrigin. cbv zeta.
  rewrite diff_uint32 by assumption.
  rewrite (int_uint32 _ Hp), (int_uint32 _ Hprev).
  destruct (Z.eqb_spec (Counter (DataHeader p) - Counter (DataHeader prev)) 1);
    destruct (Z.eqb_spec d 0);
    destruct (Z.leb_spec
                (Sub (Acquisition (DataHeader p))
                     (Acquisition (DataHeader prev))) d);
    simpl; unfold Gap.Missing; simpl; intuition (try discriminate; try lia).
Qed.

(** C1: for two packets of one identifier and a maximum gap duration
    [d], under either grouping (channel: VMU sequence and timestamp;
    origin: data counter and acquisition time): a gap is emitted if and
    only if the sequence difference is not 1 and [d] is zero or the
    time elapsed between the two packets is at most [d]; an emitted gap
    misses [|difference| - 1] packets; a difference of exactly 1 emits
    no gap; a difference other than 1 with more than a positive [d]
    elapsed emits no gap. *)
Theorem gap_detector_rule (p prev : Packet) (d : Duration) :
  wf_packet p -> wf_packet prev ->
  gap_rule (Sequence (VMUHeader p)) (Sequence (VMUHeader prev))
           (Sub (Timestamp (VMUHeader p)) (Timestamp (VMUHeader prev)))
           d (gapByChannel p prev d)
  /\ gap_rule (Counter (DataHeader p)) (Counter (DataHeader prev))
              (Sub (Acquisition (DataHeader p))
                   (Acquisition (DataHeader prev)))
              d (gapByOrigin p prev d).
Proof.
  intros Hp Hprev. split.
  - by apply gapByChannel_rule.
  - by apply gapByOrigin_rule.
Qed.

(** Sequence 10 then 14, one second apart, with a one-second maximum:
    a gap that misses 3 packets. *)
Lemma gap_detector_rule_witness :
  let prev := {| VMUHeader := {| Size := 100; Channel := 7; Sequence := 10;
                                 Timestamp := 5 * Second |};
                 DataHeader := {| Origin := 1; Counter := 10;
                                  Acquisition := 5 * Second |} |} in
  let p := {| VMUHeader := {| Size := 100; Channel := 7; Sequence := 14;
                              Timestamp := 6 * Second |};
              DataHeader := {| Origin := 1; Counter := 14;
                               Acquisition := 6 * Second |} |} in
  wf_packet p /\ wf_packet prev
  /\ fst (gapByChannel p prev Second) = true
  /\ Gap.Missing (snd (gapByChannel p prev Second)) = 3
  /\ fst (gapByOrigin p prev Second) = true
  /\ Gap.Missing (snd (gapByOrigin p prev Second)) = 3.
Proof.
  intros prev p.
  assert (Hp : wf_packet p) by (vm_compute; intuition discriminate).
  assert (Hprev : wf_packet prev) by (vm_compute; intuition discriminate).
  destruct (gap_detector_rule p prev Second Hp Hprev)
    as [(Hc & Hcm & _) (Ho & Hom & _)].
  assert (Hgc : fst (gapByChannel p prev Second) = true)
    by (apply Hc; vm_compute; intuition discriminate).
  assert (Hgo : fst (gapByOrigin p prev Second) = true)
    by (apply Ho; vm_compute; intuition discriminate).
  split; [exact Hp|]. split; [exact Hprev|].
  split; [exact Hgc|]. split; [rewrite (Hcm Hgc); reflexivity|].
  split; [exact Hgo|]. rewrite (Hom Hgo); reflexivity.
Defined.

(** C3, as the code has it: for two consecutive packets of one
    identifier with sequence counters 11 then 13 and the elapsed time
    within the maximum gap duration, the gap emitted carries
    [Last] = 11, the value last seen before the gap, [First] = 13, the
    value first seen after it, the two timestamps in order, and a
    missing count of 1; under the channel grouping and under the origin
    grouping. *)
Theorem gap_brackets_11_13 (p prev : Packet) (d : Duration) :
  (Sequence (VMUHeader prev) = 11 -> Sequence (VMUHeader p) = 13 ->
   d = 0 \/ Sub (Timestamp (VMUHeader p)) (Timestamp (VMUHeader prev)) <= d ->
   exists g, gapByChannel p prev d = (true, g)
             /\ Gap.Last g = 11 /\ Gap.First g = 13 /\ Gap.Missing g = 1
             /\ Gap.Starts g = Timestamp (VMUHeader prev)
             /\ Gap.Ends g = Timestamp (VMUHeader p))
  /\ (Counter (DataHeader prev) = 11 -> Counter (DataHeader p) = 13 ->
      d = 0 \/ Sub (Acquisition (DataHeader p))
                   (Acquisition (DataHeader prev)) <= d ->
      exists g, gapByOrigin p prev d = (true, g)
                /\ Gap.Last g = 11 /\ Gap.First g = 13 /\ Gap.Missing g = 1
                /\ Gap.Starts g = Acquisition (DataHeader prev)
                /\ Gap.Ends g = Acquisition (DataHeader p)).
Proof.
  split; intros Hprev Hp Hd.
  - unfold gapByChannel. rewrite Hprev, Hp.
    change (to_int64 (int 13 - int 11) =? 1) with false.
    replace ((d =? 0)
             || (Sub (Timestamp (VMUHeader p)) (Timestamp (VMUHeader prev))
                 <=? d)) with true.
    + eexists. split; [reflexivity|]. by vm_compute.
    + destruct Hd as [->|Hd]; [done|].
      apply Z.leb_le in Hd. rewrite Hd. by rewrite orb_true_r.
  - unfold gapByOrigin. rewrite Hprev, Hp.
    change (to_int64 (int 13 - int 11) =? 1) with false.
    replace ((d =? 0)
             || (Sub (Acquisition (DataHeader p))
                     (Acquisition (DataHeader prev)) <=? d)) with true.
    + eexists. split; [reflexivity|]. by vm_compute.
    + destruct Hd as [->|Hd]; [done|].
      apply Z.leb_le in Hd. rewrite Hd. by rewrite orb_true_r.
Qed.

Lemma gap_brackets_11_13_witness :
  gapByChannel packet_13 packet_11 Second
  = (true, {| Gap.Id := 0; Gap.Starts := 5 * Second; Gap.Ends := 6 * Second;
              Gap.Last := 11; Gap.First := 13 |})
  /\ Gap.Missing (snd (gapByChannel packet_13 packet_11 Second)) = 1.
Proof.
  destruct (gap_brackets_11_13 packet_13 packet_11 Second) as [Hc _].
  destruct Hc as (g & Hg & _ & _ & Hm & _);
    [reflexivity|reflexivity|right; by vm_compute|].
  split; [reflexivity|]. rewrite Hg. exact Hm.
Defined.

(** The claim as worded, with [First] = 11 and [Last] = 13, fails on
    those two packets: the gap has [First] = 13. *)
Lemma gap_first_last_counterexample :
  ~ (forall (p prev : Packet) (d : Duration),
       wf_packet p -> wf_packet prev ->
       Sequence (VMUHeader prev) = 11 -> Sequence (VMUHeader p) = 13 ->
       d = 0
       \/ Sub (Timestamp (VMUHeader p)) (Timestamp (VMUHeader prev)) <= d ->
       exists g, gapByChannel p prev d = (true, g)
                 /\ Gap.First g = 11 /\ Gap.Last g = 13
                 /\ Gap.Missing g = 1).
Proof.
  intros Hclaim.
  destruct (Hclaim packet_13 packet_11 Second) as (g & Hg & Hfirst & _).
  - by vm_compute.
  - by vm_compute.
  - reflexivity.
  - reflexivity.
  - right. by vm_compute.
  - vm_compute in Hg. injection Hg as <-. discriminate Hfirst.
Qed.

Lemma missBy_inc (b : grouping) (p prev : Packet) :
  wf_packet p -> wf_packet prev ->
  missBy b p prev
  = if counter_of b p <? counter_of b prev then 0
    else wrap 64 (counter_of b p - counter_of b prev - 1).
Proof.
  intros [Hs Hc] [Hs' Hc']. unfold is_uint32 in *.
  change (2 ^ 32) with 4294967296 in *.
  destruct b; unfold missBy, counter_of;
    (match goal with |- context [?x <? ?y] =>
       destruct (Z.ltb_spec x y); [done|] end);
    rewrite (wrap_small 32) by (change (2 ^ 32) with 4294967296; lia);
    done.
Qed.

(** C10: in [count], for two consecutive packets [prev] and [p] of one
    group (channel: VMU sequence; origin: data counter), with [p] not
    dropped as invalid: what is added to the cumulative missing count,
    itself a [uint64], is 0 when the counter of [p] is strictly smaller
    than that of [prev], and the unsigned 64-bit [(curr - prev) - 1]
    otherwise; so two equal counters add [2^64 - 1], and a greater
    counter adds the difference less one. *)
Theorem count_missing_increment (b : grouping) (keepInvalid bad : bool)
    (st : countState) (p prev : Packet) :
  wf_packet p -> wf_packet prev ->
  seen st !! getBy b p = Some prev ->
  bad = false \/ keepInvalid = true ->
  let curr := counter_of b p in
  let before := counter_of b prev in
  let old := Coze.Missing (default Coze.zero (stats st !! getBy b p)) in
  let inc := if curr <? before then 0 else wrap 64 (curr - before - 1) in
  missBy b p prev = inc
  /\ Coze.Missing <$> stats (count_packet b keepInvalid st p bad) !! getBy b p
     = Some (wrap 64 (old + inc))
  /\ (curr < before -> inc = 0)
  /\ (curr = before -> inc = 2 ^ 64 - 1)
  /\ (before < curr -> inc = curr - before - 1).
Proof.
  intros Hp Hprev Hseen Hkept curr before old inc.
  assert (Hinc : missBy b p prev = inc) by (by apply missBy_inc).
  split; [done|]. split.
  { unfold count_packet. rewrite Hseen.
    replace (bad && negb keepInvalid) with false
      by (destruct Hkept as [-> | ->]; [done|by rewrite andb_false_r]).
    simpl. rewrite lookup_insert_eq. simpl. rewrite Hinc.
    by destruct bad. }
  assert (Hcurr : is_uint32 curr) by (destruct b, Hp; done).
  assert (Hbefore : is_uint32 before) by (destruct b, Hprev; done).
  unfold is_uint32, inc, wrap in *.
  change (2 ^ 32) with 4294967296 in *.
  change (2 ^ 64) with 18446744073709551616.
  destruct (Z.ltb_spec curr before); split_and!; intros; try lia; modlia.
Qed.

(** Two packets with the same sequence counter, 11 and 11. *)
Lemma count_missing_increment_witness :
  let st := {| stats := {[ 7 := {| Coze.Id := 0; Coze.Count := 1;
                                   Coze.Size := 100; Coze.Missing := 0;
                                   Coze.Error := 0 |} ]};
               seen := {[ 7 := packet_11 ]} |} in
  wf_packet packet_11
  /\ seen st !! getBy ByChannel packet_11 = Some packet_11
  /\ missBy ByChannel packet_11 packet_11 = 2 ^ 64 - 1
  /\ Coze.Missing
       <$> stats (count_packet ByChannel false st packet_11 false) !! 7
     = Some (2 ^ 64 - 1).
Proof.
  intros st.
  assert (Hwf : wf_packet packet_11) by (by vm_compute).
  assert (Hseen : seen st !! getBy ByChannel packet_11 = Some packet_11)
    by apply lookup_singleton_eq.
  destruct (count_missing_increment ByChannel false false st
              packet_11 packet_11 Hwf Hwf Hseen (or_introl eq_refl))
    as (Hmiss & Hstat & _ & Hequal & _).
  split; [exact Hwf|]. split; [exact Hseen|].
  split; [rewrite Hmiss; by apply Hequal|].
  change (getBy ByChannel packet_11) with 7 in Hstat.
  rewrite Hstat. f_equal.
Defined.

End Gaps.

(** ** The archive walker *)

Section Walking.

Import Walker.

Context {Packet Decoder : Type}.

Implicit Types (n : node Packet) (q : list Packet) (fs : string -> node Packet).

Lemma node_induction (P : node Packet -> Prop) :
  (forall e, P (NoEntry e)) ->
  (forall opened, P (File opened)) ->
  (forall e, P (Dir (inl e))) ->
  (forall entries, Forall P entries -> P (Dir (inr entries))) ->
  forall n, P n.
Proof.
  intros Hno Hfile Herr Hdir.
  fix IH 1. intros [e|opened|[e|entries]]; [done..|].
  apply Hdir. induction entries as [|n entries IHentries]; constructor.
  - apply IH.
  - apply IHentries.
Qed.

#[local] Instance string_le_total : Total string_le.
Proof. intros a b. apply String.leb_total. Qed.

Lemma until_error_app (l k : list (ioError + list Packet)) :
  until_error (l ++ k)
  = until_error l
    ++ match first_error l with
       | Some _ => []
       | None => until_error k
       end.
Proof.
  induction l as [|[e|ps] l IH]; simpl; [done|done|].
  by rewrite IH, app_assoc.
Qed.

Lemma first_error_app (l k : list (ioError + list Packet)) :
  first_error (l ++ k)
  = match first_error l with
    | Some e => Some e
    | None => first_error k
    end.
Proof. induction l as [|[e|ps] l IH]; simpl; done. Qed.

(** [visit] sends the packets of the files met before the first I/O
    error, and returns that error. *)
Lemma visit_leaves n q :
  visit n q = (q ++ until_error (leaves n), first_error (leaves n)).
Proof.
  revert q. induction n as [e|[e|frames]|e|entries IH] using node_induction;
    intros q; simpl; rewrite ?app_nil_r; try done.
  revert q. induction IH as [|n entries Hn _ IHentries]; intros q; simpl.
  - by rewrite app_nil_r.
  - rewrite (Hn q), until_error_app, first_error_app.
    destruct (first_error (leaves n)) as [e|]; simpl.
    + by rewrite app_nil_r.
    + rewrite (IHentries (q ++ until_error (leaves n))).
      by rewrite app_assoc.
Qed.

Lemma walk_paths_leaves fs (paths : list string) q :
  walk_paths fs paths q
  = q ++ until_error (concat (map (fun p => leaves (fs p)) paths)).
Proof.
  revert q. induction paths as [|p paths IH]; intros q; simpl.
  - by rewrite app_nil_r.
  - unfold walk. rewrite visit_leaves, until_error_app.
    destruct (first_error (leaves (fs p))) as [e|]; simpl.
    + by rewrite app_nil_r.
    + rewrite IH. by rewrite app_assoc.
Qed.

Lemma until_error_clean (sent : list (list Packet)) :
  until_error (map inr sent : list (ioError + list Packet)) = concat sent.
Proof. induction sent as [|ps sent IH]; simpl; by rewrite ?IH. Qed.

Lemma until_error_stop (sent : list (list Packet)) (e : ioError)
    (later : list (ioError + list Packet)) :
  until_error (map inr sent ++ inl e :: later) = concat sent.
Proof.
  induction sent as [|ps sent IH]; simpl; [done|]. by rewrite IH.
Qed.

(** C6, as the code has it.  The paths are walked in sorted order.  With
    [met] the files under them in the order of the walk, each with what
    its reader hands over or with the I/O error met in its place, the
    walker sends the packets of the files met before the first I/O
    error and nothing else.  So a decode error, which stays inside the
    reader of one file, ends nothing but what that file gives: when no
    I/O error is met every file's packets are sent, file after file and
    path after path.  An I/O error (a path that cannot be read, a
    directory that cannot be listed, a file that cannot be opened) ends
    the whole walk: the packets of the files met before it are sent, and
    no packet of a later file, in the same directory or under a later
    path.  The goroutine closes the channel once, after its last send,
    in every case; without a decoder it sends nothing. *)
Theorem Walk_errors fs (paths : list string) (d : Decoder) :
  let met := concat (map (fun p => leaves (fs p)) (sortStrings paths)) in
  Sorted string_le (sortStrings paths)
  /\ sortStrings paths ≡ₚ paths
  /\ Walk fs paths (Some d) = until_error met
  /\ (forall sent : list (list Packet),
        met = map inr sent -> Walk fs paths (Some d) = concat sent)
  /\ (forall (sent : list (list Packet)) e later,
        met = map inr sent ++ inl e :: later ->
        Walk fs paths (Some d) = concat sent)
  /\ Walk fs paths (@None Decoder) = []
  /\ (forall d' : option Decoder,
        Walk_goroutine fs paths d'
        = map Send (Walk fs paths d') ++ [Close]).
Proof.
  intros met.
  assert (Hwalk : Walk fs paths (Some d) = until_error met)
    by (unfold Walk; by rewrite walk_paths_leaves).
  split; [apply Sorted_merge_sort, _|].
  split; [apply merge_sort_Permutation|].
  split; [exact Hwalk|].
  split; [intros sent Hmet; by rewrite Hwalk, Hmet, until_error_clean|].
  split; [intros sent e later Hmet;
          by rewrite Hwalk, Hmet, until_error_stop|].
  split; [done|].
  intros [d'|]; reflexivity.
Qed.

End Walking.

Section WalkingExamples.

Import Walker.

(** Over the small archive: the corrupt frame of "b" costs only the
    rest of "b"; the error on "a" ends the walk before anything is
    sent; the unreadable entry of "d" ends it after packet 4, and
    packet 5, of the file that follows in "d", is not sent.  The channel
    is closed after the last packet. *)
Lemma Walk_errors_witness :
  Walk (Decoder := unit) walk_fs ["c"; "b"] (Some tt) = [1; 2; 3]%nat
  /\ Walk (Decoder := unit) walk_fs ["c"; "a"; "b"] (Some tt) = []
  /\ Walk (Decoder := unit) walk_fs ["c"; "b"; "d"] (Some tt)
     = [1; 2; 3; 4]%nat
  /\ Walk_goroutine (Decoder := unit) walk_fs ["c"; "b"; "d"] (Some tt)
     = [Send 1; Send 2; Send 3; Send 4; Close]%nat.
Proof.
  split; [|split; [|split]].
  - destruct (Walk_errors (Decoder := unit) walk_fs ["c"; "b"] tt)
      as (_ & _ & _ & Hall & _).
    rewrite (Hall [[1]; [2]; [3]]%nat); reflexivity.
  - destruct (Walk_errors (Decoder := unit) walk_fs ["c"; "a"; "b"] tt)
      as (_ & _ & _ & _ & Hstop & _).
    rewrite (Hstop [] (IOError "open")
               [inr [1]; inr [2]; inr [3]]%nat); reflexivity.
  - destruct (Walk_errors (Decoder := unit) walk_fs ["c"; "b"; "d"] tt)
      as (_ & _ & _ & _ & Hstop & _).
    rewrite (Hstop [[1]; [2]; [3]; [4]]%nat (IOError "readdir")
               [inr [5]%nat]); reflexivity.
  - destruct (Walk_errors (Decoder := unit) walk_fs ["c"; "b"; "d"] tt)
      as (_ & _ & _ & _ & Hstop & _ & Hclose).
    rewrite Hclose.
    rewrite (Hstop [[1]; [2]; [3]; [4]]%nat (IOError "readdir")
               [inr [5]%nat]); reflexivity.
Defined.

(** The claim as worded fails: the I/O error on "a" suppresses the
    packet of the later path "b". *)
Lemma Walk_io_error_counterexample :
  ~ (forall (fs : string -> node nat) (paths : list string) (d : unit)
            (p : string) (pkt : nat),
       p ∈ paths -> pkt ∈ (walk fs p []).1 ->
       pkt ∈ Walk fs paths (Some d)).
Proof.
  intros Hclaim.
  assert (Hin : 1%nat ∈ Walk walk_fs ["a"; "b"] (Some tt)).
  { apply (Hclaim walk_fs ["a"; "b"] tt "b" 1%nat).
    - apply list_elem_of_In. simpl. tauto.
    - apply list_elem_of_In. vm_compute. tauto. }
  vm_compute in Hin. by apply elem_of_nil in Hin.
Qed.

End WalkingExamples.

(** ** The time range of a request *)

Section TimeRangeFacts.

Import Distrib.

Variable Parse : string -> option Time.

Lemma Sub_exact (t u : Time) :
  minDuration <= t - u <= maxDuration -> Sub t u = t - u.
Proof. unfold Sub. lia. Qed.

Lemma Truncate_Five (t : Time) :
  (Five | Truncate t Five)
  /\ Truncate t Five <= t < Truncate t Five + Five.
Proof.
  unfold Truncate, Five, Minute, Second. simpl.
  split; [|modlia].
  exists (t / 300000000000). modlia.
Qed.

(** What [timeRange] returns, case by case. *)
Lemma timeRange_cases (r : request) (now : Time) (delta : Duration) :
  Hour * 24 < now ->
  let fd := bound Parse (dtstart r) in
  let td := bound Parse (dtend r) in
  let res := timeRange Parse r now delta in
  (bad_format Parse (dtstart r) /\ is_Some res.2)
  \/ (~ bad_format Parse (dtstart r) /\ bad_format Parse (dtend r)
      /\ is_Some res.2)
  \/ (~ bad_format Parse (dtstart r) /\ ~ bad_format Parse (dtend r)
      /\ ((fd = 0 /\ td = 0
           /\ ((0 < delta < Hour * 24 /\ is_Some res.2)
               \/ (~ 0 < delta < Hour * 24
                   /\ res = (Truncate (Add now (Hour * -24)) Five,
                             Truncate (Add now Five) Five, None))))
          \/ (((fd <> 0 /\ td = 0) \/ (fd = 0 /\ td <> 0)) /\ is_Some res.2)
          \/ (fd <> 0 /\ td <> 0
              /\ ((td < fd \/ (0 < delta /\ delta < Sub td fd))
                  /\ is_Some res.2
                  \/ (~ (td < fd \/ (0 < delta /\ delta < Sub td fd))
                      /\ res = (Truncate fd Five,
                                Truncate (Add td Five) Five, None)))))).
Proof.
  intros Hnow fd td res. subst res fd td.
  unfold timeRange, parse, bound, bad_format.
  destruct (Parse (dtstart r)) as [fd|] eqn:Hfd;
    destruct (Parse (dtend r)) as [td|] eqn:Htd; simpl;
    repeat case_bool_decide; simpl;
    unfold IsZero, Before, Add;
    repeat match goal with
           | |- context [Z.eqb ?x ?y] => destruct (Z.eqb_spec x y); simpl
           | |- context [Z.ltb ?x ?y] => destruct (Z.ltb_spec x y); simpl
           end;
    try (rewrite Sub_exact in * by (unfold minDuration, maxDuration,
           Hour, Minute, Second in *; simpl in *; lia));
    unfold Hour, Minute, Second in *; simpl in *;
    intuition (try done; try lia; try (by eexists)).
Qed.

(** The verdict of [timeRange] under a cap [delta]. *)
Lemma timeRange_verdict (r : request) (now : Time) (delta : Duration) :
  Parse "" = None ->
  Hour * 24 < now ->
  let fd := bound Parse (dtstart r) in
  let td := bound Parse (dtend r) in
  let res := timeRange Parse r now delta in
  let malformed :=
    bad_format Parse (dtstart r) \/ bad_format Parse (dtend r) in
  let one_bound := (fd <> 0 /\ td = 0) \/ (fd = 0 /\ td <> 0) in
  let reversed := fd <> 0 /\ td <> 0 /\ td < fd in
  let too_long :=
    0 < delta
    /\ delta < Sub (window Parse r now).2 (window Parse r now).1 in
  (dtstart r = "" -> fd = 0) /\ (dtend r = "" -> td = 0)
  /\ (is_Some res.2 <-> malformed \/ one_bound \/ reversed \/ too_long)
  /\ (~ malformed -> fd = 0 -> td = 0 ->
      delta <= 0 \/ Hour * 24 <= delta ->
      res = (Truncate (Add now (Hour * -24)) Five,
             Truncate (Add now Five) Five, None))
  /\ (delta <= 0 ->
      (is_Some res.2 <-> malformed \/ one_bound \/ reversed)).
Proof.
  intros Hempty Hnow fd td res malformed one_bound reversed too_long.
  pose proof (timeRange_cases r now delta Hnow) as Hcases.
  cbv zeta in Hcases. fold fd td res in Hcases.
  assert (Hwin : (fd = 0 /\ td = 0 ->
                  Sub (window Parse r now).2 (window Parse r now).1
                  = Hour * 24)
                 /\ (~ (fd = 0 /\ td = 0) ->
                     Sub (window Parse r now).2 (window Parse r now).1
                     = Sub td fd)).
  { unfold window. fold fd td. case_bool_decide; simpl; split; try done.
    intros _. rewrite Sub_exact; [lia|].
    unfold minDuration, maxDuration, Hour, Minute, Second. simpl. lia. }
  destruct Hwin as [Hdefault Hgiven].
  assert (Hnone : ~ is_Some (@None InvalidRequestError))
    by (intros [? ?]; done).
  split; [intros Hs; unfold fd, bound; by rewrite Hs, Hempty|].
  split; [intros Hs; unfold td, bound; by rewrite Hs, Hempty|].
  subst malformed one_bound reversed too_long.
  destruct Hcases as [[Hbad Herr]|[(Hok & Hbad & Herr)
    |(Hok1 & Hok2 & [(Hfd & Htd & [[Hcap Herr]|[Hcap Hres]])
       |[[Hone Herr]|(Hfd & Htd & [[Hrej Herr]|[Hacc Hres]])]])]];
    try rewrite Hres; simpl;
    try (rewrite Hdefault by done);
    try (rewrite Hgiven by lia);
    (split; [|split]);
    try tauto; try lia;
    try (intuition (try done; try lia; try tauto)).
Qed.

(** C7, as the code has it.  A bound is there when its parameter parses
    to a time other than the zero Time, which is what [timeRange] tests:
    an empty parameter gives no bound, and neither does one that spells
    the zero Time, 0001-01-01T00:00:00Z.  [timeRange] returns an error
    exactly when a parameter that is not empty is not RFC3339, or
    exactly one bound is there, or both are and the end is before the
    start, or the cap is positive and the span of the window exceeds it
    (the window being the last 24 hours when no bound is there).  With
    no bound and no malformed parameter, under the cap 0 or a cap of 24
    hours or more, it succeeds with the last 24 hours ending now,
    snapped.  Under the cap 0, that of the listing and of the downloads,
    no span is ever refused; the statistics and the gaps run under the
    cap of 24 hours, which the default window meets. *)
Theorem timeRange_rejects (r : request) (now : Time) (delta : Duration) :
  Parse "" = None ->
  Hour * 24 < now ->
  let fd := bound Parse (dtstart r) in
  let td := bound Parse (dtend r) in
  let malformed :=
    bad_format Parse (dtstart r) \/ bad_format Parse (dtend r) in
  let one_bound := (fd <> 0 /\ td = 0) \/ (fd = 0 /\ td <> 0) in
  let reversed := fd <> 0 /\ td <> 0 /\ td < fd in
  let too_long (cap : Duration) :=
    0 < cap /\ cap < Sub (window Parse r now).2 (window Parse r now).1 in
  let default_window :=
    (Truncate (Add now (Hour * -24)) Five, Truncate (Add now Five) Five,
     @None InvalidRequestError) in
  (dtstart r = "" -> fd = 0) /\ (dtend r = "" -> td = 0)
  /\ (is_Some (timeRange Parse r now delta).2
      <-> malformed \/ one_bound \/ reversed \/ too_long delta)
  /\ (~ malformed -> fd = 0 -> td = 0 ->
      delta <= 0 \/ Hour * 24 <= delta ->
      timeRange Parse r now delta = default_window)
  /\ (is_Some (handleStatus_range Parse r now).2
      <-> malformed \/ one_bound \/ reversed \/ too_long (Hour * 24))
  /\ (is_Some (handleGaps_range Parse r now).2
      <-> malformed \/ one_bound \/ reversed \/ too_long (Hour * 24))
  /\ (~ malformed -> fd = 0 -> td = 0 ->
      handleStatus_range Parse r now = default_window
      /\ handleGaps_range Parse r now = default_window
      /\ handleList_range Parse r now = default_window
      /\ handleDownloads_range Parse r now = default_window)
  /\ (is_Some (handleList_range Parse r now).2
      <-> malformed \/ one_bound \/ reversed)
  /\ (is_Some (handleDownloads_range Parse r now).2
      <-> malformed \/ one_bound \/ reversed).
Proof.
  intros Hempty Hnow fd td malformed one_bound reversed too_long
    default_window.
  destruct (timeRange_verdict r now delta Hempty Hnow)
    as (Hs & He & Hiff & Hdef & _).
  destruct (timeRange_verdict r now MaxInterval Hempty Hnow)
    as (_ & _ & Hiff24 & Hdef24 & _).
  destruct (timeRange_verdict r now 0 Hempty Hnow)
    as (_ & _ & _ & Hdef0 & Hiff0).
  unfold handleStatus_range, handleGaps_range, handleList_range,
    handleDownloads_range.
  split; [exact Hs|]. split; [exact He|].
  split; [exact Hiff|]. split; [exact Hdef|].
  split; [exact Hiff24|]. split; [exact Hiff24|].
  split.
  { intros Hok Hfd Htd.
    assert (H24 : MaxInterval <= 0 \/ Hour * 24 <= MaxInterval)
      by (right; reflexivity).
    assert (H0 : 0 <= 0 \/ Hour * 24 <= 0) by (left; reflexivity).
    rewrite (Hdef24 Hok Hfd Htd H24), (Hdef0 Hok Hfd Htd H0). done. }
  split; apply Hiff0; reflexivity.
Qed.

(** C8, as the code has it: on every request it accepts, [timeRange]
    snaps the window outward to 5-minute boundaries: the start returned
    is the greatest multiple of 5 minutes at or before the start of the
    window, and the end returned is the least multiple of 5 minutes
    strictly after the end of the window (the end plus 5 minutes,
    truncated): an end already on a boundary moves to the next one. *)
Theorem timeRange_snaps (r : request) (now : Time) (delta : Duration)
    (fd' td' : Time) :
  Hour * 24 < now ->
  timeRange Parse r now delta = (fd', td', None) ->
  let fd := (window Parse r now).1 in
  let td := (window Parse r now).2 in
  fd' = Truncate fd Five /\ td' = Truncate (Add td Five) Five
  /\ (Five | fd') /\ fd' <= fd < fd' + Five
  /\ (Five | td') /\ td' - Five <= td < td'.
Proof.
  intros Hnow Hres fd td.
  assert (Hnone : ~ is_Some (@None InvalidRequestError))
    by (intros [? ?]; done).
  assert (Hsnap : fd' = Truncate fd Five /\ td' = Truncate (Add td Five) Five).
  { pose proof (timeRange_cases r now delta Hnow) as Hcases.
    cbv zeta in Hcases. rewrite Hres in Hcases. simpl in Hcases.
    subst fd td. unfold window.
    destruct Hcases as [[_ Herr]|[(_ & _ & Herr)
      |(_ & _ & [(Hfd & Htd & [[_ Herr]|[_ Heq]])
         |[[Hone Herr]|(Hfd & Htd & [[_ Herr]|[_ Heq]])]])]];
      try done.
    - rewrite bool_decide_true by done. simpl.
      injection Heq as -> ->. unfold Add. split; f_equal; lia.
    - rewrite bool_decide_false by tauto. simpl.
      by injection Heq as -> ->. }
  destruct Hsnap as [-> ->].
  pose proof (Truncate_Five fd) as (Hd1 & Hr1).
  pose proof (Truncate_Five (Add td Five)) as (Hd2 & Hr2).
  unfold Add in *. repeat split; try done; lia.
Qed.

End TimeRangeFacts.

Section TimeRangeExamples.

Import Distrib.

(** No parameter at all under the 24-hour cap: the last 24 hours; a
    malformed start: refused. *)
Lemma timeRange_rejects_witness :
  rfc3339_sample "" = None /\ Hour * 24 < sample_now
  /\ timeRange rfc3339_sample {| dtstart := ""; dtend := "" |} sample_now MaxInterval
     = (63688068900 * Second, 63688155600 * Second, None)
  /\ is_Some
       (timeRange rfc3339_sample {| dtstart := "soon"; dtend := "" |}
          sample_now MaxInterval).2.
Proof.
  assert (Hempty : rfc3339_sample "" = None) by reflexivity.
  assert (Hnow : Hour * 24 < sample_now) by reflexivity.
  split; [exact Hempty|]. split; [exact Hnow|]. split.
  - destruct (timeRange_rejects rfc3339_sample
                {| dtstart := ""; dtend := "" |} sample_now MaxInterval Hempty Hnow)
      as (_ & _ & _ & Hdefault & _).
    rewrite Hdefault.
    + vm_compute. reflexivity.
    + intros [[Hbad _]|[Hbad _]]; by apply Hbad.
    + reflexivity.
    + reflexivity.
    + right. reflexivity.
  - destruct (timeRange_rejects rfc3339_sample
                {| dtstart := "soon"; dtend := "" |} sample_now MaxInterval
                Hempty Hnow)
      as (_ & _ & Hiff & _).
    apply Hiff. left. left. split; [discriminate|reflexivity].
Defined.

(** The claim as worded fails on a start that spells the zero Time:
    exactly one parameter is supplied, it is valid RFC3339, and the
    request is accepted with the default window; and with that start
    and a valid later end, under no cap, the request is refused. *)
Lemma timeRange_zero_time_counterexample :
  let one := {| dtstart := "0001-01-01T00:00:00Z"; dtend := "" |} in
  let both := {| dtstart := "0001-01-01T00:00:00Z";
                 dtend := "2019-03-14T10:15:00Z" |} in
  (dtstart one <> "" /\ dtend one = ""
   /\ is_Some (rfc3339_sample (dtstart one))
   /\ (timeRange rfc3339_sample one sample_now 0).2 = None)
  /\ (is_Some (rfc3339_sample (dtstart both))
      /\ is_Some (rfc3339_sample (dtend both))
      /\ bound rfc3339_sample (dtstart both)
         <= bound rfc3339_sample (dtend both)
      /\ (timeRange rfc3339_sample both sample_now 0).2
         = Some "both dtstart and dtend should be provided").
Proof.
  repeat split; try discriminate; try (by eexists); by vm_compute.
Qed.

(** Start 10:00:00 and end 10:15:00, both on a boundary. *)
Lemma timeRange_snaps_witness :
  let r := {| dtstart := "2019-03-14T10:00:00Z";
              dtend := "2019-03-14T10:15:00Z" |} in
  Hour * 24 < sample_now
  /\ timeRange rfc3339_sample r sample_now 0
     = (63688154400 * Second, 63688155600 * Second, None)
  /\ (Five | 63688155600 * Second)
  /\ (window rfc3339_sample r sample_now).2 < 63688155600 * Second.
Proof.
  intros r.
  assert (Hnow : Hour * 24 < sample_now) by reflexivity.
  assert (Hres : timeRange rfc3339_sample r sample_now 0
                 = (63688154400 * Second, 63688155600 * Second, None))
    by (vm_compute; reflexivity).
  destruct (timeRange_snaps rfc3339_sample r sample_now 0 _ _ Hnow Hres)
    as (_ & _ & _ & _ & Hdiv & _ & Hlt).
  split; [exact Hnow|]. split; [exact Hres|]. split; [exact Hdiv|exact Hlt].
Defined.

(** The claim as worded fails on that request: the end 10:15:00 is
    itself a multiple of 5 minutes, so the least multiple at or after it
    is 10:15:00, and the end returned is 10:20:00. *)
Lemma timeRange_end_counterexample :
  ~ (forall (Parse : string -> option Time) (r : request) (now : Time)
            (delta : Duration) (fd' td' : Time),
       Hour * 24 < now ->
       timeRange Parse r now delta = (fd', td', None) ->
       (Five | td')
       /\ (window Parse r now).2 <= td' < (window Parse r now).2 + Five).
Proof.
  intros Hclaim.
  destruct (Hclaim rfc3339_sample
              {| dtstart := "2019-03-14T10:00:00Z";
                 dtend := "2019-03-14T10:15:00Z" |}
              sample_now 0 (63688154400 * Second) (63688155600 * Second))
    as (_ & _ & Hlt); [reflexivity|by vm_compute|].
  vm_compute in Hlt. discriminate Hlt.
Qed.

End TimeRangeExamples.

(** * Further properties *)

(** ** The body sum, further *)

Section CalculateSumMore.

Import Vmudump.

(** What [calculateSum] returns on a body of at least 4 bytes. *)
Lemma calculateSum_Ret (body : list byte) :
  (4 <= length body)%nat ->
  calculateSum body
  = Ret (wrap 32 (byte_sum (take (length body - 4) body)),
         if bool_decide (le_value (drop (length body - 4) body)
                         = wrap 32 (byte_sum (take (length body - 4) body)))
         then unknown else invalid).
Proof.
  intros Hlen. unfold calculateSum.
  set (limit := Z.of_nat (length body) - 4).
  assert (Hlimit : 0 <= limit) by (unfold limit; lia).
  change 0 with (wrap 32 (prefix_sum body 0)) at 2.
  rewrite block_loop_Ret by (unfold limit; lia).
  unfold mbind at 1, go_bind at 1.
  rewrite Z.add_0_l, Z.sub_0_r.
  rewrite scalar_loop_Ret by (unfold limit in *; modlia).
  unfold mbind at 1, go_bind at 1.
  rewrite slice_from_Ret by (unfold limit; lia).
  unfold mbind at 1, go_bind at 1.
  unfold prefix_sum.
  replace (Z.to_nat limit) with (length body - 4)%nat by (unfold limit; lia).
  assert (Hd : length (drop (length body - 4) body) = 4%nat)
    by (rewrite length_drop; lia).
  destruct (drop (length body - 4) body) as [|b0 [|b1 [|b2 [|b3 rest]]]];
    simpl in Hd; try lia.
  destruct rest; [|simpl in Hd; lia].
  rewrite le_uint32_value. reflexivity.
Qed.

Lemma byte_sum_Permutation (l k : list byte) :
  l ≡ₚ k -> byte_sum l = byte_sum k.
Proof.
  unfold byte_sum, Zsum.
  induction 1 as [|b l k _ IH|b c l|l k m _ IH1 _ IH2]; simpl; lia.
Qed.

Lemma u8_inj (b c : byte) : u8 b = u8 c -> b = c.
Proof.
  unfold u8. intros Heq. apply N2Z.inj in Heq.
  pose proof (Byte.of_to_N b) as Hb. pose proof (Byte.of_to_N c) as Hc.
  rewrite Heq in Hb. congruence.
Qed.

(** X1: the sum does not see the order of the bytes: two bodies whose
    bytes before the 4-byte trailer are a rearrangement of one another,
    with the same trailer, get the same sum and the same marker. *)
Theorem calculateSum_order (data data' trailer : list byte) :
  length trailer = 4%nat ->
  data ≡ₚ data' ->
  calculateSum (data ++ trailer) = calculateSum (data' ++ trailer).
Proof.
  intros Htrailer Hperm.
  assert (Hlen : length data' = length data) by (by rewrite Hperm).
  rewrite !calculateSum_Ret by (rewrite length_app; lia).
  rewrite !length_app, Htrailer, Hlen.
  replace (length data + 4 - 4)%nat with (length data) by lia.
  rewrite (take_app_length' data trailer), (drop_app_length' data trailer),
    (take_app_length' data' trailer), (drop_app_length' data' trailer)
    by done.
  by rewrite (byte_sum_Permutation _ _ Hperm).
Qed.

(** Three bytes and their reversal, before the trailer 6. *)
Lemma calculateSum_order_witness :
  let trailer := map byte_of [6; 0; 0; 0]%N in
  length trailer = 4%nat
  /\ map byte_of [1; 2; 3]%N ≡ₚ map byte_of [3; 2; 1]%N
  /\ calculateSum (map byte_of [1; 2; 3]%N ++ trailer)
     = calculateSum (map byte_of [3; 2; 1]%N ++ trailer).
Proof.
  intros trailer.
  assert (Hlen : length trailer = 4%nat) by reflexivity.
  assert (Hperm : map byte_of [1; 2; 3]%N ≡ₚ map byte_of [3; 2; 1]%N).
  { symmetry. exact (reverse_Permutation (map byte_of [1; 2; 3]%N)). }
  split; [exact Hlen|]. split; [exact Hperm|].
  exact (calculateSum_order _ _ trailer Hlen Hperm).
Defined.

(** X2: a body that checks stops checking when any one byte before the
    trailer is given another value; the sum moves by the difference of
    the two values. *)
Theorem calculateSum_mutation (body : list byte) (i : nat) (b b' : byte)
    (sum : Z) :
  (i < length body - 4)%nat ->
  body !! i = Some b ->
  b' <> b ->
  calculateSum body = Ret (sum, unknown) ->
  calculateSum (<[i := b']> body)
  = Ret (wrap 32 (sum + u8 b' - u8 b), invalid).
Proof.
  intros Hi Hb Hne Hvalid.
  assert (Hlen : (4 <= length body)%nat) by lia.
  rewrite calculateSum_Ret in Hvalid by done.
  rewrite calculateSum_Ret by (by rewrite length_insert).
  rewrite length_insert.
  set (n := (length body - 4)%nat) in *.
  assert (Hdrop : drop n (<[i := b']> body) = drop n body)
    by (apply drop_insert_lt; lia).
  set (A := take i (take n body)).
  set (B := drop (S i) (take n body)).
  assert (Hsplit : take n body = A ++ b :: B).
  { symmetry. apply take_drop_middle. by rewrite lookup_take_lt. }
  assert (Htake : take n (<[i := b']> body) = A ++ b' :: B).
  { rewrite take_insert_lt by done. rewrite Hsplit.
    rewrite insert_app_r_alt; unfold A; rewrite length_take, length_take;
      [|lia].
    replace (i - i `min` (n `min` length body))%nat with 0%nat by lia.
    done. }
  rewrite Hdrop, Htake. rewrite Hsplit in Hvalid.
  assert (Hcons : forall c l, byte_sum (c :: l) = u8 c + byte_sum l)
    by reflexivity.
  rewrite byte_sum_app, Hcons in Hvalid |- *.
  set (total := byte_sum A + (u8 b + byte_sum B)) in *.
  replace (byte_sum A + (u8 b' + byte_sum B))
    with (total + u8 b' - u8 b) by (unfold total; lia).
  case_bool_decide as Hstored; [|discriminate Hvalid].
  injection Hvalid as <-.
  assert (Hmove : wrap 32 (total + u8 b' - u8 b) <> wrap 32 total).
  { pose proof (u8_range b). pose proof (u8_range b').
    assert (u8 b' <> u8 b) by (intros Heq; by apply Hne, u8_inj).
    unfold wrap. change (2 ^ 32) with 4294967296. modlia. }
  rewrite bool_decide_false by congruence.
  do 2 f_equal. unfold wrap. change (2 ^ 32) with 4294967296. modlia.
Qed.

(** The body 1, 2, 3 with trailer 6 checks; with 9 for the 2 it does
    not, and the sum is 13. *)
Lemma calculateSum_mutation_witness :
  let body := map byte_of [1; 2; 3; 6; 0; 0; 0]%N in
  calculateSum body = Ret (6, unknown)
  /\ calculateSum (<[1%nat := byte_of 9]> body) = Ret (13, invalid).
Proof.
  intros body.
  assert (Hvalid : calculateSum body = Ret (6, unknown))
    by (vm_compute; reflexivity).
  split; [exact Hvalid|].
  rewrite (calculateSum_mutation body 1 (byte_of 2) (byte_of 9) 6);
    [vm_compute; reflexivity|simpl; lia|reflexivity
    |discriminate|exact Hvalid].
Defined.

(** X3: a body of fewer than 4 bytes has no room for the trailer:
    [calculateSum] panics on [body[limit:]] with a negative [limit]. *)
Theorem calculateSum_short (body : list byte) :
  (length body < 4)%nat -> calculateSum body = Panic.
Proof.
  intros Hlen.
  do 4 (destruct body as [|? body]; [reflexivity|]).
  simpl in Hlen. lia.
Qed.

Lemma calculateSum_short_witness :
  (length (map byte_of [1; 2; 3]%N) < 4)%nat
  /\ calculateSum (map byte_of [1; 2; 3]%N) = Panic.
Proof.
  assert (Hlen : (length (map byte_of [1; 2; 3]%N) < 4)%nat)
    by (simpl; lia).
  split; [exact Hlen|]. exact (calculateSum_short _ Hlen).
Defined.

End CalculateSumMore.

(** ** The header decoders, further *)

Section DecodersMore.

Import Vmudump.

Lemma le_value_range (l : list byte) :
  0 <= le_value l < 256 ^ Z.of_nat (length l).
Proof.
  induction l as [|b l IH]; [done|].
  change (le_value (b :: l)) with (u8 b + 256 * le_value l).
  rewrite length_cons, Nat2Z.inj_succ, Z.pow_succ_r by lia.
  pose proof (u8_range b). nia.
Qed.

Lemma be_value_range (l : list byte) :
  0 <= be_value l < 256 ^ Z.of_nat (length l).
Proof.
  unfold be_value. rewrite <- (length_reverse l). apply le_value_range.
Qed.

Lemma take_take_drop_length (body : list byte) (k off : nat) :
  (off + k <= length body)%nat -> length (take k (drop off body)) = k.
Proof. intros Hlen. rewrite length_take, length_drop. lia. Qed.

Lemma take_drop_take (l : list byte) (off k n : nat) :
  (off + k <= n)%nat -> take k (drop off (take n l)) = take k (drop off l).
Proof.
  intros Hn. apply list_eq. intros i.
  destruct (decide (i < k)%nat) as [Hi|Hi].
  - rewrite !lookup_take_lt, !lookup_drop by done.
    by rewrite lookup_take_lt by lia.
  - by rewrite !lookup_take_ge by lia.
Qed.

(** X4: [decodeHRDL] on a slice of at least 18 bytes never fails and
    reads the first 18 bytes only: the size little-endian from offset 0,
    the error flags and the two coarse times big-endian from offsets 4,
    8 and 13, the payload byte at offset 6 before the channel byte at
    offset 7, the fine times at offsets 12 and 17; every field fits the
    width of its type. *)
Theorem decodeHRDL_layout (body : list byte) :
  (18 <= length body)%nat ->
  exists h : HRDLHeader,
    decodeHRDL body = Ret (h, None)
    /\ decodeHRDL (take 18 body) = Ret (h, None)
    /\ hrdl_Size h = le_value (take 4 body)
    /\ hrdl_Error h = be_value (take 2 (drop 4 body))
    /\ hrdl_Payload h = u8 (default Byte.x00 (body !! 6%nat))
    /\ hrdl_Channel h = u8 (default Byte.x00 (body !! 7%nat))
    /\ hrdl_PacketCoarse h = be_value (take 4 (drop 8 body))
    /\ hrdl_PacketFine h = u8 (default Byte.x00 (body !! 12%nat))
    /\ hrdl_HRDPCoarse h = be_value (take 4 (drop 13 body))
    /\ hrdl_HRDPFine h = u8 (default Byte.x00 (body !! 17%nat))
    /\ 0 <= hrdl_Size h < 2 ^ 32 /\ 0 <= hrdl_Error h < 2 ^ 16
    /\ 0 <= hrdl_Payload h < 2 ^ 8 /\ 0 <= hrdl_Channel h < 2 ^ 8
    /\ 0 <= hrdl_PacketCoarse h < 2 ^ 32 /\ 0 <= hrdl_PacketFine h < 2 ^ 8
    /\ 0 <= hrdl_HRDPCoarse h < 2 ^ 32 /\ 0 <= hrdl_HRDPFine h < 2 ^ 8.
Proof.
  intros Hlen. eexists. split; [by apply decodeHRDL_Ret|].
  split.
  { rewrite decodeHRDL_Ret by (rewrite length_take; lia).
    rewrite take_take, !lookup_take_lt by lia.
    rewrite !take_drop_take by lia. reflexivity. }
  simpl.
  pose proof (le_value_range (take 4 body)) as H0.
  pose proof (be_value_range (take 2 (drop 4 body))) as H4.
  pose proof (be_value_range (take 4 (drop 8 body))) as H8.
  pose proof (be_value_range (take 4 (drop 13 body))) as H13.
  rewrite length_take_le in H0 by lia.
  rewrite take_take_drop_length in H4, H8, H13 by lia.
  pose proof (u8_range (default Byte.x00 (body !! 6%nat))).
  pose proof (u8_range (default Byte.x00 (body !! 7%nat))).
  pose proof (u8_range (default Byte.x00 (body !! 12%nat))).
  pose proof (u8_range (default Byte.x00 (body !! 17%nat))).
  repeat split; try done; try lia.
Qed.

Lemma decodeHRDL_layout_witness :
  let body := map byte_of [4; 3; 2; 1; 1; 2; 9; 7; 0; 0; 1; 0; 5;
                           0; 0; 2; 0; 6; 255; 255]%N in
  (18 <= length body)%nat
  /\ exists h, decodeHRDL body = Ret (h, None)
               /\ hrdl_Size h = 16909060 /\ hrdl_Error h = 258
               /\ hrdl_Payload h = 9 /\ hrdl_Channel h = 7.
Proof.
  intros body.
  assert (Hlen : (18 <= length body)%nat) by (simpl; lia).
  split; [exact Hlen|].
  destruct (decodeHRDL_layout body Hlen)
    as (h & Hh & _ & Hsize & Herr & Hpay & Hchan & _).
  exists h. split; [exact Hh|].
  rewrite Hsize, Herr, Hpay, Hchan. by vm_compute.
Defined.

(** X5: [decodeVMU] reads offsets 4 to 9 and 12 to 21 only, every
    number little-endian: it never fails on a slice of at least 22
    bytes, two bytes short of the 24 bytes of the header; the first four
    bytes, offsets 10 and 11 and everything from offset 22 on play no
    part, so that two slices that agree on the offsets read decode
    alike; every field fits the width of its type. *)
Theorem decodeVMU_layout (body : list byte) :
  (22 <= length body)%nat ->
  exists v : VMUHeader,
    decodeVMU body = Ret (v, None)
    /\ vmu_Size v = le_value (take 4 (drop 4 body))
    /\ vmu_Channel v = u8 (default Byte.x00 (body !! 8%nat))
    /\ vmu_Origin v = u8 (default Byte.x00 (body !! 9%nat))
    /\ vmu_Sequence v = le_value (take 4 (drop 12 body))
    /\ vmu_Coarse v = le_value (take 4 (drop 16 body))
    /\ vmu_Fine v = le_value (take 2 (drop 20 body))
    /\ 0 <= vmu_Size v < 2 ^ 32 /\ 0 <= vmu_Channel v < 2 ^ 8
    /\ 0 <= vmu_Origin v < 2 ^ 8 /\ 0 <= vmu_Sequence v < 2 ^ 32
    /\ 0 <= vmu_Coarse v < 2 ^ 32 /\ 0 <= vmu_Fine v < 2 ^ 16
    /\ (forall body' : list byte,
          (22 <= length body')%nat ->
          take 6 (drop 4 body') = take 6 (drop 4 body) ->
          take 10 (drop 12 body') = take 10 (drop 12 body) ->
          decodeVMU body' = Ret (v, None)).
Proof.
  intros Hlen. eexists. split; [by apply decodeVMU_Ret|]. simpl.
  pose proof (le_value_range (take 4 (drop 4 body))) as H4.
  pose proof (le_value_range (take 4 (drop 12 body))) as H12.
  pose proof (le_value_range (take 4 (drop 16 body))) as H16.
  pose proof (le_value_range (take 2 (drop 20 body))) as H20.
  rewrite take_take_drop_length in H4, H12, H16, H20 by lia.
  pose proof (u8_range (default Byte.x00 (body !! 8%nat))).
  pose proof (u8_range (default Byte.x00 (body !! 9%nat))).
  do 6 (split; [done|]). do 6 (split; [lia|]).
  intros body' Hlen' Hhead Htail.
  rewrite decodeVMU_Ret by done.
  assert (Hbyte : forall (l : list byte) (off k i : nat),
            (i < k)%nat -> take k (drop off l) !! i = l !! (off + i)%nat)
    by (intros l off k i Hi; by rewrite lookup_take_lt, lookup_drop).
  assert (Hsub : forall (l : list byte) (off k j m : nat),
            (j + m <= k)%nat ->
            take m (drop (off + j) l) = take m (drop j (take k (drop off l)))).
  { intros l off k j m Hjm. rewrite take_drop_take by lia.
    by rewrite drop_drop. }
  assert (Hread :
    take 4 (drop 4 body') = take 4 (drop 4 body)
    /\ body' !! 8%nat = body !! 8%nat /\ body' !! 9%nat = body !! 9%nat
    /\ take 4 (drop 12 body') = take 4 (drop 12 body)
    /\ take 4 (drop 16 body') = take 4 (drop 16 body)
    /\ take 2 (drop 20 body') = take 2 (drop 20 body)).
  { pose proof (Hsub body' 4 6 0 4)%nat as E1.
    pose proof (Hsub body 4 6 0 4)%nat as E1'.
    pose proof (Hbyte body' 4 6 4)%nat as E2.
    pose proof (Hbyte body 4 6 4)%nat as E2'.
    pose proof (Hbyte body' 4 6 5)%nat as E3.
    pose proof (Hbyte body 4 6 5)%nat as E3'.
    pose proof (Hsub body' 12 10 0 4)%nat as E4.
    pose proof (Hsub body 12 10 0 4)%nat as E4'.
    pose proof (Hsub body' 12 10 4 4)%nat as E5.
    pose proof (Hsub body 12 10 4 4)%nat as E5'.
    pose proof (Hsub body' 12 10 8 2)%nat as E6.
    pose proof (Hsub body 12 10 8 2)%nat as E6'.
    cbn [Nat.add] in *.
    rewrite E1, E1', <- E2, <- E2', <- E3, <- E3', E4, E4', E5, E5', E6, E6',
      Hhead, Htail by lia.
    done. }
  destruct Hread as (-> & -> & -> & -> & -> & ->).
  done.
Qed.

Lemma decodeVMU_layout_witness :
  let body := map byte_of [0; 0; 0; 0; 100; 0; 0; 0; 2; 51; 0; 0;
                           11; 0; 0; 0; 1; 0; 0; 0; 7; 0]%N in
  (22 <= length body)%nat
  /\ exists v, decodeVMU body = Ret (v, None)
               /\ vmu_Size v = 100 /\ vmu_Channel v = 2
               /\ vmu_Sequence v = 11 /\ vmu_Fine v = 7.
Proof.
  intros body.
  assert (Hlen : (22 <= length body)%nat) by (simpl; lia).
  split; [exact Hlen|].
  destruct (decodeVMU_layout body Hlen)
    as (v & Hv & Hsize & Hchan & _ & Hseq & _ & Hfine & _).
  exists v. split; [exact Hv|].
  rewrite Hsize, Hchan, Hseq, Hfine. by vm_compute.
Defined.

End DecodersMore.

(** ** The packet dumper, further *)

Section DumpPacketMore.

Import Vmudump.

(** Case analysis on the calls of a monadic chain that returned. *)
Ltac go_cases H :=
  unfold mbind, go_bind in H;
  repeat match type of H with
         | context [match ?x with _ => _ end] =>
             destruct x eqn:?; try discriminate H; cbn beta iota in H
         end.

Lemma decodeHRDL_no_error (body : list byte) h err :
  decodeHRDL body = Ret (h, err) -> err = None.
Proof. unfold decodeHRDL. intros H. go_cases H. congruence. Qed.

Lemma decodeVMU_no_error (body : list byte) v err :
  decodeVMU body = Ret (v, err) -> err = None.
Proof. unfold decodeVMU. intros H. go_cases H. congruence. Qed.

Lemma decodeCommon_no_error (body : list byte) c err :
  decodeCommon body = Ret (c, err) -> err = None.
Proof. unfold decodeCommon. intros H. go_cases H. congruence. Qed.

Lemma decodeCommon_Panic (body : list byte) :
  (length body < 24)%nat -> decodeCommon body = Panic.
Proof.
  intros Hlen.
  do 24 (destruct body as [|? body]; [reflexivity|]).
  simpl in Hlen. lia.
Qed.

(** What a call of [dumpPacket] that returns has done, by the error it
    returns. *)
Lemma dumpPacket_shape (w w' : world) (body : list byte) (digest n : Z)
    (withErr : bool) (err : option error) :
  dumpPacket w body digest withErr = Ret (w', (n, err)) ->
  match err with
  | Some (ErrShort _) => w' = w /\ n = 0
  | Some ErrInvalid =>
      if withErr
      then exists r, stdout w' = stdout w ++ [r] /\ row_bad r = invalid
                     /\ n = to_int64 (row_size r) /\ row_digest r = digest
      else w' = w /\ n = 0
  | None =>
      exists r, stdout w' = stdout w ++ [r] /\ row_bad r = unknown
                /\ n = to_int64 (row_size r) /\ row_digest r = digest
  end.
Proof.
  unfold dumpPacket. intros H.
  destruct (Z.of_nat (length body) <? HRDLHeaderLen + VMUHeaderLen);
    [injection H as <- <- <-; done|].
  destruct (slice body 0 HRDLHeaderLen) as [hb| |] eqn:Hhb;
    try discriminate H.
  unfold mbind at 1, go_bind at 1 in H.
  destruct (decodeHRDL hb) as [[h eh]| |] eqn:Hh; try discriminate H.
  rewrite (decodeHRDL_no_error _ _ _ Hh) in H.
  unfold mbind at 1, go_bind at 1 in H.
  destruct (slice body HRDLHeaderLen (HRDLHeaderLen + VMUHeaderLen))
    as [vb| |] eqn:Hvb; try discriminate H.
  unfold mbind at 1, go_bind at 1 in H.
  destruct (decodeVMU vb) as [[v ev]| |] eqn:Hv; try discriminate H.
  rewrite (decodeVMU_no_error _ _ _ Hv) in H.
  unfold mbind at 1, go_bind at 1 in H.
  destruct (Z.of_nat (length body) - HRDLHeaderLen - 12
            <? to_int64 (vmu_Size v));
    [injection H as <- <- <-; done|].
  destruct (slice_from body (HRDLHeaderLen + VMUHeaderLen))
    as [cb| |] eqn:Hcb; try discriminate H.
  unfold mbind at 1, go_bind at 1 in H.
  destruct (decodeCommon cb) as [[c ec]| |] eqn:Hc; try discriminate H.
  rewrite (decodeCommon_no_error _ _ _ Hc) in H.
  unfold mbind at 1, go_bind at 1 in H.
  destruct (slice body (HRDLHeaderLen + 8)
              (HRDLHeaderLen + 8 + to_int64 (vmu_Size v) + 4))
    as [sb| |] eqn:Hsb; try discriminate H.
  unfold mbind at 1, go_bind at 1 in H.
  destruct (calculateSum sb) as [[sum bad]| |] eqn:Hsum; try discriminate H.
  unfold mbind at 1, go_bind at 1 in H.
  destruct bad, withErr; simpl in H;
    try (injection H as <- <- <-; done);
    (destruct (userInfo (upiBuffer w) (com_UPI c)) as [[buf info]| |];
     try discriminate H; unfold mbind, go_bind in H;
     injection H as <- <- <-; eexists; simpl; done).
Qed.

(** X6: a call of [dumpPacket] that returns has written exactly one row
    or nothing.  With no error one row is written, marked valid, and the
    size returned is the size of the row.  With a short-buffer error
    nothing is written and 0 is returned.  With [ErrInvalid], when
    invalid packets are included the row is written all the same,
    marked invalid, and its size returned; when they are not, nothing is
    written and 0 is returned.  The decoders' errors are never seen. *)
Theorem dumpPacket_writes (w w' : world) (body : list byte) (digest n : Z)
    (withErr : bool) (err : option error) :
  dumpPacket w body digest withErr = Ret (w', (n, err)) ->
  (err = None ->
   exists r, stdout w' = stdout w ++ [r] /\ row_bad r = unknown
             /\ n = to_int64 (row_size r) /\ row_digest r = digest)
  /\ (forall e, err = Some (ErrShort e) -> w' = w /\ n = 0)
  /\ (err = Some ErrInvalid -> withErr = true ->
      exists r, stdout w' = stdout w ++ [r] /\ row_bad r = invalid
                /\ n = to_int64 (row_size r) /\ row_digest r = digest)
  /\ (err = Some ErrInvalid -> withErr = false -> w' = w /\ n = 0)
  /\ (length (stdout w) <= length (stdout w') <= length (stdout w) + 1)%nat.
Proof.
  intros Hret. pose proof (dumpPacket_shape _ _ _ _ _ _ _ Hret) as Hshape.
  split; [intros ->; exact Hshape|].
  split; [intros e ->; exact Hshape|].
  split; [intros -> ->; exact Hshape|].
  split; [intros -> ->; exact Hshape|].
  destruct err as [[e|]|]; [| destruct withErr |];
    try (destruct Hshape as [-> _]; lia);
    (destruct Hshape as (r & -> & _); rewrite length_app; simpl; lia).
Qed.

Lemma dumpPacket_writes_witness :
  let w := {| stdout := []; upiBuffer := zeroUPI |} in
  let body := replicate 66 Byte.x00 in
  exists w', dumpPacket w body 5 false = Ret (w', (0, None))
             /\ length (stdout w') = 1%nat.
Proof.
  intros w body.
  assert (Hret : exists w',
            dumpPacket w body 5 false = Ret (w', (0, None))).
  { eexists. vm_compute. reflexivity. }
  destruct Hret as [w' Hret]. exists w'. split; [exact Hret|].
  destruct (dumpPacket_writes _ _ _ _ _ _ _ Hret) as ((r & Hout & _) & _);
    [reflexivity|].
  rewrite Hout. reflexivity.
Defined.

End DumpPacketMore.

Section DumpPacketBounds.

Import Vmudump.

Lemma to_int64_uint32 (z : Z) : 0 <= z < 2 ^ 32 -> to_int64 z = z.
Proof.
  intros Hz. unfold to_int64.
  change (2 ^ 32) with 4294967296 in Hz.
  change (2 ^ 63) with 9223372036854775808.
  change (2 ^ 64) with 18446744073709551616. modlia.
Qed.

(** The first steps of [dumpPacket] on an input that holds the two
    headers: the headers decode, and the size declared is read
    little-endian at offset 22. *)
Lemma dumpPacket_headers (w : world) (body : list byte) (digest : Z)
    (withErr : bool) :
  (42 <= length body)%nat ->
  exists h v,
    decodeHRDL (take 18 body) = Ret (h, None)
    /\ decodeVMU (take 24 (drop 18 body)) = Ret (v, None)
    /\ vmu_Size v = declared_size body
    /\ to_int64 (vmu_Size v) = declared_size body
    /\ 0 <= declared_size body < 2 ^ 32
    /\ dumpPacket w body digest withErr
       = let len := Z.of_nat (length body) in
         if len - 30 <? declared_size body then
           Ret (w, (0, Some (NotEnoughByte (declared_size body + 12)
                               (len - 18))))
         else
           cb ← slice_from body 42;
           '(c, err) ← decodeCommon cb;
           if err is Some e then Ret (w, (0, Some e)) else
           sb ← slice body 26 (26 + declared_size body + 4);
           '(sum, bad) ← calculateSum sb;
           if is_invalid bad && negb withErr then
             Ret (w, (0, Some ErrInvalid))
           else
           '(buf, info) ← userInfo (upiBuffer w) (com_UPI c);
           let line := {| row_size := vmu_Size v; row_error := hrdl_Error h;
                          row_vmutime := (vmu_Coarse v, vmu_Fine v);
                          row_sequence := vmu_Sequence v;
                          row_mode := whichMode (vmu_Origin v) (com_Origin c);
                          row_channel := whichChannel (vmu_Channel v);
                          row_origin := com_Origin c;
                          row_acqtime := com_AcqTime c;
                          row_counter := com_Counter c;
                          row_upi := info; row_sum := sum; row_bad := bad;
                          row_digest := digest |} in
           let w := {| stdout := stdout w ++ [line]; upiBuffer := buf |} in
           Ret (w, (declared_size body,
                    if is_invalid bad then Some ErrInvalid else None)).
Proof.
  intros Hlen.
  assert (Hh : decodeHRDL (take 18 body)
               = Ret (_, None)) by (apply decodeHRDL_Ret; rewrite length_take; lia).
  assert (Hv : decodeVMU (take 24 (drop 18 body)) = Ret (_, None))
    by (apply decodeVMU_Ret; rewrite length_take, length_drop; lia).
  eexists _, _. split; [exact Hh|]. split; [exact Hv|].
  assert (Hsize : le_value (take 4 (drop 4 (take 24 (drop 18 body))))
                  = declared_size body).
  { unfold declared_size. rewrite take_drop_take by lia.
    by rewrite drop_drop. }
  assert (Hrange : 0 <= declared_size body < 2 ^ 32).
  { unfold declared_size.
    pose proof (le_value_range (take 4 (drop 22 body))) as Hr.
    rewrite take_take_drop_length in Hr by lia. exact Hr. }
  simpl. split; [exact Hsize|].
  split; [rewrite Hsize; by apply to_int64_uint32|].
  split; [exact Hrange|].
  unfold dumpPacket.
  destruct (Z.ltb_spec (Z.of_nat (length body))
              (HRDLHeaderLen + VMUHeaderLen)) as [Hlt|_];
    [unfold HRDLHeaderLen, VMUHeaderLen in Hlt; lia|].
  rewrite (slice_Ret body 0 HRDLHeaderLen) by (unfold HRDLHeaderLen; lia).
  unfold mbind at 1, go_bind at 1.
  change (Z.to_nat (HRDLHeaderLen - 0)) with 18%nat.
  change (Z.to_nat 0) with 0%nat. rewrite drop_0, Hh.
  unfold mbind at 1, go_bind at 1.
  rewrite (slice_Ret body HRDLHeaderLen (HRDLHeaderLen + VMUHeaderLen))
    by (unfold HRDLHeaderLen, VMUHeaderLen; lia).
  unfold mbind at 1, go_bind at 1.
  change (Z.to_nat (HRDLHeaderLen + VMUHeaderLen - HRDLHeaderLen))
    with 24%nat.
  change (Z.to_nat HRDLHeaderLen) with 18%nat. rewrite Hv.
  unfold mbind at 1, go_bind at 1. cbn [vmu_Size].
  rewrite Hsize, (to_int64_uint32 _ Hrange).
  unfold HRDLHeaderLen, VMUHeaderLen.
  replace (Z.of_nat (length body) - 18 - 12)
    with (Z.of_nat (length body) - 30) by lia.
  replace (Z.of_nat (length body) - 30 + 12)
    with (Z.of_nat (length body) - 18) by lia.
  reflexivity.
Qed.

(** X7: an input that holds the two headers but declares more bytes than
    it has is refused with a short-buffer error that wants the declared
    size plus 12 and got the length less the 18 bytes of the HRDL
    header; nothing is written. *)
Theorem dumpPacket_declared_size (w : world) (body : list byte)
    (digest : Z) (withErr : bool) :
  (42 <= length body)%nat ->
  Z.of_nat (length body) - 30 < declared_size body ->
  dumpPacket w body digest withErr
  = Ret (w, (0, Some (ErrShort
                        {| Want := declared_size body + 12;
                           Got := Z.of_nat (length body) - 18 |}))).
Proof.
  intros Hlen Hsize.
  destruct (dumpPacket_headers w body digest withErr Hlen)
    as (h & v & _ & _ & _ & _ & _ & ->).
  cbv zeta.
  destruct (Z.ltb_spec (Z.of_nat (length body) - 30) (declared_size body));
    [done|lia].
Qed.

(** 42 bytes that declare a size of 100. *)
Lemma dumpPacket_declared_size_witness :
  let w := {| stdout := []; upiBuffer := zeroUPI |} in
  let body := replicate 22 Byte.x00 ++ [byte_of 100]
              ++ replicate 19 Byte.x00 in
  (42 <= length body)%nat
  /\ dumpPacket w body 0 true
     = Ret (w, (0, Some (ErrShort {| Want := 112; Got := 24 |}))).
Proof.
  intros w body.
  assert (Hlen : (42 <= length body)%nat) by (vm_compute; lia).
  split; [exact Hlen|].
  rewrite (dumpPacket_declared_size w body 0 true Hlen);
    [reflexivity|vm_compute; reflexivity].
Defined.

(** X8: an input of 42 to 65 bytes whose declared size fits panics: the
    common header is decoded from what follows the two headers, less
    than its 24 bytes, with no check of the length. *)
Theorem dumpPacket_common_panic (w : world) (body : list byte)
    (digest : Z) (withErr : bool) :
  (42 <= length body < 66)%nat ->
  declared_size body <= Z.of_nat (length body) - 30 ->
  dumpPacket w body digest withErr = Panic.
Proof.
  intros Hlen Hsize.
  destruct (dumpPacket_headers w body digest withErr)
    as (h & v & _ & _ & _ & _ & _ & ->); [lia|].
  cbv zeta.
  destruct (Z.ltb_spec (Z.of_nat (length body) - 30) (declared_size body));
    [lia|].
  rewrite slice_from_Ret by lia. unfold mbind at 1, go_bind at 1.
  rewrite decodeCommon_Panic; [done|].
  rewrite length_drop. lia.
Qed.

(** 42 zero bytes: the two headers and nothing else. *)
Lemma dumpPacket_common_panic_witness :
  let w := {| stdout := []; upiBuffer := zeroUPI |} in
  let body := replicate 42 Byte.x00 in
  (42 <= length body < 66)%nat
  /\ declared_size body <= Z.of_nat (length body) - 30
  /\ dumpPacket w body 0 false = Panic.
Proof.
  intros w body.
  assert (Hlen : (42 <= length body < 66)%nat) by (vm_compute; lia).
  assert (Hsize : declared_size body <= Z.of_nat (length body) - 30)
    by (vm_compute; discriminate).
  split; [exact Hlen|]. split; [exact Hsize|].
  exact (dumpPacket_common_panic w body 0 false Hlen Hsize).
Defined.

End DumpPacketBounds.

(** ** The user info, further *)

Section UserInfoMore.

Import Vmudump.

(** The loop of [userInfo] writes the shared buffer below the count it
    returns and nowhere else. *)
Lemma userInfo_loop_rest (fuel : nat) (upi buf buf' : list byte)
    (i n n' : Z) :
  0 <= n ->
  userInfo_loop fuel upi buf i n = Ret (buf', n') ->
  n <= n' /\ length buf' = length buf
  /\ drop (Z.to_nat n') buf' = drop (Z.to_nat n') buf.
Proof.
  revert buf i n. induction fuel as [|fuel IH]; intros buf i n Hn Hloop;
    simpl in Hloop.
  - destruct (i <? UPILen); [discriminate|].
    injection Hloop as <- <-. split; [lia|done].
  - destruct (i <? UPILen); [|injection Hloop as <- <-; split; [lia|done]].
    destruct (index upi i) as [b| |]; try discriminate Hloop.
    unfold mbind at 1, go_bind at 1 in Hloop.
    destruct (shouldKeepRune (u8 b)) as [keep done'].
    destruct done'; [injection Hloop as <- <-; split; [lia|done]|].
    destruct keep; simpl in Hloop; [|by apply IH in Hloop].
    unfold store in Hloop.
    destruct ((n <? 0) || (Z.of_nat (length buf) <=? n));
      [discriminate|].
    unfold mbind, go_bind in Hloop.
    apply IH in Hloop as (Hle & Hlen & Hdrop); [|lia].
    rewrite length_insert in Hlen. split; [lia|]. split; [done|].
    rewrite Hdrop. apply drop_insert_lt. lia.
Qed.

(** What [userInfo] returns and what it leaves in the shared buffer. *)
Lemma userInfo_Ret (upiBuffer upi : list byte) :
  Z.of_nat (length upi) = UPILen -> Z.of_nat (length upiBuffer) = UPILen ->
  userInfo upiBuffer upi
  = Ret (keep_prefix upi ++ drop (length (keep_prefix upi)) upiBuffer,
         keep_prefix upi).
Proof.
  intros Hupi Hbuf.
  destruct (userInfo_loop_Ret (S (Z.to_nat UPILen)) upi upiBuffer 0)
    as (buf & Hloop & Hlen & Hkept & _); [done|done|done|lia|].
  cbv zeta in Hloop, Hkept. change (Z.to_nat 0) with 0%nat in Hloop, Hkept.
  rewrite !drop_0 in Hloop, Hkept. rewrite drop_0 in Hkept.
  rewrite Z.add_0_l in Hloop.
  destruct (userInfo_loop_rest _ _ _ _ _ _ _ (Z.le_refl 0) Hloop)
    as (_ & _ & Hrest).
  rewrite Nat2Z.id in Hrest.
  destruct (keep_prefix_split upi) as (rest & Hsplit & _).
  assert (Hshort : (length (keep_prefix upi) <= length upi)%nat).
  { rewrite Hsplit at 2. rewrite length_app. lia. }
  unfold userInfo. rewrite Hloop. unfold mbind at 1, go_bind at 1.
  rewrite slice_Ret by lia. unfold mbind, go_bind.
  rewrite Z.sub_0_r, Nat2Z.id. change (Z.to_nat 0) with 0%nat.
  rewrite drop_0, Hkept. do 2 f_equal.
  rewrite <- (take_drop (length (keep_prefix upi)) buf) at 1.
  by rewrite Hkept, Hrest.
Qed.

(** X9: [userInfo] answers in the one package-level buffer: after a call
    the buffer holds the bytes returned followed by what it held before
    from there on, and the slice returned is its head.  So a second call
    overwrites what the first returned: on their common length the
    first slice now reads the result of the second. *)
Theorem userInfo_shared_buffer (upiBuffer upi upi' : list byte) :
  Z.of_nat (length upiBuffer) = UPILen ->
  Z.of_nat (length upi) = UPILen -> Z.of_nat (length upi') = UPILen ->
  exists buf buf' out out',
    userInfo upiBuffer upi = Ret (buf, out)
    /\ userInfo buf upi' = Ret (buf', out')
    /\ buf = out ++ drop (length out) upiBuffer
    /\ buf' = out' ++ drop (length out') buf
    /\ take (length out) buf = out
    /\ take (length out `min` length out') buf'
       = take (length out `min` length out') out'
    /\ length buf' = length upiBuffer.
Proof.
  intros Hbuf Hupi Hupi'.
  pose proof (userInfo_Ret upiBuffer upi Hupi Hbuf) as Hfirst.
  set (out := keep_prefix upi) in *.
  set (buf := out ++ drop (length out) upiBuffer) in *.
  destruct (keep_prefix_split upi) as (rest & Hsplit & _).
  assert (Hshort : (length out <= length upi)%nat).
  { rewrite Hsplit. rewrite length_app. unfold out. lia. }
  assert (Hlen : length buf = length upiBuffer).
  { unfold buf. rewrite length_app, length_drop. lia. }
  assert (Hbuf' : Z.of_nat (length buf) = UPILen) by (by rewrite Hlen).
  pose proof (userInfo_Ret buf upi' Hupi' Hbuf') as Hsecond.
  set (out' := keep_prefix upi') in *.
  destruct (keep_prefix_split upi') as (rest' & Hsplit' & _).
  assert (Hshort' : (length out' <= length upi')%nat).
  { rewrite Hsplit'. rewrite length_app. unfold out'. lia. }
  exists buf, (out' ++ drop (length out') buf), out, out'.
  split; [exact Hfirst|]. split; [exact Hsecond|].
  split; [done|]. split; [done|].
  split; [unfold buf; by rewrite take_app_length|].
  split; [by rewrite take_app_le by lia|].
  rewrite length_app, length_drop. lia.
Qed.

(** "AB" then "XYZ": the two bytes returned first now read "XY". *)
Lemma userInfo_shared_buffer_witness :
  let upi := map byte_of ([65; 66] ++ repeat 0 30)%N in
  let upi' := map byte_of ([88; 89; 90] ++ repeat 0 29)%N in
  exists buf buf',
    userInfo zeroUPI upi = Ret (buf, map byte_of [65; 66]%N)
    /\ userInfo buf upi' = Ret (buf', map byte_of [88; 89; 90]%N)
    /\ take 2 buf' = map byte_of [88; 89]%N.
Proof.
  intros upi upi'.
  destruct (userInfo_shared_buffer zeroUPI upi upi')
    as (buf & buf' & out & out' & H1 & H2 & Hb & Hb' & _);
    [reflexivity..|].
  assert (Hout : out = map byte_of [65; 66]%N).
  { pose proof (userInfo_Ret zeroUPI upi eq_refl eq_refl) as E.
    rewrite H1 in E. injection E as _ ->. by vm_compute. }
  assert (Hout' : out' = map byte_of [88; 89; 90]%N).
  { assert (Hlen : Z.of_nat (length buf) = UPILen).
    { rewrite Hb, Hout. by vm_compute. }
    pose proof (userInfo_Ret buf upi' eq_refl Hlen) as E.
    rewrite H2 in E. injection E as _ ->. by vm_compute. }
  exists buf, buf'. rewrite <- Hout, <- Hout' at 1.
  split; [exact H1|]. split; [exact H2|].
  rewrite Hb', Hout'. reflexivity.
Defined.

End UserInfoMore.

Section DumpPacketRow.

Import Vmudump.

(** [decodeCommon] on a slice it can decode. *)
Lemma decodeCommon_Ret (body : list byte) :
  (24 <= length body)%nat ->
  let class := Z.shiftr (u8 (default Byte.x00 (body !! 0%nat))) 4 in
  (class = 2 -> (44 <= length body)%nat) ->
  exists upi : list byte,
    length upi = 32%nat
    /\ (forall i, (i < 32)%nat -> upi !! i = Some (upi_byte body class i))
    /\ decodeCommon body
       = Ret ({| com_Property := u8 (default Byte.x00 (body !! 0%nat));
                 com_Origin := u8 (default Byte.x00 (body !! 23%nat));
                 com_AcqTime := to_int64 (le_value (take 8 (drop 7 body)));
                 com_AuxTime := to_int64 (le_value (take 8 (drop 15 body)));
                 com_Stream := le_value (take 2 (drop 1 body));
                 com_Counter := le_value (take 4 (drop 3 body));
                 com_UPI := upi |}, None).
Proof.
  intros Hlen class Himage.
  destruct (selectUPI_Ret (u8 (default Byte.x00 (body !! 0%nat))) body)
    as (upi & Hupi & Hupilen & Hbytes); [done|done|].
  exists upi. split; [done|]. split; [done|].
  unfold decodeCommon.
  rewrite (index_at body 0) by lia.
  rewrite (le_uint16_at body 1) by lia.
  rewrite (le_uint32_at body 3) by lia.
  rewrite (le_uint64_at body 7) by lia.
  rewrite (le_uint64_at body 15) by lia.
  rewrite (index_at body 23) by lia.
  change (Z.to_nat 0) with 0%nat. by rewrite Hupi.
Qed.

(** X10: [dumpPacket] on a whole packet: at least 66 bytes, a declared
    size that fits, a shared buffer of 32 bytes, and for the image class
    room for the UPI at offset 86.  The sum is taken over the declared
    size from offset 26 on, the VMU header from its channel byte, and
    compared with the little-endian trailer that follows it.  A packet
    that checks is written as one row and its size returned with no
    error; one that does not is written and returned with [ErrInvalid]
    when invalid packets are included, and dropped with size 0
    otherwise.  The row carries the declared size, the HRDL error flags
    (big-endian, offset 4), the VMU sequence (offset 30), the counter
    and the origin of the common header (offsets 45 and 65), the channel
    and the mode, the sum, and the user info read from the UPI. *)
Theorem dumpPacket_row (w : world) (body : list byte) (digest : Z)
    (withErr : bool) :
  Z.of_nat (length (upiBuffer w)) = UPILen ->
  (66 <= length body)%nat ->
  declared_size body <= Z.of_nat (length body) - 30 ->
  let class := Z.shiftr (u8 (default Byte.x00 (body !! 42%nat))) 4 in
  (class = 2 -> (86 <= length body)%nat) ->
  let size := declared_size body in
  let sum := wrap 32 (byte_sum (take (Z.to_nat size) (drop 26 body))) in
  let stored := le_value (take 4 (drop (26 + Z.to_nat size) body)) in
  exists (r : row) (upi : list byte),
    dumpPacket w body digest withErr
    = (if bool_decide (stored = sum) then
         Ret ({| stdout := stdout w ++ [r];
                 upiBuffer := row_upi r
                              ++ drop (length (row_upi r)) (upiBuffer w) |},
              (size, None))
       else if withErr then
         Ret ({| stdout := stdout w ++ [r];
                 upiBuffer := row_upi r
                              ++ drop (length (row_upi r)) (upiBuffer w) |},
              (size, Some ErrInvalid))
       else Ret (w, (0, Some ErrInvalid)))
    /\ row_size r = size /\ row_sum r = sum
    /\ row_bad r = (if bool_decide (stored = sum) then unknown else invalid)
    /\ row_digest r = digest
    /\ row_error r = be_value (take 2 (drop 4 body))
    /\ row_sequence r = le_value (take 4 (drop 30 body))
    /\ row_vmutime r = (le_value (take 4 (drop 34 body)),
                        le_value (take 2 (drop 38 body)))
    /\ row_counter r = le_value (take 4 (drop 45 body))
    /\ row_acqtime r = to_int64 (le_value (take 8 (drop 49 body)))
    /\ row_origin r = u8 (default Byte.x00 (body !! 65%nat))
    /\ row_channel r = whichChannel (u8 (default Byte.x00 (body !! 26%nat)))
    /\ row_mode r = whichMode (u8 (default Byte.x00 (body !! 27%nat)))
                              (u8 (default Byte.x00 (body !! 65%nat)))
    /\ length upi = 32%nat
    /\ (forall i, (i < 32)%nat ->
          upi !! i = Some (upi_byte (drop 42 body) class i))
    /\ row_upi r = keep_prefix upi.
Proof.
  intros Hbuf Hlen Hfits class Himage size sum stored.
  destruct (dumpPacket_headers w body digest withErr)
    as (h & v & Hh & Hv & Hvsize & _ & Hrange & Hdump); [lia|].
  rewrite decodeHRDL_Ret in Hh by (rewrite length_take; lia).
  rewrite decodeVMU_Ret in Hv by (rewrite length_take, length_drop; lia).
  injection Hh as <-. injection Hv as <-.
  fold size in Hrange, Hdump, Hfits.
  assert (Hsize : 0 <= size) by lia.
  destruct (decodeCommon_Ret (drop 42 body))
    as (upi & Hupilen & Hbytes & Hcommon).
  { rewrite length_drop. lia. }
  { rewrite lookup_drop, Nat.add_0_r. fold class. intros Hc.
    specialize (Himage Hc). rewrite length_drop. lia. }
  rewrite lookup_drop, Nat.add_0_r in Hbytes. fold class in Hbytes.
  set (sb := take (Z.to_nat size + 4) (drop 26 body)).
  assert (Hsb : length sb = (Z.to_nat size + 4)%nat).
  { unfold sb. rewrite length_take, length_drop. lia. }
  assert (Hsum : calculateSum sb
                 = Ret (sum, if bool_decide (stored = sum)
                             then unknown else invalid)).
  { rewrite calculateSum_Ret by lia. rewrite Hsb.
    replace (Z.to_nat size + 4 - 4)%nat with (Z.to_nat size) by lia.
    assert (Htake : take (Z.to_nat size) sb
                    = take (Z.to_nat size) (drop 26 body)).
    { unfold sb. rewrite take_take. f_equal. lia. }
    assert (Hdrop : drop (Z.to_nat size) sb = take 4 (drop (26 + Z.to_nat size) body)).
    { unfold sb. by rewrite <- take_drop_commute, drop_drop. }
    rewrite Htake, Hdrop. reflexivity. }
  assert (Hinfo : userInfo (upiBuffer w) upi
                  = Ret (keep_prefix upi
                         ++ drop (length (keep_prefix upi)) (upiBuffer w),
                         keep_prefix upi)).
  { apply userInfo_Ret; [|done]. rewrite Hupilen. reflexivity. }
  cbn [vmu_Size vmu_Sequence vmu_Coarse vmu_Fine vmu_Channel vmu_Origin
       hrdl_Error] in Hdump.
  rewrite !take_drop_take in Hdump by lia.
  rewrite !lookup_take_lt, !lookup_drop in Hdump by lia.
  rewrite !drop_drop in Hdump. cbn [Nat.add] in Hdump.
  fold (declared_size body) in Hdump. fold size in Hdump.
  exists {| row_size := size;
            row_error := be_value (take 2 (drop 4 body));
            row_vmutime := (le_value (take 4 (drop 34 body)),
                            le_value (take 2 (drop 38 body)));
            row_sequence := le_value (take 4 (drop 30 body));
            row_mode :=
              whichMode (u8 (default Byte.x00 (body !! 27%nat)))
                        (u8 (default Byte.x00 (body !! 65%nat)));
            row_channel :=
              whichChannel (u8 (default Byte.x00 (body !! 26%nat)));
            row_origin := u8 (default Byte.x00 (body !! 65%nat));
            row_acqtime := to_int64 (le_value (take 8 (drop 49 body)));
            row_counter := le_value (take 4 (drop 45 body));
            row_upi := keep_prefix upi;
            row_sum := sum;
            row_bad := if bool_decide (stored = sum)
                       then unknown else invalid;
            row_digest := digest |}, upi.
  split; [|cbn; repeat split; done].
  rewrite Hdump. cbv zeta.
  destruct (Z.ltb_spec (Z.of_nat (length body) - 30) size); [lia|].
  rewrite slice_from_Ret by lia. unfold mbind at 1, go_bind at 1.
  change (Z.to_nat 42) with 42%nat. rewrite Hcommon.
  unfold mbind at 1, go_bind at 1.
  rewrite slice_Ret by lia. unfold mbind at 1, go_bind at 1.
  replace (Z.to_nat (26 + size + 4 - 26)) with (Z.to_nat size + 4)%nat
    by lia.
  change (Z.to_nat 26) with 26%nat. fold sb. rewrite Hsum.
  unfold mbind at 1, go_bind at 1.
  cbn [com_UPI com_Origin com_Counter com_AcqTime].
  rewrite Hinfo. unfold mbind, go_bind.
  rewrite !lookup_drop, !drop_drop. cbn [Nat.add].
  case_bool_decide; simpl; [reflexivity|].
  destruct withErr; simpl; reflexivity.
Qed.

End DumpPacketRow.

Section DumpPacketRowExample.

Import Vmudump.

(** The sample packet: size 36, channel 1, sequence 11, a science
    header, the sum 79 stored at offset 62, and the user info "AB". *)
Lemma dumpPacket_row_witness :
  let w := {| stdout := []; upiBuffer := zeroUPI |} in
  Z.of_nat (length (upiBuffer w)) = UPILen
  /\ (66 <= length sample_packet)%nat
  /\ declared_size sample_packet <= Z.of_nat (length sample_packet) - 30
  /\ exists r w',
       dumpPacket w sample_packet 0 false = Ret (w', (36, None))
       /\ stdout w' = [r]
       /\ row_sum r = 79 /\ row_sequence r = 11
       /\ row_upi r = map byte_of [65; 66]%N.
Proof.
  intros w.
  assert (Hbuf : Z.of_nat (length (upiBuffer w)) = UPILen) by reflexivity.
  assert (Hlen : (66 <= length sample_packet)%nat) by (vm_compute; lia).
  assert (Hfits : declared_size sample_packet
                  <= Z.of_nat (length sample_packet) - 30)
    by (vm_compute; discriminate).
  assert (Hclass : Z.shiftr
                     (u8 (default Byte.x00 (sample_packet !! 42%nat))) 4 = 2
                   -> (86 <= length sample_packet)%nat)
    by (vm_compute; discriminate).
  split; [exact Hbuf|]. split; [exact Hlen|]. split; [exact Hfits|].
  destruct (dumpPacket_row w sample_packet 0 false Hbuf Hlen Hfits Hclass)
    as (r & upi & Hdump & Hsize & Hsum & _ & _ & _ & Hseq & _ & _ & _ & _
        & _ & _ & Hupilen & Hbytes & Hupi).
  rewrite bool_decide_true in Hdump by (vm_compute; reflexivity).
  assert (Hinfo : upi = map byte_of ([65; 66] ++ repeat 0 30)%N).
  { apply list_eq_same_length with 32%nat; [reflexivity|done|].
    intros i x y Hi Hx Hy. rewrite Hbytes in Hx by done.
    injection Hx as <-.
    do 32 (destruct i as [|i]; [vm_compute in Hy |- *; congruence|]).
    lia. }
  exists r. eexists. split; [rewrite Hdump; f_equal; f_equal; exact Hsize|].
  split; [reflexivity|]. rewrite Hsum, Hseq, Hupi, Hinfo.
  split; [vm_compute; reflexivity|].
  split; vm_compute; reflexivity.
Defined.

End DumpPacketRowExample.

(** ** The summary of the dumper *)

Section MainMore.

Import Vmudump.

Lemma main_loop_counts (reads : list (list byte * Z)) (withErr : bool)
    (w w' : world) (total size bad total' size' bad' : Z) :
  0 <= bad <= total -> total + Z.of_nat (length reads) < 2 ^ 63 ->
  main_loop w reads withErr total size bad
  = Ret (w', (total', size', bad')) ->
  total' = total + Z.of_nat (length reads)
  /\ bad <= bad' /\ bad' - bad <= Z.of_nat (length reads)
  /\ (length (stdout w) <= length (stdout w'))%nat
  /\ Z.of_nat (length (stdout w')) - Z.of_nat (length (stdout w))
     <= Z.of_nat (length reads)
  /\ Z.of_nat (length reads) - (bad' - bad)
     <= Z.of_nat (length (stdout w')) - Z.of_nat (length (stdout w))
  /\ (withErr = false ->
      Z.of_nat (length (stdout w')) - Z.of_nat (length (stdout w))
      = Z.of_nat (length reads) - (bad' - bad)).
Proof.
  change (2 ^ 63) with 9223372036854775808.
  revert w total size bad.
  induction reads as [|[body digest] reads IH];
    intros w total size bad Hinv Hbound Hloop; simpl in Hloop.
  - injection Hloop as <- <- <- <-. simpl. lia.
  - destruct (dumpPacket w body digest withErr) as [[w1 [z err]]| |] eqn:Hdump;
      try discriminate Hloop.
    unfold mbind, go_bind in Hloop.
    pose proof (dumpPacket_shape _ _ _ _ _ _ _ Hdump) as Hshape.
    simpl length in *. rewrite Nat2Z.inj_succ in *.
    rewrite (to_int64_small (total + 1)) in Hloop
      by (change (2 ^ 63) with 9223372036854775808; lia).
    assert (Hfin : forall P Q : Prop, (P -> Q) -> P -> Q) by auto.
    destruct err as [[e|]|].
    + rewrite (to_int64_small (bad + 1)) in Hloop
        by (change (2 ^ 63) with 9223372036854775808; lia).
      apply IH in Hloop as (Ht & Hb1 & Hb2 & Hs1 & Hs2 & Hs3 & Hs4);
        [|lia|lia].
      destruct Hshape as [-> _].
      repeat split; try lia; try (intros Hw; specialize (Hs4 Hw); lia).
    + rewrite (to_int64_small (bad + 1)) in Hloop
        by (change (2 ^ 63) with 9223372036854775808; lia).
      apply IH in Hloop as (Ht & Hb1 & Hb2 & Hs1 & Hs2 & Hs3 & Hs4);
        [|lia|lia].
      destruct withErr.
      * destruct Hshape as (r & Hout & _).
        rewrite Hout, length_app in Hs1, Hs2, Hs3. simpl in Hs1, Hs2, Hs3.
        repeat split; try lia; try discriminate.
      * destruct Hshape as [-> _].
        repeat split; try lia; try (intros Hw; specialize (Hs4 Hw); lia).
    + apply IH in Hloop as (Ht & Hb1 & Hb2 & Hs1 & Hs2 & Hs3 & Hs4);
        [|lia|lia].
      destruct Hshape as (r & Hout & _).
      rewrite Hout, length_app in Hs1, Hs2, Hs3, Hs4.
      simpl in Hs1, Hs2, Hs3, Hs4.
      repeat split; try lia; try (intros Hw; specialize (Hs4 Hw); lia).
Qed.

Lemma main_loop_prefix (reads : list (list byte * Z)) (withErr : bool)
    (w w' : world) (total size bad : Z) (res : Z * Z * Z) :
  main_loop w reads withErr total size bad = Ret (w', res) ->
  exists rows, stdout w' = stdout w ++ rows.
Proof.
  revert w total size bad.
  induction reads as [|[body digest] reads IH];
    intros w total size bad Hloop; simpl in Hloop.
  - injection Hloop as <- _. exists []. by rewrite app_nil_r.
  - destruct (dumpPacket w body digest withErr) as [[w1 [z err]]| |] eqn:Hdump;
      try discriminate Hloop.
    unfold mbind, go_bind in Hloop.
    pose proof (dumpPacket_shape _ _ _ _ _ _ _ Hdump) as Hshape.
    apply IH in Hloop as [rows Hrows].
    destruct err as [[e|]|]; [|destruct withErr|].
    + destruct Hshape as [-> _]. by exists rows.
    + destruct Hshape as (r & Hout & _). exists (r :: rows).
      by rewrite Hrows, Hout, <- app_assoc.
    + destruct Hshape as [-> _]. by exists rows.
    + destruct Hshape as (r & Hout & _). exists (r :: rows).
      by rewrite Hrows, Hout, <- app_assoc.
Qed.

(** X11: the summary of the dumper, when it is reached (fewer than 2^63
    reads, no panic): the packets counted are the buffers read; the
    invalid ones are at most as many; at most one row was written for
    each buffer, and at least one for each buffer not counted invalid.
    When invalid packets are not included the rows written are exactly
    the packets not counted invalid. *)
Theorem main_summary (reads : list (list byte * Z)) (withErr : bool)
    (w w' : world) (total mb bad : Z) :
  Z.of_nat (length reads) < 2 ^ 63 ->
  main w reads withErr = Ret (w', (total, mb, bad)) ->
  total = Z.of_nat (length reads)
  /\ 0 <= bad <= total
  /\ exists rows,
       stdout w' = stdout w ++ rows
       /\ total - bad <= Z.of_nat (length rows) <= total
       /\ (withErr = false -> Z.of_nat (length rows) = total - bad).
Proof.
  intros Hbound Hmain. unfold main in Hmain.
  destruct (main_loop w reads withErr 0 0 0)
    as [[w1 [[total1 size1] bad1]]| |] eqn:Hloop; try discriminate Hmain.
  unfold mbind, go_bind in Hmain. injection Hmain as -> -> _ ->.
  destruct (main_loop_prefix _ _ _ _ _ _ _ _ Hloop) as [rows Hrows].
  apply main_loop_counts in Hloop
    as (Ht & Hb1 & Hb2 & Hs1 & Hs2 & Hs3 & Hs4); [|lia|lia].
  rewrite Hrows, length_app in Hs1, Hs2, Hs3, Hs4.
  split; [lia|]. split; [lia|]. exists rows. split; [done|].
  split; [lia|]. intros Hw. specialize (Hs4 Hw). lia.
Qed.

(** The sample packet, then 10 bytes, with invalid packets left out. *)
Lemma main_summary_witness :
  let w := {| stdout := []; upiBuffer := zeroUPI |} in
  let reads := [(sample_packet, 1); (replicate 10 Byte.x00, 2)] in
  Z.of_nat (length reads) < 2 ^ 63
  /\ exists w', main w reads false = Ret (w', (2, 0, 1))
                /\ length (stdout w') = 1%nat.
Proof.
  intros w reads.
  assert (Hbound : Z.of_nat (length reads) < 2 ^ 63) by reflexivity.
  split; [exact Hbound|].
  assert (Hmain : exists w', main w reads false = Ret (w', (2, 0, 1)))
    by (eexists; vm_compute; reflexivity).
  destruct Hmain as [w' Hmain]. exists w'. split; [exact Hmain|].
  destruct (main_summary reads false w w' 2 0 1 Hbound Hmain)
    as (_ & _ & rows & Hrows & _ & Hlen).
  rewrite Hrows. simpl. specialize (Hlen eq_refl). lia.
Defined.

End MainMore.

(** ** Gaps and counts, further *)

Section GapsMore.

Import Vmucat.

(** X12: what an emitted gap carries, under either grouping: no
    identifier (the field stays 0), the counter and the time of the
    previous packet as [Last] and [Starts], those of the current packet
    as [First] and [Ends], two counters that do not follow one another,
    and, under a maximum duration other than 0, two times at most that
    far apart.  A counter that repeats or goes back is reported as a gap
    like any other, with [First] not above [Last]; and when no gap is
    reported the gap returned is the zero value. *)
Theorem gap_fields (b : grouping) (p prev : Packet) (d : Duration) :
  wf_packet p -> wf_packet prev ->
  let res := gapBy b p prev d in
  let elapsed :=
    match b with
    | ByChannel => Sub (Timestamp (VMUHeader p)) (Timestamp (VMUHeader prev))
    | ByOrigin =>
        Sub (Acquisition (DataHeader p)) (Acquisition (DataHeader prev))
    end in
  (res.1 = true ->
   Gap.Id res.2 = 0
   /\ Gap.Last res.2 = counter_of b prev /\ Gap.First res.2 = counter_of b p
   /\ Gap.Starts res.2 = time_of b prev /\ Gap.Ends res.2 = time_of b p
   /\ Gap.First res.2 - Gap.Last res.2 <> 1
   /\ Sub (Gap.Ends res.2) (Gap.Starts res.2) = elapsed
   /\ (d <> 0 -> Sub (Gap.Ends res.2) (Gap.Starts res.2) <= d))
  /\ (res.1 = false -> res.2 = Gap.zero)
  /\ (counter_of b p <= counter_of b prev -> d = 0 \/ elapsed <= d ->
      res.1 = true /\ Gap.First res.2 <= Gap.Last res.2).
Proof.
  intros [Hs Hc] [Hs' Hc'] res elapsed. subst res elapsed.
  destruct b; unfold gapBy, gapByChannel, gapByOrigin, counter_of, time_of;
    cbv zeta; rewrite diff_uint32 by assumption;
    rewrite ?(int_uint32 _ Hs), ?(int_uint32 _ Hs'),
      ?(int_uint32 _ Hc), ?(int_uint32 _ Hc');
    (match goal with
     | |- context [?x - ?y =? 1] => destruct (Z.eqb_spec (x - y) 1)
     end);
    destruct (Z.eqb_spec d 0);
    (match goal with
     | |- context [?x <=? d] => destruct (Z.leb_spec x d)
     end);
    simpl; intuition (try done; try lia).
Qed.

Lemma gap_fields_witness :
  wf_packet packet_11 /\ wf_packet packet_13
  /\ (gapBy ByChannel packet_11 packet_13 0).1 = true
  /\ Gap.First (gapBy ByChannel packet_11 packet_13 0).2 = 11
  /\ Gap.Last (gapBy ByChannel packet_11 packet_13 0).2 = 13
  /\ Gap.Starts (gapBy ByChannel packet_11 packet_13 0).2 = 6 * Second
  /\ Gap.Ends (gapBy ByChannel packet_11 packet_13 0).2 = 5 * Second.
Proof.
  assert (H11 : wf_packet packet_11) by (by vm_compute).
  assert (H13 : wf_packet packet_13) by (by vm_compute).
  destruct (gap_fields ByChannel packet_11 packet_13 0 H11 H13)
    as (Hfields & _ & Hback).
  destruct Hback as [Hok _]; [vm_compute; discriminate|by left|].
  destruct (Hfields Hok) as (_ & Hlast & Hfirst & Hstarts & Hends & _).
  split; [exact H11|]. split; [exact H13|]. split; [exact Hok|].
  split; [rewrite Hfirst; reflexivity|].
  split; [rewrite Hlast; reflexivity|].
  split; [rewrite Hstarts; reflexivity|rewrite Hends; reflexivity].
Defined.

End GapsMore.

Section CountsMore.

Import Vmucat.

Implicit Types (st : countState) (cz : Coze.t) (ps : list (Packet * bool)).

Lemma wrap64_idemp (a b : Z) : wrap 64 (wrap 64 a + b) = wrap 64 (a + b).
Proof. unfold wrap. apply Zplus_mod_idemp_l. Qed.

Lemma wf_coze_zero : wf_coze Coze.zero.
Proof. unfold wf_coze. simpl. lia. Qed.

Lemma wf_coze_tally (b : grouping) cz prev ps : wf_coze (tally b cz prev ps).
Proof. unfold wf_coze, tally. simpl. repeat split; apply wrap_range; lia. Qed.

Lemma tally_nil (b : grouping) cz prev : wf_coze cz -> tally b cz prev [] = cz.
Proof.
  intros (Hc & Hs & Hm & He). destruct cz as [i c s m e].
  unfold tally. simpl in *. rewrite !Z.add_0_r.
  by rewrite !wrap_small by done.
Qed.

Lemma tally_cons (b : grouping) cz prev (p : Packet) (bad : bool) ps :
  tally b (tally b cz prev [(p, bad)]) (Some p) ps
  = tally b cz prev ((p, bad) :: ps).
Proof.
  unfold tally. simpl. rewrite !wrap64_idemp.
  rewrite !filter_cons, filter_nil. simpl.
  f_equal; apply (f_equal (wrap 64)).
  - lia.
  - lia.
  - destruct prev; lia.
  - destruct (decide (bad = true)); simpl length; lia.
Qed.

(** One packet that is taken into account: its group moves by one step
    of the tally, the other groups do not move. *)
Lemma count_packet_group (b : grouping) (keepInvalid bad : bool) st
    (p : Packet) (id : Z) :
  bad && negb keepInvalid = false ->
  wf_coze (default Coze.zero (stats st !! getBy b p)) ->
  let st' := count_packet b keepInvalid st p bad in
  stats st' !! id
  = (if decide (getBy b p = id)
     then Some (tally b (default Coze.zero (stats st !! id)) (seen st !! id)
                  [(p, bad)])
     else stats st !! id)
  /\ seen st' !! id
     = (if decide (getBy b p = id) then Some p else seen st !! id).
Proof.
  intros Hkept (Hc & Hs & Hm & He). unfold count_packet. rewrite Hkept.
  simpl. destruct (decide (getBy b p = id)) as [<-|Hne].
  - rewrite !lookup_insert_eq. split; [|done]. f_equal.
    unfold tally. simpl. rewrite filter_cons. simpl.
    destruct (seen st !! getBy b p) as [prev|], bad; simpl;
      rewrite ?Z.add_0_r; f_equal; try done;
      rewrite ?wrap_small by done; done.
  - by rewrite !lookup_insert_ne.
Qed.

Lemma count_packet_dropped (b : grouping) st (p : Packet) :
  count_packet b false st p true = st.
Proof. reflexivity. Qed.

Lemma wf_stats_default st (id : Z) :
  wf_stats st -> wf_coze (default Coze.zero (stats st !! id)).
Proof.
  intros Hwf. destruct (stats st !! id) as [cz|] eqn:Hcz; simpl.
  - by apply (Hwf id).
  - apply wf_coze_zero.
Qed.

Lemma wf_stats_count_packet (b : grouping) (keepInvalid bad : bool) st
    (p : Packet) :
  wf_stats st -> wf_stats (count_packet b keepInvalid st p bad).
Proof.
  intros Hwf. destruct (bad && negb keepInvalid) eqn:Hkept.
  - unfold count_packet. by rewrite Hkept.
  - intros id cz Hcz.
    destruct (count_packet_group b keepInvalid bad st p id Hkept
                (wf_stats_default st _ Hwf)) as [Hstats _].
    rewrite Hstats in Hcz. destruct (decide (getBy b p = id)).
    + injection Hcz as <-. apply wf_coze_tally.
    + by apply (Hwf id).
Qed.

(** The loop of [runCount], group by group. *)
Lemma runCount_loop_group (b : grouping) (keepInvalid : bool)
    (input : list (Packet * option decodeError)) st (id : Z) :
  wf_stats st ->
  let st' := (runCount_loop b keepInvalid st input).1 in
  let ps := of_group b id (counted keepInvalid input) in
  default Coze.zero (stats st' !! id)
  = tally b (default Coze.zero (stats st !! id)) (seen st !! id) ps
  /\ seen st' !! id
     = match last ps with
       | Some x => Some x.1
       | None => seen st !! id
       end
  /\ (is_Some (stats st' !! id) <-> is_Some (stats st !! id) \/ ps <> []).
Proof.
  revert st. induction input as [|[p err] input IH]; intros st Hwf; simpl.
  { rewrite tally_nil by (by apply wf_stats_default).
    split; [done|]. split; [done|]. unfold of_group. simpl. tauto. }
  assert (Hkeep : forall bad, bad && negb keepInvalid = false ->
    let st' := (runCount_loop b keepInvalid
                  (count_packet b keepInvalid st p bad) input).1 in
    let ps := of_group b id ((p, bad) :: counted keepInvalid input) in
    default Coze.zero (stats st' !! id)
    = tally b (default Coze.zero (stats st !! id)) (seen st !! id) ps
    /\ seen st' !! id
       = match last ps with
         | Some x => Some x.1
         | None => seen st !! id
         end
    /\ (is_Some (stats st' !! id) <-> is_Some (stats st !! id) \/ ps <> [])).
  { intros bad Hkept.
    destruct (IH (count_packet b keepInvalid st p bad)
                (wf_stats_count_packet _ _ _ _ _ Hwf))
      as (Hstats & Hseen & Hsome).
    destruct (count_packet_group b keepInvalid bad st p id Hkept
                (wf_stats_default st _ Hwf)) as [Hs1 Hs2].
    cbv zeta. unfold of_group in *. rewrite filter_cons. simpl.
    rewrite Hstats, Hseen, Hsome, Hs1, Hs2.
    destruct (decide (getBy b p = id)) as [Heq|Hne]; simpl.
    - rewrite tally_cons. split; [done|]. rewrite last_cons.
      split; [by destruct (last _)|].
      split; [intros _; right; done|intros _; left; by eexists].
    - done. }
  destruct err as [[| | |]|].
  - destruct keepInvalid; simpl.
    + by apply (Hkeep true).
    + rewrite count_packet_dropped. by apply IH.
  - by apply IH.
  - rewrite tally_nil by (by apply wf_stats_default).
    split; [done|]. split; [done|]. unfold of_group. simpl. tauto.
  - rewrite tally_nil by (by apply wf_stats_default).
    split; [done|]. split; [done|]. unfold of_group. simpl. tauto.
  - by apply (Hkeep false).
Qed.

Lemma counted_valid (input : list (Packet * option decodeError)) :
  Forall (fun x => x.2 = false) (counted false input).
Proof.
  induction input as [|[p [[| | |]|]] input IH]; simpl; try done.
  by constructor.
Qed.

Lemma of_group_valid (b : grouping) (id : Z) ps :
  Forall (fun x => x.2 = false) ps ->
  filter (fun x => x.2 = true) (of_group b id ps) = [].
Proof.
  unfold of_group. induction 1 as [|[p bad] ps Hbad _ IH]; [done|].
  rewrite filter_cons. simpl in *. subst bad.
  destruct (decide (getBy b p = id)); [|done].
  rewrite filter_cons. simpl. by destruct (decide (false = true)).
Qed.

(** X13: the totals of [count], read at the end of the stream, group by
    group.  A group has a line exactly when one of its packets was taken
    into account; its count is the number of those packets, its size the
    sum of their sizes, its error count the number of invalid ones among
    them, all modulo 2^64, and the packet remembered is the last of
    them.  The packets of the other groups play no part.  Unless invalid
    packets are kept, an invalid packet is left out of every total, the
    count and the error count included, so that the error count is 0. *)
Theorem runCount_totals (b : grouping) (keepInvalid : bool)
    (input : list (Packet * option decodeError)) (id : Z) :
  let st := (runCount_loop b keepInvalid
               {| stats := ∅; seen := ∅ |} input).1 in
  let ps := of_group b id (counted keepInvalid input) in
  (ps = [] -> stats st !! id = None /\ seen st !! id = None)
  /\ (ps <> [] ->
      exists cz,
        stats st !! id = Some cz
        /\ Coze.Count cz = wrap 64 (Z.of_nat (length ps))
        /\ Coze.Size cz
           = wrap 64 (Zsum (map (fun x => Size (VMUHeader x.1)) ps))
        /\ Coze.Error cz
           = wrap 64 (Z.of_nat (length (filter (fun x => x.2 = true) ps)))
        /\ (keepInvalid = false -> Coze.Error cz = 0)
        /\ seen st !! id = fst <$> last ps).
Proof.
  intros st ps.
  assert (Hwf : wf_stats {| stats := ∅; seen := ∅ |})
    by (intros i cz Hcz; simpl in Hcz; by rewrite lookup_empty in Hcz).
  destruct (runCount_loop_group b keepInvalid input _ id Hwf)
    as (Hstats & Hseen & Hsome).
  fold st ps in Hstats, Hseen, Hsome.
  cbn [stats seen] in Hstats, Hseen, Hsome.
  rewrite !(lookup_empty (M := gmap Z)) in Hstats.
  rewrite ?(lookup_empty (M := gmap Z)) in Hseen.
  rewrite ?(lookup_empty (M := gmap Z)) in Hsome.
  cbn [default] in Hstats.
  split.
  - intros Hps. rewrite Hps in Hseen. simpl in Hseen.
    split; [|done]. apply eq_None_not_Some. rewrite Hsome.
    intros [[? ?]|?]; done.
  - intros Hps.
    destruct (proj2 Hsome (or_intror Hps)) as [cz Hcz].
    rewrite Hcz in Hstats. simpl in Hstats. exists cz.
    split; [done|]. rewrite Hstats. simpl.
    split; [done|]. split; [done|]. split; [done|].
    split.
    + intros ->. unfold ps. by rewrite of_group_valid by apply counted_valid.
    + rewrite Hseen. by destruct (last ps).
Qed.

(** X14: the missing total of a group, at the end of the stream, is the
    sum modulo 2^64 of what [missBy] gives for each packet of the group
    taken into account against the one before it, the first one adding
    nothing.  When the counters of these packets follow one another it
    is 0. *)
Theorem runCount_missing (b : grouping) (keepInvalid : bool)
    (input : list (Packet * option decodeError)) (id : Z) :
  let st := (runCount_loop b keepInvalid
               {| stats := ∅; seen := ∅ |} input).1 in
  let ps := of_group b id (counted keepInvalid input) in
  Forall (fun x => wf_packet x.1) ps ->
  Coze.Missing (default Coze.zero (stats st !! id))
  = wrap 64 (miss_sum b None ps)
  /\ (consecutive b ps ->
      Coze.Missing (default Coze.zero (stats st !! id)) = 0).
Proof.
  intros st ps Hwfps.
  assert (Hwf : wf_stats {| stats := ∅; seen := ∅ |})
    by (intros i cz Hcz; simpl in Hcz; by rewrite lookup_empty in Hcz).
  destruct (runCount_loop_group b keepInvalid input _ id Hwf)
    as (Hstats & _).
  fold st ps in Hstats. cbn [stats seen] in Hstats.
  rewrite !(lookup_empty (M := gmap Z)) in Hstats.
  rewrite Hstats. cbn. split; [done|].
  intros Hcons.
  assert (Hsum : forall l prev,
            Forall (fun x => wf_packet x.1) l ->
            (forall q, prev = Some q -> wf_packet q) ->
            consecutive b (match prev with
                           | Some q => (q, false) :: l
                           | None => l
                           end) ->
            miss_sum b prev l = 0).
  { induction l as [|[p bad] l IH]; intros prev Hl Hprev Hc; [done|].
    inversion Hl as [|? ? Hp Hl']; subst. simpl in Hp. simpl.
    rewrite (IH (Some p)); [|done|by intros q [= <-]|].
    - destruct prev as [q|]; [|done].
      rewrite missBy_inc by (done || by apply Hprev).
      pose proof (Hc 0%nat (q, false) (p, bad) eq_refl eq_refl) as Hstep.
      simpl in Hstep. rewrite Hstep.
      destruct (Z.ltb_spec (counter_of b q + 1) (counter_of b q)); [lia|].
      replace (counter_of b q + 1 - counter_of b q - 1) with 0 by lia.
      done.
    - intros i x y Hx Hy. destruct i as [|i].
      + simpl in Hx. injection Hx as <-. simpl in Hy.
        destruct prev as [q|].
        * exact (Hc 1%nat (p, bad) y eq_refl Hy).
        * exact (Hc 0%nat (p, bad) y eq_refl Hy).
      + simpl in Hx, Hy. destruct prev as [q|].
        * exact (Hc (S (S i)) x y Hx Hy).
        * exact (Hc (S i) x y Hx Hy). }
  rewrite (Hsum ps None); done.
Qed.

(** Two packets of channel 7 with counters 11 and 12. *)
Lemma runCount_missing_witness :
  let next := {| VMUHeader := {| Size := 100; Channel := 7; Sequence := 12;
                                 Timestamp := 6 * Second |};
                 DataHeader := DataHeader packet_11 |} in
  let input := [(packet_11, None); (next, None)] in
  Forall (fun x => wf_packet x.1) (of_group ByChannel 7 (counted false input))
  /\ consecutive ByChannel (of_group ByChannel 7 (counted false input))
  /\ Coze.Missing
       (default Coze.zero
          ((runCount_loop ByChannel false {| stats := ∅; seen := ∅ |}
              input).1.(stats) !! 7)) = 0.
Proof.
  intros next input.
  assert (Hgroup : of_group ByChannel 7 (counted false input)
                   = [(packet_11, false); (next, false)]) by reflexivity.
  assert (Hwf : Forall (fun x => wf_packet x.1)
                  (of_group ByChannel 7 (counted false input))).
  { rewrite Hgroup. repeat constructor; by vm_compute. }
  assert (Hcons : consecutive ByChannel
                    (of_group ByChannel 7 (counted false input))).
  { rewrite Hgroup. intros [|[|i]] x y Hx Hy; simpl in Hx, Hy; try done.
    injection Hx as <-. injection Hy as <-. reflexivity. }
  split; [exact Hwf|]. split; [exact Hcons|].
  destruct (runCount_missing ByChannel false input 7 Hwf) as [_ Hzero].
  exact (Hzero Hcons).
Defined.

End CountsMore.

Section DiffMore.

Import Vmucat.

Lemma last_of_group_snoc (b : grouping) (id : Z) earlier (p : Packet) :
  last_of_group b id (earlier ++ [p])
  = if decide (getBy b p = id) then Some p else last_of_group b id earlier.
Proof.
  unfold last_of_group. rewrite filter_app, filter_cons, filter_nil.
  destruct (decide (getBy b p = id)).
  - by rewrite last_snoc.
  - by rewrite app_nil_r.
Qed.

Lemma last_of_group_fst (b : grouping) (id : Z) (l : list (Packet * bool)) :
  last_of_group b id (map fst l) = fst <$> last (of_group b id l).
Proof.
  unfold last_of_group, of_group. rewrite <- fmap_last. f_equal.
  induction l as [|x l IH]; [done|].
  simpl. rewrite !filter_cons. simpl.
  destruct (decide (getBy b x.1 = id)); simpl; by rewrite IH.
Qed.

Lemma runDiff_loop_lines (b : grouping) (keepInvalid : bool) (d : Duration)
    (input : list (Packet * option decodeError)) seen earlier :
  (forall id, seen !! id = last_of_group b id earlier) ->
  (runDiff_loop b keepInvalid d seen input).1
  = gaps_from b d earlier (map fst (counted keepInvalid input)).
Proof.
  revert seen earlier.
  induction input as [|[p err] input IH]; intros seen earlier Hseen; [done|].
  assert (Hkept :
    (let id := getBy b p in
     let line :=
       match seen !! id with
       | Some prev =>
           let '(ok, g) := gapBy b p prev d in
           if ok then [(p, g)] else []
       | None => []
       end in
     let '(lines, e) := runDiff_loop b keepInvalid d (<[id := p]> seen) input in
     (line ++ lines, e)).1
    = gaps_from b d earlier (p :: map fst (counted keepInvalid input))).
  { cbv zeta. simpl gaps_from.
    rewrite <- (IH (<[getBy b p := p]> seen) (earlier ++ [p])).
    - rewrite Hseen.
      by destruct (runDiff_loop b keepInvalid d (<[getBy b p:=p]> seen) input).
    - intros id. rewrite last_of_group_snoc.
      destruct (decide (getBy b p = id)) as [<-|Hne].
      + by rewrite lookup_insert_eq.
      + by rewrite lookup_insert_ne. }
  simpl runDiff_loop. simpl counted.
  destruct err as [[| | |]|]; simpl; try done.
  - destruct keepInvalid; simpl; [exact Hkept|by apply IH].
  - by apply IH.
Qed.

Lemma gapBy_next (b : grouping) (p prev : Packet) (d : Duration) :
  wf_packet p -> wf_packet prev ->
  counter_of b p = counter_of b prev + 1 ->
  (gapBy b p prev d).1 = false.
Proof.
  intros Hp Hprev Hnext. destruct b; simpl in *.
  - destruct (gapByChannel_rule p prev d Hp Hprev) as (_ & _ & H & _).
    apply H. lia.
  - destruct (gapByOrigin_rule p prev d Hp Hprev) as (_ & _ & H & _).
    apply H. lia.
Qed.

Lemma gaps_from_consecutive (b : grouping) (d : Duration)
    (ps earlier : list (Packet * bool)) :
  Forall (fun x => wf_packet x.1) (earlier ++ ps) ->
  (forall id, consecutive b (of_group b id (earlier ++ ps))) ->
  gaps_from b d (map fst earlier) (map fst ps) = [].
Proof.
  revert earlier. induction ps as [|x ps IH]; intros earlier Hwf Hcons; [done|].
  simpl.
  replace (map fst earlier ++ [x.1]) with (map fst (earlier ++ [x]))
    by (by rewrite map_app).
  rewrite IH; [|by rewrite <- app_assoc|by rewrite <- app_assoc].
  rewrite app_nil_r, last_of_group_fst.
  destruct (last (of_group b (getBy b x.1) earlier)) as [y|] eqn:Hlast; [|done].
  simpl.
  apply last_Some in Hlast as [l' Hl'].
  assert (Hy : y ∈ earlier).
  { apply (list_elem_of_filter (fun x0 => getBy b x0.1 = getBy b x.1)).
    fold (of_group b (getBy b x.1) earlier). rewrite Hl'.
    apply elem_of_app. right. by apply list_elem_of_singleton. }
  rewrite Forall_app in Hwf. destruct Hwf as [Hwfe Hwfp].
  inversion Hwfp as [|? ? Hx _]; subst.
  rewrite Forall_forall in Hwfe.
  assert (Hstep : counter_of b x.1 = counter_of b y.1 + 1).
  { apply (Hcons (getBy b x.1) (length l')).
    - unfold of_group in *. rewrite filter_app, Hl'.
      rewrite <- app_assoc. simpl. by apply list_lookup_middle.
    - unfold of_group in *. rewrite filter_app, Hl', filter_cons.
      destruct (decide (getBy b x.1 = getBy b x.1)); [|done].
      rewrite <- app_assoc. simpl.
      rewrite (lookup_app_r l') by lia.
      replace (S (length l') - length l')%nat with 1%nat by lia. done. }
  pose proof (gapBy_next b x.1 y.1 d Hx (Hwfe y Hy) Hstep) as Hno.
  destruct (gapBy b x.1 y.1 d) as [ok g]. simpl in Hno. by subst ok.
Qed.

(** X15: the lines of [diff].  The loop keeps, for each identifier, the
    last packet taken into account; its output is the one obtained from
    the list of the packets taken into account alone: for each of them,
    in order, the gap to the last earlier one of the same identifier,
    when there is one and the detector reports a gap.  Packets of other
    identifiers in between, skipped packets and, unless invalid packets
    are kept, invalid ones neither give a line nor change what a later
    packet is compared with. *)
Theorem runDiff_lines (b : grouping) (keepInvalid : bool) (d : Duration)
    (input : list (Packet * option decodeError)) :
  (runDiff_loop b keepInvalid d ∅ input).1
  = gaps_from b d [] (map fst (counted keepInvalid input)).
Proof.
  apply runDiff_loop_lines. intros id. by rewrite lookup_empty.
Qed.

(** X16: [diff] writes nothing when, within every identifier, the
    counters of the packets taken into account follow one another,
    whatever the times of the packets and the maximum duration, and
    however the identifiers are interleaved. *)
Theorem runDiff_silent (b : grouping) (keepInvalid : bool) (d : Duration)
    (input : list (Packet * option decodeError)) :
  Forall (fun x => wf_packet x.1) (counted keepInvalid input) ->
  (forall id, consecutive b (of_group b id (counted keepInvalid input))) ->
  (runDiff_loop b keepInvalid d ∅ input).1 = [].
Proof.
  intros Hwf Hcons.
  rewrite (runDiff_loop_lines b keepInvalid d input ∅ [])
    by (intros id; by rewrite lookup_empty).
  by apply (gaps_from_consecutive b d (counted keepInvalid input) []).
Qed.

End DiffMore.

Section DiffExamples.

Import Vmucat.

(** Counters 11 and 12 of channel 7, ten seconds apart, under a maximum
    of one second. *)
Lemma runDiff_silent_witness :
  let next := {| VMUHeader := {| Size := 100; Channel := 7; Sequence := 12;
                                 Timestamp := 15 * Second |};
                 DataHeader := DataHeader packet_11 |} in
  let input := [(packet_11, None); (next, None)] in
  Forall (fun x => wf_packet x.1) (counted false input)
  /\ (forall id, consecutive ByChannel
                   (of_group ByChannel id (counted false input)))
  /\ (runDiff_loop ByChannel false Second ∅ input).1 = [].
Proof.
  intros next input.
  assert (Hwf : Forall (fun x => wf_packet x.1) (counted false input)).
  { repeat constructor; by vm_compute. }
  assert (Hcons : forall id, consecutive ByChannel
                    (of_group ByChannel id (counted false input))).
  { intros id. destruct (decide (id = 7)) as [->|Hne].
    - intros [|[|i]] x y Hx Hy; simpl in Hx, Hy; try done.
      injection Hx as <-. injection Hy as <-. reflexivity.
    - unfold of_group. simpl counted.
      rewrite !filter_cons_False, filter_nil by (intros H; apply Hne; exact (eq_sym H)).
      intros i x y Hx. by rewrite lookup_nil in Hx. }
  split; [exact Hwf|]. split; [exact Hcons|].
  exact (runDiff_silent ByChannel false Second input Hwf Hcons).
Defined.

End DiffExamples.

Section TimeRangeMore.

Import Distrib.

Variable Parse : string -> option Time.

(** The window of an accepted request and what is returned for it. *)
Lemma timeRange_accepts (r : request) (now : Time) (delta : Duration)
    (fd' td' : Time) :
  Hour * 24 < now ->
  timeRange Parse r now delta = (fd', td', None) ->
  let fd := (window Parse r now).1 in
  let td := (window Parse r now).2 in
  fd' = Truncate fd Five /\ td' = Truncate (Add td Five) Five
  /\ fd <= td
  /\ (0 < delta < maxDuration -> td - fd <= delta).
Proof.
  intros Hnow Hres fd td.
  pose proof (timeRange_cases Parse r now delta Hnow) as Hcases.
  cbv zeta in Hcases. rewrite Hres in Hcases. simpl in Hcases.
  subst fd td. unfold window.
  assert (Hnone : ~ is_Some (@None InvalidRequestError))
    by (intros [? ?]; done).
  destruct Hcases as [[_ Herr]|[(_ & _ & Herr)
    |(_ & _ & [(Hfd & Htd & [[_ Herr]|[Hcap Heq]])
       |[[Hone Herr]|(Hfd & Htd & [[_ Herr]|[Hcap Heq]])]])]];
    try done.
  - rewrite bool_decide_true by done. simpl.
    injection Heq as -> ->. unfold Add.
    split; [f_equal; lia|]. split; [done|].
    unfold Hour, Minute, Second in *. lia.
  - rewrite bool_decide_false by tauto. simpl.
    injection Heq as -> ->.
    split; [done|]. split; [done|].
    unfold Sub, minDuration, maxDuration in *. lia.
Qed.

(** X17: the window [timeRange] hands back on a request it accepts
    spans a whole number of 5-minute steps, at least one; under a cap
    it is less than the cap plus 10 minutes, and under the 24-hour cap
    of the statistics and gaps handlers at most 24 hours and 5
    minutes. *)
Theorem timeRange_span (r : request) (now : Time) (delta : Duration)
    (fd' td' : Time) :
  Hour * 24 < now ->
  timeRange Parse r now delta = (fd', td', None) ->
  (Five | td' - fd') /\ Five <= td' - fd'
  /\ (0 < delta < maxDuration -> td' - fd' < delta + 2 * Five)
  /\ (delta = MaxInterval -> td' - fd' <= MaxInterval + Five).
Proof.
  intros Hnow Hres.
  destruct (timeRange_accepts r now delta fd' td' Hnow Hres)
    as (-> & -> & Hle & Hcap).
  set (fd := (window Parse r now).1) in *.
  set (td := (window Parse r now).2) in *.
  pose proof (Truncate_Five fd) as ([a Ha] & Hr1).
  pose proof (Truncate_Five (Add td Five)) as ([c Hc] & Hr2).
  unfold Add in *. rewrite Ha, Hc in *.
  unfold MaxInterval, maxDuration, Five, Hour, Minute, Second in *.
  simpl in *.
  split; [exists (c - a); lia|].
  split; [lia|]. split; [lia|].
  intros ->. assert (td - fd <= 86400000000000) by (apply Hcap; lia). lia.
Qed.

End TimeRangeMore.

Section TimeRangeMoreExamples.

Import Distrib.

(** Start 10:00:00 and end 10:15:00 under the 24-hour cap: 20 minutes. *)
Lemma timeRange_span_witness :
  let r := {| dtstart := "2019-03-14T10:00:00Z";
              dtend := "2019-03-14T10:15:00Z" |} in
  Hour * 24 < sample_now
  /\ timeRange rfc3339_sample r sample_now MaxInterval
     = (63688154400 * Second, 63688155600 * Second, None)
  /\ (Five | 63688155600 * Second - 63688154400 * Second)
  /\ 63688155600 * Second - 63688154400 * Second <= MaxInterval + Five.
Proof.
  intros r.
  assert (Hnow : Hour * 24 < sample_now) by reflexivity.
  assert (Hres : timeRange rfc3339_sample r sample_now MaxInterval
                 = (63688154400 * Second, 63688155600 * Second, None))
    by (vm_compute; reflexivity).
  destruct (timeRange_span rfc3339_sample r sample_now MaxInterval _ _
              Hnow Hres) as (Hdiv & _ & _ & Hmax).
  split; [exact Hnow|]. split; [exact Hres|].
  split; [exact Hdiv|exact (Hmax eq_refl)].
Defined.

End TimeRangeMoreExamples.

Section HandleListMore.

Import Distrib.

Lemma spans_of_S (fd : Time) (n : nat) :
  spans_of fd (S n) = (fd, fd + Hour * 4) :: spans_of (fd + Hour * 4) n.
Proof.
  unfold spans_of. simpl. f_equal; [f_equal; lia|].
  rewrite <- seq_shift, map_map. apply map_ext. intros k.
  f_equal; lia.
Qed.

Lemma span_count_S (fd td : Time) :
  fd < td -> span_count fd td = S (span_count (fd + Hour * 4) td).
Proof.
  intros Hlt. unfold span_count, Hour, Minute, Second in *. simpl in *.
  rewrite <- Z2Nat.inj_succ by modlia. f_equal. modlia.
Qed.

Lemma span_count_0 (fd td : Time) : td <= fd -> span_count fd td = 0%nat.
Proof.
  intros Hle. unfold span_count, Hour, Minute, Second in *. simpl in *.
  apply Z2Nat.nonpos. modlia.
Qed.

(** X18: the loop of [handleList] ends, and cuts the window from [fd]
    to [td] into [span_count fd td] spans of four hours that follow one
    another from [fd]: span [k] runs from [fd + 4k] hours to
    [fd + 4(k+1)] hours.  The window is not cut at [td]: on a window
    that is not empty the last span ends at or after [td], less than
    four hours after it.  No span is made for an empty window. *)
Theorem handleList_spans_tile (fuel : nat) (fd td : Time) :
  (span_count fd td < fuel)%nat ->
  handleList_spans fuel fd td = Ret (spans_of fd (span_count fd td))
  /\ (fd < td ->
      let last := fd + Z.of_nat (span_count fd td) * (Hour * 4) in
      (0 < span_count fd td)%nat /\ td <= last < td + Hour * 4)
  /\ (td <= fd -> span_count fd td = 0%nat).
Proof.
  intros Hfuel. split; [|split].
  - revert fd Hfuel. induction fuel as [|fuel IH]; intros fd Hfuel; [lia|].
    simpl. unfold Before. destruct (Z.ltb_spec fd td) as [Hlt|Hge].
    + rewrite span_count_S in * by done. unfold Add.
      rewrite IH by lia. by rewrite spans_of_S.
    + by rewrite span_count_0.
  - intros Hlt. unfold span_count. cbv zeta.
    assert (Hq : 0 < (td - fd + Hour * 4 - 1) / (Hour * 4)
                 /\ td <= fd + (td - fd + Hour * 4 - 1) / (Hour * 4) * (Hour * 4)
                       < td + Hour * 4)
      by (unfold Hour, Minute, Second; simpl; modlia).
    set (q := (td - fd + Hour * 4 - 1) / (Hour * 4)) in *.
    rewrite Z2Nat.id by lia. split; [lia|tauto].
  - apply span_count_0.
Qed.

(** Twenty minutes: one span of four hours. *)
Lemma handleList_spans_tile_witness :
  let fd := 63688154400 * Second in
  let td := 63688155600 * Second in
  (span_count fd td < 2)%nat
  /\ handleList_spans 2 fd td = Ret [(fd, fd + Hour * 4)].
Proof.
  intros fd td.
  assert (Hfuel : (span_count fd td < 2)%nat) by (vm_compute; lia).
  split; [exact Hfuel|].
  destruct (handleList_spans_tile 2 fd td Hfuel) as [Hret _].
  rewrite Hret. vm_compute. reflexivity.
Defined.

End HandleListMore.

Section WalkOrder.

Import Walker.

Context {Packet Decoder : Type}.

Lemma ascii_compare_N (x y : Ascii.ascii) :
  Ascii.compare x y = N.compare (Ascii.N_of_ascii x) (Ascii.N_of_ascii y).
Proof. reflexivity. Qed.

Lemma string_le_trans (a b c : string) :
  string_le a b -> string_le b c -> string_le a c.
Proof.
  unfold string_le, String.leb.
  revert b c. induction a as [|x a IH]; intros [|y b] [|z c]; simpl; try done.
  rewrite !ascii_compare_N.
  destruct (N.compare_spec (Ascii.N_of_ascii x) (Ascii.N_of_ascii y)) as [Hxy|Hxy|Hxy];
    destruct (N.compare_spec (Ascii.N_of_ascii y) (Ascii.N_of_ascii z)) as [Hyz|Hyz|Hyz];
    destruct (N.compare_spec (Ascii.N_of_ascii x) (Ascii.N_of_ascii z)) as [Hxz|Hxz|Hxz];
    try done; try lia.
  apply IH.
Qed.

Lemma sortStrings_Permutation (paths paths' : list string) :
  paths ≡ₚ paths' -> sortStrings paths = sortStrings paths'.
Proof.
  intros Hperm. unfold sortStrings.
  assert (Htotal : Total string_le) by (intros a b; apply String.leb_total).
  assert (Htrans : Transitive string_le)
    by (intros a b c; apply string_le_trans).
  assert (Hanti : AntiSymm eq string_le)
    by (intros a b; apply String.leb_antisym).
  apply (Sorted_unique string_le).
  - by apply Sorted_merge_sort.
  - by apply Sorted_merge_sort.
  - by rewrite !merge_sort_Permutation.
Qed.

(** X19: what [Walk] sends does not depend on the order the paths are
    given in: the paths are sorted first, and two lists that hold the
    same paths sort to the same list.  So which packets an I/O error
    cuts off depends on the names of the paths alone. *)
Theorem Walk_order (fs : string -> node Packet) (paths paths' : list string)
    (d : option Decoder) :
  paths ≡ₚ paths' -> Walk fs paths d = Walk fs paths' d.
Proof.
  intros Hperm. unfold Walk. destruct d; [|done].
  by rewrite (sortStrings_Permutation paths paths').
Qed.

End WalkOrder.

Section WalkOrderExample.

Import Walker.

(** The paths "d", "c", "b" and "b", "c", "d" of the small archive. *)
Lemma Walk_order_witness :
  ["d"; "c"; "b"] ≡ₚ ["b"; "c"; "d"]
  /\ Walk (Decoder := unit) walk_fs ["d"; "c"; "b"] (Some tt)
     = Walk walk_fs ["b"; "c"; "d"] (Some tt).
Proof.
  assert (Hperm : ["d"; "c"; "b"] ≡ₚ ["b"; "c"; "d"]).
  { change ["d"; "c"; "b"] with (reverse ["b"; "c"; "d"]).
    apply reverse_Permutation. }
  split; [exact Hperm|].
  exact (Walk_order walk_fs _ _ (Some tt) Hperm).
Defined.

End WalkOrderExample.

Section SortingMore.

Import Sorting.

Ltac order_cases :=
  unfold SortTMIndex_less, SortHRDIndex_less, Equal, Before;
  repeat match goal with
         | |- context [Z.eqb ?x ?y] => destruct (Z.eqb_spec x y); simpl
         | |- context [Z.ltb ?x ?y] => destruct (Z.ltb_spec x y); simpl
         end;
  try done; try lia.

(** X20: the order [SortTMIndex] sorts by is a strict weak order: no
    index comes before itself, the order is transitive, and so is being
    neither before nor after; two indexes are in that case exactly when
    they have the same time stamp and the same sequence number.  These
    are the conditions under which what [sort.Slice] leaves is sorted. *)
Theorem SortTMIndex_strict_weak (a b c : Index) :
  SortTMIndex_less a a = false
  /\ (SortTMIndex_less a b = true -> SortTMIndex_less b c = true ->
      SortTMIndex_less a c = true)
  /\ (SortTMIndex_less a b = false /\ SortTMIndex_less b a = false
      <-> Timestamp a = Timestamp b /\ Sequence a = Sequence b)
  /\ (SortTMIndex_less a b = false -> SortTMIndex_less b a = false ->
      SortTMIndex_less b c = false -> SortTMIndex_less c b = false ->
      SortTMIndex_less a c = false /\ SortTMIndex_less c a = false).
Proof.
  split; [order_cases|]. split; [order_cases|].
  split; [split; [order_cases|intros [Ht Hs]; order_cases]|order_cases].
Qed.

(** X21: the order [SortHRDIndex] sorts by puts no index before itself
    and no two indexes each before the other, and it is transitive
    among indexes of one identifier; but it is not transitive: among
    indexes of one time stamp it compares sizes across identifiers and
    sequence numbers within one, and three indexes can each come before
    the next in a circle, so that no arrangement of them is sorted. *)
Theorem SortHRDIndex_not_transitive :
  (forall a b, SortHRDIndex_less a a = false
               /\ (SortHRDIndex_less a b = true ->
                   SortHRDIndex_less b a = false))
  /\ (forall a b c, Id a = Id b -> Id b = Id c ->
        SortHRDIndex_less a b = true -> SortHRDIndex_less b c = true ->
        SortHRDIndex_less a c = true)
  /\ exists a b c,
       SortHRDIndex_less a b = true /\ SortHRDIndex_less b c = true
       /\ SortHRDIndex_less c a = true.
Proof.
  split; [intros a b; split; order_cases|].
  split; [intros a b c Hab Hbc; order_cases|].
  exists {| Timestamp := 5; Id := 1; Size := 1; Sequence := 2 |},
         {| Timestamp := 5; Id := 2; Size := 2; Sequence := 0 |},
         {| Timestamp := 5; Id := 1; Size := 3; Sequence := 1 |}.
  by vm_compute.
Qed.

End SortingMore.

Section MixReadersMore.

Import Take.

Context {Scanner error : Type}.
Variable Scan : Scanner -> bool * Scanner.
Variable Bytes : Scanner -> list byte.
Variable Err : Scanner -> option error.

(** [Read] when the scanner drawn has a token. *)
Lemma Read_scanned (rs : list Scanner) (r : Z) (bs : list byte) a a' :
  0 <= r -> rs !! Z.to_nat r = Some a -> Scan a = (true, a') ->
  Read Scan Bytes Err rs r bs
  = Ret (<[Z.to_nat r := a']> rs, copy bs (Bytes a'),
         Z.min (Z.of_nat (length bs)) (Z.of_nat (length (Bytes a'))),
         ScanError <$> Err a').
Proof.
  intros Hr Ha Hscan. unfold Read.
  pose proof (lookup_lt_Some _ _ _ Ha) as Hlen.
  destruct (Z.leb_spec (Z.of_nat (length rs)) 0); [lia|].
  rewrite (index_Ret rs r a) by done. simpl. rewrite Hscan. simpl.
  rewrite (index_Ret _ r a'); [done|done|].
  by rewrite list_lookup_insert_eq by done.
Qed.

(** [Read] when the scanner drawn is exhausted and is not the last. *)
Lemma Read_removed (rs : list Scanner) (r : Z) (bs : list byte) a a' :
  0 <= r -> rs !! Z.to_nat r = Some a -> Scan a = (false, a') ->
  (1 < length rs)%nat ->
  let rs' := delete (Z.to_nat r) rs in
  let k := Z.to_nat ((r + 1) mod Z.of_nat (length rs')) in
  exists s,
    rs' !! k = Some s
    /\ Read Scan Bytes Err rs r bs
       = Ret (rs', copy bs (Bytes s),
              Z.min (Z.of_nat (length bs)) (Z.of_nat (length (Bytes s))),
              ScanError <$> Err s).
Proof.
  intros Hr Ha Hscan Hmany rs' k.
  pose proof (lookup_lt_Some _ _ _ Ha) as Hlen.
  assert (Hlen' : length rs' = (length rs - 1)%nat).
  { unfold rs'. by rewrite length_delete by (by eexists). }
  assert (Hk : (k < length rs')%nat).
  { unfold k. rewrite Hlen'.
    pose proof (Z.mod_pos_bound (r + 1) (Z.of_nat (length rs - 1))). lia. }
  destruct (lookup_lt_is_Some_2 rs' k Hk) as [s Hs].
  exists s. split; [done|].
  unfold Read.
  destruct (Z.leb_spec (Z.of_nat (length rs)) 0); [lia|].
  rewrite (index_Ret rs r a) by done. simpl. rewrite Hscan. simpl.
  rewrite length_insert.
  destruct (Z.ltb_spec 1 (Z.of_nat (length rs))); [|lia].
  rewrite (slice_Ret _ 0 r) by (rewrite ?length_insert; lia).
  rewrite (slice_from_Ret _ (r + 1)) by (rewrite ?length_insert; lia).
  simpl.
  assert (Hdel : take (Z.to_nat (r - 0)) (drop (Z.to_nat 0) (<[Z.to_nat r:=a']> rs))
                 ++ drop (Z.to_nat (r + 1)) (<[Z.to_nat r:=a']> rs) = rs').
  { unfold rs'. rewrite delete_take_drop.
    change (Z.to_nat 0) with 0%nat. rewrite drop_0.
    replace (Z.to_nat (r - 0)) with (Z.to_nat r) by lia.
    replace (Z.to_nat (r + 1)) with (S (Z.to_nat r)) by lia.
    rewrite take_insert_ge by lia.
    by rewrite drop_insert_lt by lia. }
  rewrite Hdel.
  rewrite Z.rem_mod_nonneg by lia.
  rewrite (index_Ret rs' _ s); [done| |exact Hs].
  apply Z.mod_pos_bound. lia.
Qed.

(** [Read] when the only scanner left is exhausted. *)
Lemma Read_EOF (bs : list byte) a a' :
  Scan a = (false, a') ->
  Read Scan Bytes Err [a] 0 bs = Ret ([a'], bs, 0, Some EOF).
Proof. intros Hscan. unfold Read. simpl. by rewrite Hscan. Qed.

(** X22: a call of [Read] on a reader that holds a scanner returns, and
    leaves the reader holding a scanner: at most one scanner is taken
    away, and never the last one, so the draw of the next call is always
    among the scanners left.  The buffer keeps its length and the count
    returned is at most that length.  [io.EOF] is returned only by a
    reader that holds a single scanner, which is exhausted; the buffer
    is then left as it is, with count 0. *)
Theorem Read_keeps_scanner (rs : list Scanner) (r : Z) (bs : list byte) :
  0 <= r < Z.of_nat (length rs) ->
  exists rs' bs' n e,
    Read Scan Bytes Err rs r bs = Ret (rs', bs', n, e)
    /\ rs' <> []
    /\ (length rs' = length rs \/ S (length rs') = length rs)
    /\ length bs' = length bs
    /\ 0 <= n <= Z.of_nat (length bs)
    /\ (e = Some EOF ->
        bs' = bs /\ n = 0
        /\ exists a, rs = [a] /\ (Scan a).1 = false).
Proof.
  intros Hr.
  destruct (lookup_lt_is_Some_2 rs (Z.to_nat r)) as [a Ha]; [lia|].
  assert (Hcopy : forall src : list byte,
            length (copy bs src) = length bs).
  { intros src. unfold copy. rewrite length_app, length_take, length_drop. lia. }
  destruct (Scan a) as [[|] a'] eqn:Hscan.
  - eexists _, _, _, _. split; [by apply (Read_scanned rs r bs a a'); try lia|].
    split; [intros Hnil; apply (f_equal length) in Hnil;
            rewrite length_insert in Hnil; simpl in Hnil; lia|].
    split; [left; by rewrite length_insert|].
    split; [apply Hcopy|]. split; [lia|].
    by destruct (Err a').
  - destruct (decide (1 < length rs)%nat) as [Hmany|Hone].
    + destruct (Read_removed rs r bs a a') as (s & Hs & Hread);
        [lia|done|done|done|].
      pose proof (length_delete rs (Z.to_nat r) (mk_is_Some _ _ Ha)) as Hlen.
      eexists _, _, _, _. split; [exact Hread|].
      split; [intros Hnil; rewrite Hnil in Hlen; simpl in Hlen; lia|].
      split; [right; lia|].
      split; [apply Hcopy|]. split; [lia|].
      by destruct (Err s).
    + destruct rs as [|a0 [|? ?]]; simpl in *; try lia.
      assert (r = 0) as -> by lia. simpl in Ha. injection Ha as ->.
      eexists _, _, _, _. split; [by apply Read_EOF|].
      split; [done|]. split; [by left|]. split; [done|]. split; [lia|].
      intros _. split; [done|]. split; [done|].
      exists a. by rewrite Hscan.
Qed.

(** X23: when the scanner drawn is exhausted and is not the last one,
    [Read] takes it away and hands over what another scanner holds
    without scanning it: the one at position [(r + 1) mod len] of the
    scanners left, in the state it had before the call.  The bytes
    handed over are those of the token that scanner scanned last. *)
Theorem Read_stale (rs : list Scanner) (r : Z) (bs : list byte) a :
  0 <= r -> rs !! Z.to_nat r = Some a -> (Scan a).1 = false ->
  (1 < length rs)%nat ->
  exists s,
    delete (Z.to_nat r) rs
      !! Z.to_nat ((r + 1) mod (Z.of_nat (length rs) - 1)) = Some s
    /\ s ∈ rs
    /\ Read Scan Bytes Err rs r bs
       = Ret (delete (Z.to_nat r) rs, copy bs (Bytes s),
              Z.min (Z.of_nat (length bs)) (Z.of_nat (length (Bytes s))),
              ScanError <$> Err s).
Proof.
  intros Hr Ha Hscan Hmany.
  destruct (Scan a) as [ok a'] eqn:Hsa. simpl in Hscan. subst ok.
  destruct (Read_removed rs r bs a a' Hr Ha Hsa Hmany) as (s & Hs & Hread).
  pose proof (length_delete rs (Z.to_nat r) (mk_is_Some _ _ Ha)) as Hlen.
  replace (Z.of_nat (length rs) - 1)
    with (Z.of_nat (length (delete (Z.to_nat r) rs))) by lia.
  exists s. split; [done|]. split; [|done].
  apply list_elem_of_lookup_2 in Hs. by apply list_elem_of_delete_inv in Hs.
Qed.

(** X24: a token handed over twice.  With two scanners, the first
    exhausted and the second not: a call that draws the second scans it
    and hands over its token; a call that then draws the first takes it
    away and hands over the same token again, and the reader is left
    with the second scanner, its next token not yet scanned. *)
Theorem Read_twice (a b a' b' : Scanner) (bs bs' : list byte) :
  Scan a = (false, a') -> Scan b = (true, b') ->
  Read Scan Bytes Err [a; b] 1 bs
  = Ret ([a; b'], copy bs (Bytes b'),
         Z.min (Z.of_nat (length bs)) (Z.of_nat (length (Bytes b'))),
         ScanError <$> Err b')
  /\ Read Scan Bytes Err [a; b'] 0 bs'
     = Ret ([b'], copy bs' (Bytes b'),
            Z.min (Z.of_nat (length bs')) (Z.of_nat (length (Bytes b'))),
            ScanError <$> Err b').
Proof.
  intros Ha Hb. split.
  - by rewrite (Read_scanned [a; b] 1 bs b b').
  - destruct (Read_removed [a; b'] 0 bs' a a') as (s & Hs & Hread);
      [done|done|done|simpl; lia|].
    simpl in Hs. injection Hs as <-. exact Hread.
Qed.

End MixReadersMore.

Section MixReadersExamples.

Import Take.

(** Two scanners, the first exhausted, the second holding the token "A"
    with "B" to come; a buffer of four bytes; the second is drawn. *)
Lemma Read_keeps_scanner_witness :
  let rs : list tokens := [([], []); ([[byte_of 66]], [byte_of 65])] in
  0 <= 1 < Z.of_nat (length rs)
  /\ exists rs' bs' n e,
       Read tokens_Scan tokens_Bytes tokens_Err rs 1 (repeat Byte.x00 4)
       = Ret (rs', bs', n, e)
       /\ rs' <> [].
Proof.
  intros rs.
  assert (Hr : 0 <= 1 < Z.of_nat (length rs)) by (simpl; lia).
  split; [exact Hr|].
  destruct (Read_keeps_scanner tokens_Scan tokens_Bytes tokens_Err rs 1
              (repeat Byte.x00 4) Hr)
    as (rs' & bs' & n & e & Hread & Hne & _).
  by exists rs', bs', n, e.
Defined.

(** The same two scanners, the first drawn: "A" is handed over again, and
    "B" is still to come. *)
Lemma Read_stale_witness :
  let rs : list tokens := [([], []); ([[byte_of 66]], [byte_of 65])] in
  Read tokens_Scan tokens_Bytes tokens_Err rs 0 (repeat Byte.x00 4)
  = Ret ([([[byte_of 66]], [byte_of 65])],
         [byte_of 65; Byte.x00; Byte.x00; Byte.x00], 1, None).
Proof.
  intros rs.
  destruct (Read_stale tokens_Scan tokens_Bytes tokens_Err rs 0
              (repeat Byte.x00 4) ([], []))
    as (s & Hs & _ & Hread);
    [done|reflexivity|reflexivity|simpl; lia|].
  vm_compute in Hs. injection Hs as <-. rewrite Hread. reflexivity.
Defined.

(** The second scanner before and after it scans "A". *)
Lemma Read_twice_witness :
  let a : tokens := ([], []) in
  let b : tokens := ([[byte_of 65]; [byte_of 66]], []) in
  let b' : tokens := ([[byte_of 66]], [byte_of 65]) in
  tokens_Scan a = (false, a) /\ tokens_Scan b = (true, b')
  /\ (Read tokens_Scan tokens_Bytes tokens_Err [a; b] 1 (repeat Byte.x00 4)
      = Ret ([a; b'], [byte_of 65; Byte.x00; Byte.x00; Byte.x00], 1, None)
      /\ Read tokens_Scan tokens_Bytes tokens_Err [a; b'] 0 (repeat Byte.x00 4)
         = Ret ([b'], [byte_of 65; Byte.x00; Byte.x00; Byte.x00], 1, None)).
Proof.
  intros a b b'.
  assert (Ha : tokens_Scan a = (false, a)) by reflexivity.
  assert (Hb : tokens_Scan b = (true, b')) by reflexivity.
  split; [exact Ha|]. split; [exact Hb|].
  exact (Read_twice tokens_Scan tokens_Bytes tokens_Err a b a b'
           (repeat Byte.x00 4) (repeat Byte.x00 4) Ha Hb).
Defined.

End MixReadersExamples.

Section SplitWritersMore.

Import Take.

Context {error : Type}.
Variable mkdirAll : option (error * bool).
Variable create : Z -> option error.
Variable close : Z -> option error.
Variable empty : error.

Lemma files_S (i : Z) : 0 <= i -> files (i + 1) = files i ++ [i + 1].
Proof.
  intros Hi. unfold files. rewrite seqZ_app by lia.
  rewrite (seqZ_cons (1 + i) 1) by lia.
  rewrite (seqZ_nil _ (Z.pred 1)) by lia.
  do 2 f_equal. lia.
Qed.

Lemma cleanup_Ret (k : nat) (j : Z) (ws : list (option Z)) :
  0 <= j ->
  (forall m, j <= m < j + Z.of_nat k ->
     ws !! Z.to_nat m = Some (Some (m + 1))) ->
  cleanup k j ws = Ret (undo (seqZ (j + 1) (Z.of_nat k))).
Proof.
  revert j. induction k as [|k IH]; intros j Hj Hws; [done|].
  simpl cleanup.
  rewrite (index_Ret ws j (Some (j + 1))); [|done|apply (Hws j); lia].
  simpl. rewrite (IH (j + 1)); [|lia|intros m Hm; apply Hws; lia].
  rewrite (seqZ_cons (j + 1) (Z.of_nat (S k))) by lia.
  replace (Z.succ (j + 1)) with (j + 1 + 1) by lia.
  replace (Z.pred (Z.of_nat (S k))) with (Z.of_nat k) by lia.
  reflexivity.
Qed.

Lemma create_loop_insert (i : Z) (k : nat) :
  0 <= i ->
  <[Z.to_nat i := Some (i + 1)]>
    ((Some <$> files i) ++ replicate (S k) (@None Z))
  = (Some <$> files (i + 1)) ++ replicate k None.
Proof.
  intros Hi. rewrite files_S by done. rewrite fmap_app, <- app_assoc. simpl.
  assert (Hlen : length (Some <$> files i) = Z.to_nat i)
    by (rewrite length_fmap; unfold files; by rewrite length_seqZ).
  rewrite insert_app_r_alt by lia. rewrite Hlen.
  by replace (Z.to_nat i - Z.to_nat i)%nat with 0%nat by lia.
Qed.

(** The outer loop when every file can be created. *)
Lemma create_loop_all (k : nat) (i : Z) :
  0 <= i ->
  (forall m, i < m <= i + Z.of_nat k -> create m = None) ->
  create_loop create k i ((Some <$> files i) ++ replicate k None)
  = Ret (EvCreate <$> seqZ (i + 1) (Z.of_nat k),
         inr (Some <$> files (i + Z.of_nat k))).
Proof.
  revert i. induction k as [|k IH]; intros i Hi Hcreate.
  { simpl. rewrite app_nil_r. by rewrite Z.add_0_r. }
  assert (Hlen : length ((Some <$> files i) ++ replicate (S k) (@None Z))
                 = (Z.to_nat i + S k)%nat).
  { rewrite length_app, length_fmap, length_replicate.
    unfold files. by rewrite length_seqZ. }
  cbn [create_loop]. rewrite Hcreate by lia.
  destruct (Z.ltb_spec i 0); [lia|]. rewrite Hlen.
  destruct (Z.leb_spec (Z.of_nat (Z.to_nat i + S k)) i); [lia|].
  cbn [orb].
  rewrite create_loop_insert by done.
  rewrite IH by (lia || intros m Hm; apply Hcreate; lia). simpl.
  rewrite (seqZ_cons (i + 1) (Z.of_nat (S k))) by lia.
  replace (Z.succ (i + 1)) with (i + 1 + 1) by lia.
  replace (Z.pred (Z.of_nat (S k))) with (Z.of_nat k) by lia.
  replace (i + 1 + Z.of_nat k) with (i + Z.of_nat (S k)) by lia.
  reflexivity.
Qed.

(** The outer loop when the file numbered [f + 1] is the first that
    cannot be created. *)
Lemma create_loop_fails (k : nat) (i f : Z) (e : error) :
  0 <= i <= f -> f < i + Z.of_nat k ->
  (forall m, i < m <= f -> create m = None) ->
  create (f + 1) = Some e ->
  create_loop create k i ((Some <$> files i) ++ replicate k None)
  = Ret ((EvCreate <$> seqZ (i + 1) (f - i)) ++ undo (files f), inl e).
Proof.
  revert i. induction k as [|k IH]; intros i Hi Hf Hcreate He; [lia|].
  assert (Hlen : length ((Some <$> files i) ++ replicate (S k) (@None Z))
                 = (Z.to_nat i + S k)%nat).
  { rewrite length_app, length_fmap, length_replicate.
    unfold files. by rewrite length_seqZ. }
  cbn [create_loop].
  destruct (decide (i = f)) as [->|Hne].
  - rewrite He.
    rewrite (cleanup_Ret (Z.to_nat f) 0); [|lia|].
    + rewrite Z2Nat.id by lia. rewrite Z.sub_diag.
      rewrite (seqZ_nil _ 0) by lia. reflexivity.
    + intros m Hm. rewrite lookup_app_l
        by (rewrite length_fmap; unfold files; rewrite length_seqZ; lia).
      rewrite list_lookup_fmap. unfold files.
      rewrite lookup_seqZ_lt by lia. simpl. do 2 f_equal. lia.
  - rewrite Hcreate by lia.
    destruct (Z.ltb_spec i 0); [lia|]. rewrite Hlen.
    destruct (Z.leb_spec (Z.of_nat (Z.to_nat i + S k)) i); [lia|].
    cbn [orb].
    rewrite create_loop_insert by lia.
    rewrite IH by (lia || done || intros m Hm; apply Hcreate; lia). simpl.
    rewrite (seqZ_cons (i + 1) (f - i)) by lia.
    replace (Z.succ (i + 1)) with (i + 1 + 1) by lia.
    replace (Z.pred (f - i)) with (f - (i + 1)) by lia.
    reflexivity.
Qed.

(** X25: [SplitWriter] leaves all the files or none.  With fewer than
    two parts it touches no file.  When the [n] files can be created it
    creates them in order, numbered from 1 to [n], and returns their
    writers, none of them closed.  When the file numbered [f + 1] is the
    first that cannot be created it returns that error after closing and
    removing each of the [f] files it created, and no other; it never
    closes a writer it has not set. *)
Theorem SplitWriter_all_or_none (n : Z) :
  (n < 2 -> SplitWriter mkdirAll create empty n = Ret ([], inl empty))
  /\ (2 <= n ->
      (forall e, mkdirAll <> Some (e, false)) ->
      ((forall m, 1 <= m <= n -> create m = None) ->
       SplitWriter mkdirAll create empty n
       = Ret (EvCreate <$> files n, inr (Some <$> files n)))
      /\ (forall f e,
            0 <= f < n ->
            (forall m, 1 <= m <= f -> create m = None) ->
            create (f + 1) = Some e ->
            SplitWriter mkdirAll create empty n
            = Ret ((EvCreate <$> files f) ++ undo (files f), inl e))).
Proof.
  split.
  - intros Hn. unfold SplitWriter.
    by destruct (Z.ltb_spec n 2); [|lia].
  - intros Hn Hmk.
    assert (Hloop : SplitWriter mkdirAll create empty n
                    = create_loop create (Z.to_nat n) 0
                        ((Some <$> files 0) ++ replicate (Z.to_nat n) None)).
    { unfold SplitWriter. destruct (Z.ltb_spec n 2); [lia|].
      destruct mkdirAll as [[e [|]]|]; try done. by destruct (Hmk e). }
    rewrite Hloop. split.
    + intros Hcreate.
      rewrite create_loop_all by (lia || intros m Hm; apply Hcreate; lia).
      simpl. by rewrite Z2Nat.id by lia.
    + intros f e Hf Hcreate He.
      rewrite (create_loop_fails _ 0 f e)
        by (lia || done || intros m Hm; apply Hcreate; lia).
      simpl. by rewrite Z.sub_0_r.
Qed.

(** X26: [Close] closes every writer, in order, whether or not an
    earlier one failed to close, and returns the first of the errors
    met, or none. *)
Theorem Close_first_error (l : list Z) :
  Close close (Some <$> l) = Ret (EvClose <$> l, head (omap close l)).
Proof.
  unfold Close.
  assert (Hloop : forall err,
            Close_loop close (Some <$> l) err
            = Ret (EvClose <$> l,
                   match err with
                   | Some _ => err
                   | None => head (omap close l)
                   end)).
  { induction l as [|s l IH]; intros err; [by destruct err|].
    simpl. rewrite IH. simpl.
    destruct err as [e|]; [done|]. by destruct (close s). }
  by rewrite Hloop.
Qed.

End SplitWritersMore.

Section SplitWritersExamples.

Import Take.

(** Three parts, the third file cannot be created: the first two are
    created, then closed and removed. *)
Lemma SplitWriter_all_or_none_witness :
  let create := fun m : Z => if m =? 3 then Some "disk full" else None in
  SplitWriter None create "" 3
  = Ret ([EvCreate 1; EvCreate 2; EvClose 1; EvRemove 1;
          EvClose 2; EvRemove 2], inl "disk full")
  /\ SplitWriter None create "" 1 = Ret ([], inl "").
Proof.
  intros create.
  destruct (SplitWriter_all_or_none None create "" 3) as [_ Hmany].
  destruct (SplitWriter_all_or_none None create "" 1) as [Hfew _].
  split; [|apply Hfew; lia].
  destruct Hmany as [_ Hfail]; [lia|done|].
  rewrite (Hfail 2 "disk full"); [reflexivity|lia| |reflexivity].
  intros m Hm. unfold create. destruct (Z.eqb_spec m 3); [lia|done].
Defined.

End SplitWritersExamples.

Section RunListMore.

Import Vmucat.

Variable Missing : Packet -> Packet -> Z.

Lemma to_int64_add_l (a b : Z) : to_int64 (to_int64 a + b) = to_int64 (a + b).
Proof.
  unfold to_int64. change (2 ^ 63) with 9223372036854775808.
  change (2 ^ 64) with 18446744073709551616. modlia.
Qed.

Lemma to_int64_idemp (a : Z) : to_int64 (to_int64 a) = to_int64 a.
Proof.
  rewrite <- (Z.add_0_r (to_int64 a)) at 1.
  by rewrite to_int64_add_l, Z.add_0_r.
Qed.

Lemma count_of_cons (err : decodeError) p e input :
  e <> Some EOF -> e <> Some ErrOther ->
  count_of err ((p, e) :: input)
  = (if decide (e = Some err) then 1 else 0) + count_of err input.
Proof.
  intros Heof Hother. unfold count_of.
  assert (Hdec : decoded ((p, e) :: input) = (p, e) :: decoded input)
    by (by destruct e as [[| | |]|]).
  rewrite Hdec, filter_cons. simpl.
  destruct (decide (e = Some err)); simpl length; lia.
Qed.

Ltac list_step IH Hok :=
  match goal with
  | |- context [runList_loop ?M ?k ?s ?inp] =>
      let Hok' := fresh "Hok'" in
      assert (Hok' : list_ok s)
        by (destruct Hok as (? & ? & ? & ?);
            repeat split; simpl; (apply to_int64_idemp || done));
      destruct (IH s Hok') as (Hl & Hi' & Hinv' & Hskip' & Hsize');
      destruct (runList_loop M k s inp) as [[lines st'] e']
  end.

Lemma runList_loop_counts (keepInvalid : bool)
    (input : list (Packet * option decodeError)) (st : listState) :
  list_ok st ->
  let res := runList_loop Missing keepInvalid st input in
  let lines := res.1.1 in
  let st' := res.1.2 in
  map (fun l => (l.1.1, negb l.2)) lines = counted keepInvalid input
  /\ list_i st'
     = to_int64 (list_i st + Z.of_nat (length lines)
                 + if keepInvalid then 0 else count_of ErrInvalid input)
  /\ list_invalid st'
     = to_int64 (list_invalid st + count_of ErrInvalid input)
  /\ list_skipped st' = to_int64 (list_skipped st + count_of ErrSkip input)
  /\ list_size st'
     = to_int64 (list_size st
                 + Zsum (map (fun l => int (Size (VMUHeader l.1.1))) lines)).
Proof.
  revert st. induction input as [|[p err] input IH]; intros st Hok.
  { destruct Hok as (Hi & Hinv & Hsize & Hskip). cbn.
    unfold count_of. simpl.
    destruct keepInvalid; rewrite ?Z.add_0_r, Hi, Hinv, Hsize, Hskip; done. }
  assert (Hend : forall res : list (Packet * Z * bool) * listState
                              * option decodeError,
            res.1.1 = [] -> res.1.2 = st ->
            count_of ErrInvalid ((p, err) :: input) = 0 ->
            count_of ErrSkip ((p, err) :: input) = 0 ->
            counted keepInvalid ((p, err) :: input) = [] ->
            map (fun l => (l.1.1, negb l.2)) res.1.1
            = counted keepInvalid ((p, err) :: input)
            /\ list_i res.1.2
               = to_int64 (list_i st + Z.of_nat (length res.1.1)
                           + if keepInvalid then 0
                             else count_of ErrInvalid ((p, err) :: input))
            /\ list_invalid res.1.2
               = to_int64 (list_invalid st
                           + count_of ErrInvalid ((p, err) :: input))
            /\ list_skipped res.1.2
               = to_int64 (list_skipped st
                           + count_of ErrSkip ((p, err) :: input))
            /\ list_size res.1.2
               = to_int64 (list_size st
                           + Zsum (map (fun l => int (Size (VMUHeader l.1.1)))
                                     res.1.1))).
  { intros res -> -> -> -> ->.
    destruct Hok as (Hi & Hinv & Hsize & Hskip). simpl.
    destruct keepInvalid; rewrite ?Z.add_0_r, Hi, Hinv, Hsize, Hskip; done. }
  cbv zeta.
  destruct err as [[| | |]|].
  - (* ErrInvalid *)
    rewrite !(count_of_cons _ p (Some ErrInvalid)) by done.
    destruct (decide (Some ErrInvalid = Some ErrInvalid)); [|done].
    destruct (decide (Some ErrInvalid = Some ErrSkip)); [done|].
    simpl runList_loop. simpl counted.
    destruct keepInvalid; cbn [andb negb];
      [destruct (list_seen st !! Channel (VMUHeader p)) as [prev|]|];
      list_step IH Hok; simpl in *;
      rewrite Hl, Hi', Hinv', Hskip', Hsize';
      repeat (rewrite <- ?Z.add_assoc; rewrite to_int64_add_l);
      (split; [done|]); repeat split; f_equal; lia.
  - (* ErrSkip *)
    rewrite !(count_of_cons _ p (Some ErrSkip)) by done.
    destruct (decide (Some ErrSkip = Some ErrInvalid)); [done|].
    destruct (decide (Some ErrSkip = Some ErrSkip)); [|done].
    simpl runList_loop. simpl counted.
    list_step IH Hok; simpl in *.
    rewrite Hl, Hi', Hinv', Hskip', Hsize';
      repeat (rewrite <- ?Z.add_assoc; rewrite to_int64_add_l).
    (split; [done|]); repeat split; f_equal; destruct keepInvalid; lia.
  - by apply Hend.
  - by apply Hend.
  - (* a valid packet *)
    rewrite !(count_of_cons _ p None) by done.
    destruct (decide (@None decodeError = Some ErrInvalid)); [done|].
    destruct (decide (@None decodeError = Some ErrSkip)); [done|].
    simpl runList_loop. simpl counted. cbn [andb negb].
    destruct (list_seen st !! Channel (VMUHeader p)) as [prev|];
      list_step IH Hok; simpl in *;
      rewrite Hl, Hi', Hinv', Hskip', Hsize';
      repeat (rewrite <- ?Z.add_assoc; rewrite to_int64_add_l);
      (split; [done|]); repeat split; f_equal; destruct keepInvalid; lia.
Qed.

(** X27: the summary [list] logs at the end of the stream against the
    lines it wrote.  A line is written for each packet taken into
    account, in order, marked invalid when the decoder said so.  The
    number of invalid packets and the number of skipped ones count what
    the decoder handed back, whether or not invalid packets are kept.
    The number of packets is the number of lines written plus, unless
    invalid packets are kept, the number of invalid packets: a packet
    left out of the listing is still counted, a skipped one is not.
    The size is the sum of the sizes of the packets listed.  All are
    [int] values. *)
Theorem runList_summary (keepInvalid : bool)
    (input : list (Packet * option decodeError)) :
  let res := runList_loop Missing keepInvalid list_start input in
  let lines := res.1.1 in
  let st := res.1.2 in
  map (fun l => (l.1.1, negb l.2)) lines = counted keepInvalid input
  /\ list_i st
     = to_int64 (Z.of_nat (length lines)
                 + if keepInvalid then 0 else count_of ErrInvalid input)
  /\ list_invalid st = to_int64 (count_of ErrInvalid input)
  /\ list_skipped st = to_int64 (count_of ErrSkip input)
  /\ list_size st
     = to_int64 (Zsum (map (fun l => int (Size (VMUHeader l.1.1))) lines)).
Proof.
  assert (Hok : list_ok list_start) by (by repeat split).
  pose proof (runList_loop_counts keepInvalid input list_start Hok) as H.
  cbv zeta in *. simpl in H.
  destruct H as (Hl & Hi & Hinv & Hskip & Hsize).
  rewrite Hl, Hi, Hinv, Hskip, Hsize.
  split; [done|]. by repeat split; f_equal.
Qed.

End RunListMore.


Section TimeFormatMore.

Import Vmudump.

Lemma AppendInt_app (buf : list byte) (n : Z) :
  AppendInt buf n = buf ++ AppendInt [] n.
Proof. reflexivity. Qed.

Lemma range_check (P : Z -> bool) (lo n : Z) :
  forallb P (seqZ lo n) = true ->
  forall v, lo <= v < lo + n -> P v = true.
Proof.
  intros Hall v Hv. rewrite forallb_forall in Hall. apply Hall.
  apply list_elem_of_In, elem_of_seqZ. lia.
Qed.

Lemma bytes_eq (l k : list byte) : map u8 l = map u8 k -> l = k.
Proof.
  revert k. induction l as [|b l IH]; intros [|c k] Heq; try done.
  simpl in Heq. injection Heq as Hb Hl.
  apply u8_inj in Hb. subst c. f_equal. by apply IH.
Qed.

Lemma pad2_fixed (buf : list byte) (v : Z) :
  0 <= v < 100 ->
  AppendInt (if v <? 10 then AppendInt buf 0 else buf) (to_int64 v)
  = buf ++ fixed 2 v.
Proof.
  intros Hv.
  pose (P := fun v => bool_decide
                   (map u8 (AppendInt (if v <? 10 then AppendInt [] 0 else [])
                              (to_int64 v))
                    = map u8 (fixed 2 v))).
  assert (Hall : forallb P (seqZ 0 100) = true)
    by (vm_compute; reflexivity).
  pose proof (range_check P 0 100 Hall v ltac:(lia)) as Hcheck.
  subst P. cbv beta in Hcheck.
  apply bool_decide_eq_true in Hcheck. apply bytes_eq in Hcheck.
  rewrite <- Hcheck. rewrite AppendInt_app.
  rewrite (AppendInt_app (if v <? 10 then AppendInt [] 0 else [])).
  destruct (v <? 10).
  - rewrite (AppendInt_app buf 0). by rewrite <- !app_assoc.
  - by rewrite app_nil_l.
Qed.

Lemma pad3_fixed (buf : list byte) (v : Z) :
  0 <= v < 1000 ->
  AppendInt (if v <? 100
             then AppendInt (if v <? 10 then AppendInt buf 0 else buf) 0
             else if v <? 10 then AppendInt buf 0 else buf) (to_int64 v)
  = buf ++ fixed 3 v.
Proof.
  intros Hv.
  pose (P := fun v => bool_decide
                   (map u8
                      (AppendInt
                         (if v <? 100
                          then AppendInt
                                 (if v <? 10 then AppendInt [] 0 else []) 0
                          else if v <? 10 then AppendInt [] 0 else [])
                         (to_int64 v))
                    = map u8 (fixed 3 v))).
  assert (Hall : forallb P (seqZ 0 1000) = true)
    by (vm_compute; reflexivity).
  pose proof (range_check P 0 1000 Hall v ltac:(lia)) as Hcheck.
  subst P. cbv beta in Hcheck.
  apply bool_decide_eq_true in Hcheck. apply bytes_eq in Hcheck.
  rewrite <- Hcheck. rewrite AppendInt_app.
  rewrite (AppendInt_app (if v <? 100 then _ else _) (to_int64 v)).
  rewrite app_assoc. f_equal.
  destruct (v <? 100), (v <? 10);
    rewrite ?(AppendInt_app (AppendInt buf 0) 0), ?(AppendInt_app buf 0),
      ?(AppendInt_app (AppendInt [] 0) 0), ?app_nil_r, <- ?app_assoc; done.
Qed.

Lemma year_fixed (buf : list byte) (y : Z) :
  1000 <= y <= 9999 -> AppendInt buf (to_int64 y) = buf ++ fixed 4 y.
Proof.
  intros Hy.
  pose (P := fun y => bool_decide
                (map u8 (AppendInt [] (to_int64 y)) = map u8 (fixed 4 y))).
  assert (Hall : forallb P (seqZ 1000 9000) = true)
    by (vm_compute; reflexivity).
  pose proof (range_check P 1000 9000 Hall y ltac:(lia)) as Hcheck.
  subst P. cbv beta in Hcheck.
  apply bool_decide_eq_true in Hcheck. apply bytes_eq in Hcheck.
  rewrite AppendInt_app. by rewrite Hcheck.
Qed.

Lemma length_fixed (n : nat) (v : Z) : length (fixed n v) = n.
Proof.
  revert v. induction n as [|n IH]; intros v; [done|].
  simpl. rewrite length_app, IH. simpl. lia.
Qed.

(** X28: [timeFormat] on a time of the years 1000 to 9999 appends 23
    bytes to the buffer and leaves what the buffer held: the year on
    four digits, the month, the day, the hour, the minute and the second
    on two, the milliseconds on three, each with zeros in front, parted
    by '-', '-', a blank, ':', ':' and '.'; the nanoseconds below the
    millisecond are dropped, not rounded. *)
Theorem timeFormat_layout (t : wallTime) (buf : list byte) :
  let '(y, m, d) := t_Date t in
  1000 <= y <= 9999 -> 1 <= m <= 12 -> 1 <= d <= 31 ->
  0 <= t_Hour t <= 23 -> 0 <= t_Minute t <= 59 -> 0 <= t_Second t <= 59 ->
  0 <= t_Nanosecond t <= 999999999 ->
  timeFormat t buf
  = buf ++ fixed 4 y ++ [byte_of 45] ++ fixed 2 m ++ [byte_of 45]
        ++ fixed 2 d ++ [byte_of 32] ++ fixed 2 (t_Hour t) ++ [byte_of 58]
        ++ fixed 2 (t_Minute t) ++ [byte_of 58] ++ fixed 2 (t_Second t)
        ++ [byte_of 46] ++ fixed 3 (t_Nanosecond t / 1000000)
  /\ length (timeFormat t buf) = (length buf + 23)%nat.
Proof.
  destruct t as [[[y m] d] h mi s ns]. simpl.
  intros Hy Hm Hd Hh Hmi Hs Hns.
  assert (Hms : 0 <= Z.quot ns millis < 1000).
  { unfold millis. rewrite Z.quot_div_nonneg by lia. simpl. modlia. }
  assert (Hq : Z.quot ns millis = ns / 1000000)
    by (unfold millis; by rewrite Z.quot_div_nonneg by lia).
  assert (Heq : timeFormat
                  {| t_Date := (y, m, d); t_Hour := h; t_Minute := mi;
                     t_Second := s; t_Nanosecond := ns |} buf
                = buf ++ fixed 4 y ++ [byte_of 45] ++ fixed 2 m
                      ++ [byte_of 45] ++ fixed 2 d ++ [byte_of 32]
                      ++ fixed 2 h ++ [byte_of 58] ++ fixed 2 mi
                      ++ [byte_of 58] ++ fixed 2 s ++ [byte_of 46]
                      ++ fixed 3 (ns / 1000000)).
  { unfold timeFormat. cbn [t_Date t_Hour t_Minute t_Second t_Nanosecond].
    cbv zeta.
    rewrite pad3_fixed by done.
    rewrite (pad2_fixed _ s) by lia.
    rewrite (pad2_fixed _ mi) by lia.
    rewrite (pad2_fixed _ h) by lia.
    rewrite (pad2_fixed _ d) by lia.
    rewrite (pad2_fixed _ m) by lia.
    rewrite year_fixed by done.
    rewrite Hq. unfold space. by rewrite <- !app_assoc. }
  split; [exact Heq|].
  rewrite Heq. rewrite !length_app, !length_fixed. simpl. lia.
Qed.

End TimeFormatMore.

Section TimeFormatExample.

Import Vmudump.

(** 2019-03-14 10:15:07.042999. *)
Lemma timeFormat_layout_witness :
  timeFormat {| t_Date := (2019, 3, 14); t_Hour := 10; t_Minute := 15;
                t_Second := 7; t_Nanosecond := 42999000 |} []
  = map byte_of [50; 48; 49; 57; 45; 48; 51; 45; 49; 52; 32;
                 49; 48; 58; 49; 53; 58; 48; 55; 46; 48; 52; 50]%N.
Proof.
  pose proof (timeFormat_layout
                {| t_Date := (2019, 3, 14); t_Hour := 10; t_Minute := 15;
                   t_Second := 7; t_Nanosecond := 42999000 |} []) as H.
  cbv beta iota delta [t_Date t_Hour t_Minute t_Second t_Nanosecond] in H.
  destruct H as [Heq _]; [lia..|].
  rewrite Heq. vm_compute. reflexivity.
Defined.

End TimeFormatExample.
